(** * streamutil: a shallow embedding of the buffered dispatch engines

    The development follows the Go package [streamutil]:
    - the observer interfaces ReadCallback and WriteCallback,
    - the read engine: BufferedReader with Read, ReadAt, Results, its
      dispatch loop and formatPanic,
    - the write engine: BufferedWriter with Write, WriteAt, Flush, Close,
      Results and its dispatch loop,
    - the facade of streamutil.go: Reader, Writer, TeeReader and the tee
      mirror observer teeWriterCallback,
    - the stock observers HashCallback (with HexSum), SizeCallback and
      MultiHashCallback,
    - the mock streams and observers of the package's tests, which serve as
      concrete inputs.

    Go objects are rendered by explicit state passing: a method that mutates
    its receiver returns the updated receiver, and an engine holds the
    current state of the stream it wraps and of each registered observer.
    Every call that leaves the engine (a Read, ReadAt, Write, WriteAt,
    Flush or Close on the wrapped stream, an OnData on an observer) is
    recorded in a trace of events, so that "no I/O" and "no dispatch" are
    statements about that trace.  Engines are used by one caller at a time,
    as the package requires; the atomic operations of the Go code are their
    sequential meaning. *)

From Stdlib Require Import String List ZArith Lia Bool.
From Stdlib Require Import Strings.Byte.
From stdpp Require Import base gmap strings list.
Import ListNotations.

Local Open Scope string_scope.
Local Open Scope list_scope.

(** ** Go values the package passes around *)

(** Go's [error] values as far as the package looks at them: the package
    compares them with nil, hands them back, and (in formatPanic) asks for
    their message.  A value of this type is one error object; the engines
    never copy or rebuild a stored error, so "the identical error value" is
    rendered by equality of the stored and the returned value.  (Two
    errors made by errors.New from the same text are two objects in Go and
    one value here; no statement below rests on telling them apart.) *)
Module errors.
Inductive error : Type :=
| errorString (msg : string).

Definition New (msg : string) : error := errorString msg.

Definition Error (e : error) : string :=
  match e with errorString msg => msg end.
End errors.
Abbreviation error := errors.error.

(** Go's [any] results of observers, by dynamic type. *)
Inductive any : Type :=
| any_nil
| any_int (z : Z)
| any_bytes (b : list byte)
| any_string (s : string).

(** A non-nil value recovered from a panic, by dynamic type: the two cases
    formatPanic tells apart and everything else.  (From Go 1.21 on a
    [panic(nil)] reaches [recover] as a runtime error, the first case.) *)
Inductive panic_value : Type :=
| panic_error (e : error)
| panic_string (s : string)
| panic_other (tag : nat).

(** How a call of OnData ends: it returns an error-or-nil, or it panics. *)
Inductive outcome : Type :=
| Return (e : option error)
| Panic (v : panic_value).

(** What leaves the engine. *)
Inductive event : Type :=
| ev_Read (len_p : N)                    (* src.Read(p) *)
| ev_ReadAt (len_p : N) (off : Z)        (* srcAt.ReadAt(p, off) *)
| ev_Write (p : list byte)               (* dst.Write(p) *)
| ev_WriteAt (p : list byte) (off : Z)   (* dstAt.WriteAt(p, off) *)
| ev_Close                               (* dst.Close() *)
| ev_Flush                               (* dst.Flush(), see bufio.FlushPtr *)
| ev_OnData (i : nat) (chunk : list byte)(* callbacks[i].OnData(chunk) *).

Definition trace := list event.

(** ** The observer interfaces *)

(** The method set shared by ReadCallback and WriteCallback.  [T] is the
    state of the observer object; OnData returns the updated object.  The
    chunk is an immutable list: the Go contract "chunk MUST NOT be modified"
    is built in. *)
Class Callback (T : Type) : Type := {
  Name : T -> string;
  OnData : T -> list byte -> outcome * T;
  Result : T -> any
}.

(** An interface value: a dynamic type, its method table, and the object.
    Every entry of an engine's callback list carries its own object. *)
Record ReadCallback : Type := as_callback {
  cb_type : Type;
  cb_methods : Callback cb_type;
  cb_obj : cb_type
}.
Arguments as_callback {cb_type cb_methods} cb_obj.

(** WriteCallback has the same method set as ReadCallback, so in Go every
    value of one interface is a value of the other. *)
Definition WriteCallback : Type := ReadCallback.

Definition cb_Name (cb : ReadCallback) : string :=
  @Name _ (cb_methods cb) (cb_obj cb).

Definition cb_OnData (cb : ReadCallback) (chunk : list byte)
  : outcome * ReadCallback :=
  let '(o, obj') := @OnData _ (cb_methods cb) (cb_obj cb) chunk in
  (o, @as_callback _ (cb_methods cb) obj').

Definition cb_Result (cb : ReadCallback) : any :=
  @Result _ (cb_methods cb) (cb_obj cb).

(** ** formatPanic and the dispatch loop *)

(** [r interface{}] is [None] for nil. *)
Definition formatPanic (r : option panic_value) : string :=
  match r with
  | Some (panic_error v) => errors.Error v
  | Some (panic_string v) => v
  | _ => "unknown panic"
  end.

(** How the [for _, cb := range callbacks] loop is left. *)
Inductive loop_exit : Type :=
| Returned (e : option error)
| Panicked (v : panic_value).

(** The loop of dispatch, from callback number [i] on. *)
Fixpoint dispatch_loop (i : nat) (cbs : list ReadCallback) (chunk : list byte)
  : loop_exit * list ReadCallback * trace :=
  match cbs with
  | [] => (Returned None, [], [])
  | cb :: rest =>
      let '(o, cb') := cb_OnData cb chunk in
      match o with
      | Return None =>
          let '(x, rest', tr) := dispatch_loop (S i) rest chunk in
          (x, cb' :: rest', ev_OnData i chunk :: tr)
      | Return (Some e) => (Returned (Some e), cb' :: rest, [ev_OnData i chunk])
      | Panic v => (Panicked v, cb' :: rest, [ev_OnData i chunk])
      end
  end.

(** dispatch: the loop under the deferred [recover]. BufferedReader.dispatch
    and BufferedWriter.dispatch are the same code over the callbacks field. *)
Definition dispatch (cbs : list ReadCallback) (chunk : list byte)
  : option error * list ReadCallback * trace :=
  let '(x, cbs', tr) := dispatch_loop 0 cbs chunk in
  match x with
  | Returned e => (e, cbs', tr)
  | Panicked v =>
      (Some (errors.New (String.append "callback panic: " (formatPanic (Some v)))),
       cbs', tr)
  end.

(** ** The standard-library streams the engines are built on *)

(** Package io.  A stream object of type [R] (or [W]) is threaded through
    its methods.  [Read r k] stands for [r.Read(p)] with [len(p) = k] and
    returns the bytes stored in [p[:n]], so [n] is the length of that list;
    the io.Reader contract asks for [n <= len(p)].  Write returns the count
    [n]; the io.Writer contract, "Write must return a non-nil error if it
    returns n < len(p)", is part of the interface. *)
Module io.
Definition EOF : error := errors.New "EOF".
Definition ErrShortWrite : error := errors.New "short write".

Class Reader (R : Type) : Type := {
  Read : R -> N -> (list byte * option error) * R
}.

Class ReaderAt (R : Type) : Type := {
  ReadAt : R -> N -> Z -> (list byte * option error) * R
}.

Class Writer (W : Type) : Type := {
  Write : W -> list byte -> (nat * option error) * W;
  Write_contract : forall w p n e w',
    Write w p = ((n, e), w') ->
    n <= length p /\ (n < length p -> e <> None)
}.

Class WriterAt (W : Type) : Type := {
  WriteAt : W -> list byte -> Z -> (nat * option error) * W
}.

Class Closer (W : Type) : Type := {
  Close : W -> option error * W
}.
End io.

Definition is_nil {A : Type} (x : option A) : bool :=
  match x with None => true | Some _ => false end.

(** Package bufio, the buffered layer both engines put between the caller
    and the wrapped stream.  The records hold the fields of bufio.Reader and
    bufio.Writer; the wrapped stream [rd] / [wr] is the engine's own
    [src] / [dst] object (one shared object in Go), so it is passed in and
    handed back by every method.

    NewReaderSize and NewWriterSize do not always make a new object: when
    the stream they are given is itself a *bufio.Reader / *bufio.Writer
    whose buffer is at least as large as asked for, they return that stream.
    The engine's [buf] is therefore a pointer ([ReaderPtr], [WriterPtr]):
    to a Reader / Writer around the stream, or to the stream itself, and a
    method called through it is then the stream's own method. *)
Module bufio.

Definition minReadBufferSize : N := 16.
Definition defaultBufSize : N := 4096.

(** What asserting the type *Reader of a stream [rd] gives when the stream
    is a *bufio.Reader: [Reader_Size rd] is [len(b.buf)]. *)
Class IsReader (R : Type) : Type := {
  Reader_Size : R -> N
}.

(** The same for a sink [w] and the type *Writer, with the method of
    *bufio.Writer that an engine calls besides Write. *)
Class IsWriter (W : Type) : Type := {
  Writer_Size : W -> N;
  Writer_Flush : W -> option error * W
}.

Record Reader : Type := mkReader {
  r_size : N;              (* len(b.buf) *)
  r_buf : list byte;       (* b.buf[b.r:b.w], the bytes not yet handed out *)
  r_err : option error     (* b.err *)
}.

Inductive ReaderPtr : Type :=
| rd_itself                  (* the stream, which is a *bufio.Reader *)
| Reader_around (b : Reader) (* a Reader of its own around the stream *).

Definition NewReaderSize {R : Type} (is_Reader : option (IsReader R)) (rd : R)
    (size : N) : ReaderPtr :=
  let fresh := Reader_around (mkReader (N.max size minReadBufferSize) [] None) in
  match is_Reader with
  | Some b =>                                 (* Is it already a Reader? *)
      if N.leb size (@Reader_Size R b rd) then rd_itself else fresh
  | None => fresh
  end.

(** [readErr]: hand out the pending error and clear it. *)
Definition readErr (b : Reader) : option error * Reader :=
  (r_err b, mkReader (r_size b) (r_buf b) None).

(** The final [copy(p, b.buf[b.r:b.w])] of Read. *)
Definition copy_out (b : Reader) (k : N) : list byte * Reader :=
  (firstn (N.to_nat k) (r_buf b),
   mkReader (r_size b) (skipn (N.to_nat k) (r_buf b)) (r_err b)).

Definition Read {R : Type} `{io.Reader R} (b : Reader) (rd : R) (k : N)
  : (list byte * option error) * Reader * R * trace :=
  if N.eqb k 0 then
    match r_buf b with
    | _ :: _ => (([], None), b, rd, [])               (* b.Buffered() > 0 *)
    | [] => let '(e, b') := readErr b in (([], e), b', rd, [])
    end
  else
    match r_buf b with
    | [] =>                                            (* b.r == b.w *)
        if negb (is_nil (r_err b)) then
          let '(e, b') := readErr b in (([], e), b', rd, [])
        else if N.leb (r_size b) k then
          (* large read, empty buffer: read directly into p *)
          let '((d, e), rd') := io.Read rd k in
          let '(e', b') := readErr (mkReader (r_size b) [] e) in
          ((d, e'), b', rd', [ev_Read k])
        else
          (* one read into the buffer *)
          let '((d, e), rd') := io.Read rd (r_size b) in
          match d with
          | [] =>
              let '(e', b') := readErr (mkReader (r_size b) [] e) in
              (([], e'), b', rd', [ev_Read (r_size b)])
          | _ :: _ =>
              let '(out, b') := copy_out (mkReader (r_size b) d e) k in
              ((out, None), b', rd', [ev_Read (r_size b)])
          end
    | _ :: _ =>
        let '(out, b') := copy_out b k in
        ((out, None), b', rd, [])
    end.

(** [b.Read(p)] through the engine's pointer. *)
Definition ReadPtr {R : Type} `{io.Reader R} (b : ReaderPtr) (rd : R) (k : N)
  : (list byte * option error) * ReaderPtr * R * trace :=
  match b with
  | rd_itself =>
      let '(r, rd') := io.Read rd k in (r, rd_itself, rd', [ev_Read k])
  | Reader_around b0 =>
      let '(r, b', rd', tr) := Read b0 rd k in (r, Reader_around b', rd', tr)
  end.

Record Writer : Type := mkWriter {
  w_size : N;              (* len(b.buf) *)
  w_buf : list byte;       (* b.buf[:b.n], accepted and not yet flushed *)
  w_err : option error     (* b.err *)
}.

Inductive WriterPtr (W : Type) : Type :=
| wr_itself (b : IsWriter W) (* the stream, which is a *bufio.Writer *)
| Writer_around (b : Writer) (* a Writer of its own around the stream *).
Arguments wr_itself {W}.
Arguments Writer_around {W}.

Definition NewWriterSize {W : Type} (is_Writer : option (IsWriter W)) (w : W)
    (size : N) : WriterPtr W :=
  let fresh :=
    Writer_around
      (mkWriter (if N.eqb size 0 then defaultBufSize else size) [] None) in
  match is_Writer with
  | Some b =>                                 (* Is it already a Writer? *)
      if N.leb size (@Writer_Size W b w) then wr_itself b else fresh
  | None => fresh
  end.

Definition Available (b : Writer) : N :=
  (w_size b - N.of_nat (length (w_buf b)))%N.
Definition Buffered (b : Writer) : nat := length (w_buf b).

Definition Flush {W : Type} `{io.Writer W} (b : Writer) (wr : W)
  : option error * Writer * W * trace :=
  match w_err b with
  | Some e => (Some e, b, wr, [])
  | None =>
      if Nat.eqb (Buffered b) 0 then (None, b, wr, [])
      else
        let '((n, e), wr') := io.Write wr (w_buf b) in
        let err := if Nat.ltb n (Buffered b) && is_nil e
                   then Some io.ErrShortWrite else e in
        match err with
        | Some e' =>
            (Some e', mkWriter (w_size b) (skipn n (w_buf b)) (Some e'),
             wr', [ev_Write (w_buf b)])
        | None =>
            (None, mkWriter (w_size b) [] None, wr', [ev_Write (w_buf b)])
        end
  end.

(** [copy(b.buf[b.n:], p)] moves as much of [p] as there is room for. *)
Definition copy_count (b : Writer) (p : list byte) : nat :=
  N.to_nat (N.min (Available b) (N.of_nat (length p))).

(** The loop [for len(p) > b.Available() && b.err == nil] of Write, at most
    [fuel] rounds; it carries the rest of [p] and the count [nn]. *)
Fixpoint Write_loop {W : Type} `{io.Writer W} (fuel : nat)
    (b : Writer) (wr : W) (p : list byte) (nn : nat) (tr : trace)
  : Writer * W * list byte * nat * trace :=
  match fuel with
  | O => (b, wr, p, nn, tr)
  | S fuel' =>
      if N.ltb (Available b) (N.of_nat (length p)) && is_nil (w_err b) then
        if Nat.eqb (Buffered b) 0 then
          (* large write, empty buffer: write directly from p *)
          let '((n, e), wr') := io.Write wr p in
          Write_loop fuel' (mkWriter (w_size b) (w_buf b) e) wr'
                     (skipn n p) (nn + n) (tr ++ [ev_Write p])
        else
          let n := copy_count b p in
          let b1 := mkWriter (w_size b) (w_buf b ++ firstn n p) (w_err b) in
          let '(_, b2, wr', tr') := Flush b1 wr in
          Write_loop fuel' b2 wr' (skipn n p) (nn + n) (tr ++ tr')
      else (b, wr, p, nn, tr)
  end.

(** Write.  Two rounds of the loop are all a contract-abiding sink allows
    (lemma [bufio_Write_loop_fuel] below): a round that fills and flushes the
    buffer, then a direct write of what is left. *)
Definition Write {W : Type} `{io.Writer W} (b : Writer) (wr : W)
    (p : list byte) : (nat * option error) * Writer * W * trace :=
  let '(b', wr', p', nn, tr) := Write_loop 2 b wr p 0 [] in
  match w_err b' with
  | Some e => ((nn, Some e), b', wr', tr)
  | None =>
      let n := copy_count b' p' in
      ((nn + n, None),
       mkWriter (w_size b') (w_buf b' ++ firstn n p') None, wr', tr)
  end.

(** [b.Write(p)] and [b.Flush()] through the engine's pointer. *)
Definition WritePtr {W : Type} `{io.Writer W} (b : WriterPtr W) (wr : W)
    (p : list byte) : (nat * option error) * WriterPtr W * W * trace :=
  match b with
  | wr_itself m =>
      let '(r, wr') := io.Write wr p in (r, wr_itself m, wr', [ev_Write p])
  | Writer_around b0 =>
      let '(r, b', wr', tr) := Write b0 wr p in (r, Writer_around b', wr', tr)
  end.

Definition FlushPtr {W : Type} `{io.Writer W} (b : WriterPtr W) (wr : W)
  : option error * WriterPtr W * W * trace :=
  match b with
  | wr_itself m =>
      let '(e, wr') := @Writer_Flush W m wr in (e, wr_itself m, wr', [ev_Flush])
  | Writer_around b0 =>
      let '(e, b', wr', tr) := Flush b0 wr in (e, Writer_around b', wr', tr)
  end.

End bufio.

(** What the package and bufio can find out about the dynamic type of a
    stream they are handed: the interface it was passed as, and whether the
    type assertions [r.(io.ReaderAt)], [w.(io.WriterAt)], [w.(io.Closer)]
    and those of bufio to *bufio.Reader and *bufio.Writer succeed. *)
Class ReaderType (R : Type) : Type := {
  rt_Reader :: io.Reader R;
  rt_ReaderAt : option (io.ReaderAt R);
  rt_bufioReader : option (bufio.IsReader R)
}.

Class WriterType (W : Type) : Type := {
  wt_Writer :: io.Writer W;
  wt_WriterAt : option (io.WriterAt W);
  wt_Closer : option (io.Closer W);
  wt_bufioWriter : option (bufio.IsWriter W)
}.

(** Results: [out[cb.Name()] = cb.Result()] for each callback in order. *)
Definition results_of (cbs : list ReadCallback) : gmap string any :=
  foldl (fun out cb => <[cb_Name cb := cb_Result cb]> out) ∅ cbs.

(** ** The read engine: BufferedReader *)

(** [br_src] is the wrapped object; [br_srcAt] is nil or the same object
    seen as an io.ReaderAt, so ReadAt acts on [br_src]; [br_buf] reads from
    [br_src] as well, or is [br_src]. *)
Record BufferedReader (R : Type) : Type := mkBufferedReader {
  br_src : R;
  br_srcAt : option (io.ReaderAt R);
  br_buf : bufio.ReaderPtr;
  br_callbacks : list ReadCallback;
  br_err : option error   (* first callback error (sticky) *)
}.
Arguments mkBufferedReader {R}.
Arguments br_src {R}.
Arguments br_srcAt {R}.
Arguments br_buf {R}.
Arguments br_callbacks {R}.
Arguments br_err {R}.

Definition NewReader {R : Type} `{ReaderType R} (r : R)
    (cbs : list ReadCallback) : BufferedReader R :=
  mkBufferedReader r rt_ReaderAt
                   (bufio.NewReaderSize rt_bufioReader r (32 * 1024)%N) cbs None.

(** The common tail of Read and ReadAt: [n, err] came back from the stream,
    [d] is [p[:n]]; dispatch it if there is something to dispatch. *)
Definition br_deliver {R : Type} (br : BufferedReader R)
    (d : list byte) (e : option error) (tr : trace)
  : (list byte * option error) * BufferedReader R * trace :=
  if Nat.ltb 0 (length d) && Nat.ltb 0 (length (br_callbacks br)) then
    let '(cbErr, cbs', tr') := dispatch (br_callbacks br) d in
    match cbErr with
    | Some ce =>
        ((d, Some ce),
         mkBufferedReader (br_src br) (br_srcAt br) (br_buf br) cbs' (Some ce),
         tr ++ tr')
    | None =>
        ((d, e),
         mkBufferedReader (br_src br) (br_srcAt br) (br_buf br) cbs' (br_err br),
         tr ++ tr')
    end
  else ((d, e), br, tr).

(** Read.  The result is [(p[:n], err)]; the count [n] is the length. *)
Definition BufferedReader_Read {R : Type} `{io.Reader R}
    (br : BufferedReader R) (len_p : N)
  : (list byte * option error) * BufferedReader R * trace :=
  match br_err br with
  | Some e => (([], Some e), br, [])
  | None =>
      let '((d, e), b', src', tr) :=
        bufio.ReadPtr (br_buf br) (br_src br) len_p in
      br_deliver
        (mkBufferedReader src' (br_srcAt br) b' (br_callbacks br) (br_err br))
        d e tr
  end.

Definition BufferedReader_ReadAt {R : Type}
    (br : BufferedReader R) (len_p : N) (off : Z)
  : (list byte * option error) * BufferedReader R * trace :=
  match br_srcAt br with
  | None => (([], Some (errors.New "ReadAt not supported")), br, [])
  | Some srcAt =>
      match br_err br with
      | Some e => (([], Some e), br, [])
      | None =>
          let '((d, e), src') := @io.ReadAt R srcAt (br_src br) len_p off in
          br_deliver
            (mkBufferedReader src' (br_srcAt br) (br_buf br)
                              (br_callbacks br) (br_err br))
            d e [ev_ReadAt len_p off]
      end
  end.

Definition BufferedReader_Results {R : Type} (br : BufferedReader R)
  : gmap string any :=
  results_of (br_callbacks br).

Definition BufferedReader_dispatch {R : Type} (br : BufferedReader R)
    (chunk : list byte) : option error * BufferedReader R * trace :=
  let '(e, cbs', tr) := dispatch (br_callbacks br) chunk in
  (e, mkBufferedReader (br_src br) (br_srcAt br) (br_buf br) cbs' (br_err br),
   tr).

(** ** The write engine: BufferedWriter *)

Record BufferedWriter (W : Type) : Type := mkBufferedWriter {
  bw_dst : W;
  bw_dstAt : option (io.WriterAt W);
  bw_buf : bufio.WriterPtr W;
  bw_callbacks : list WriteCallback;
  bw_err : option error;
  bw_closed : bool
}.
Arguments mkBufferedWriter {W}.
Arguments bw_dst {W}.
Arguments bw_dstAt {W}.
Arguments bw_buf {W}.
Arguments bw_callbacks {W}.
Arguments bw_err {W}.
Arguments bw_closed {W}.

Definition NewWriter {W : Type} `{WriterType W} (w : W)
    (cbs : list WriteCallback) : BufferedWriter W :=
  mkBufferedWriter w wt_WriterAt
                   (bufio.NewWriterSize wt_bufioWriter w (32 * 1024)%N) cbs None
                   false.

(** The common tail of Write and WriteAt: [n, err] came back, dispatch
    [p[:n]] if there is something to dispatch. *)
Definition bw_deliver {W : Type} (bw : BufferedWriter W)
    (p : list byte) (n : nat) (e : option error) (tr : trace)
  : (nat * option error) * BufferedWriter W * trace :=
  if Nat.ltb 0 n && Nat.ltb 0 (length (bw_callbacks bw)) then
    let '(cbErr, cbs', tr') := dispatch (bw_callbacks bw) (firstn n p) in
    match cbErr with
    | Some ce =>
        ((n, Some ce),
         mkBufferedWriter (bw_dst bw) (bw_dstAt bw) (bw_buf bw) cbs' (Some ce)
                          (bw_closed bw),
         tr ++ tr')
    | None =>
        ((n, e),
         mkBufferedWriter (bw_dst bw) (bw_dstAt bw) (bw_buf bw) cbs'
                          (bw_err bw) (bw_closed bw),
         tr ++ tr')
    end
  else ((n, e), bw, tr).

Definition BufferedWriter_Write {W : Type} `{io.Writer W}
    (bw : BufferedWriter W) (p : list byte)
  : (nat * option error) * BufferedWriter W * trace :=
  match bw_err bw with
  | Some e => ((0, Some e), bw, [])
  | None =>
      let '((n, e), b', dst', tr) :=
        bufio.WritePtr (bw_buf bw) (bw_dst bw) p in
      bw_deliver
        (mkBufferedWriter dst' (bw_dstAt bw) b' (bw_callbacks bw) (bw_err bw)
                          (bw_closed bw))
        p n e tr
  end.

Definition BufferedWriter_Flush {W : Type} `{io.Writer W}
    (bw : BufferedWriter W) : option error * BufferedWriter W * trace :=
  match bw_err bw with
  | Some e => (Some e, bw, [])
  | None =>
      let '(e, b', dst', tr) := bufio.FlushPtr (bw_buf bw) (bw_dst bw) in
      let err' := match e with Some _ => e | None => bw_err bw end in
      (err',
       mkBufferedWriter dst' (bw_dstAt bw) b' (bw_callbacks bw) err'
                        (bw_closed bw),
       tr)
  end.

Definition BufferedWriter_WriteAt {W : Type}
    (bw : BufferedWriter W) (p : list byte) (off : Z)
  : (nat * option error) * BufferedWriter W * trace :=
  match bw_dstAt bw with
  | None => ((0, Some (errors.New "WriteAt not supported")), bw, [])
  | Some dstAt =>
      match bw_err bw with
      | Some e => ((0, Some e), bw, [])
      | None =>
          let '((n, e), dst') := @io.WriteAt W dstAt (bw_dst bw) p off in
          bw_deliver
            (mkBufferedWriter dst' (bw_dstAt bw) (bw_buf bw) (bw_callbacks bw)
                              (bw_err bw) (bw_closed bw))
            p n e [ev_WriteAt p off]
      end
  end.

Definition BufferedWriter_Results {W : Type} (bw : BufferedWriter W)
  : gmap string any :=
  results_of (bw_callbacks bw).

Definition BufferedWriter_dispatch {W : Type} (bw : BufferedWriter W)
    (chunk : list byte) : option error * BufferedWriter W * trace :=
  let '(e, cbs', tr) := dispatch (bw_callbacks bw) chunk in
  (e,
   mkBufferedWriter (bw_dst bw) (bw_dstAt bw) (bw_buf bw) cbs' (bw_err bw)
                    (bw_closed bw),
   tr).

(** Close.  [closed.CompareAndSwap(false, true)] fails exactly when the flag
    is already set; otherwise it sets it. *)
Definition BufferedWriter_Close {W : Type} `{WriterType W}
    (bw : BufferedWriter W) : option error * BufferedWriter W * trace :=
  if bw_closed bw then (None, bw, [])
  else
    let bw1 := mkBufferedWriter (bw_dst bw) (bw_dstAt bw) (bw_buf bw)
                                (bw_callbacks bw) (bw_err bw) true in
    let '(e, bw2, tr) := BufferedWriter_Flush bw1 in
    match e with
    | Some _ => (e, bw2, tr)
    | None =>
        match wt_Closer with
        | Some closer =>
            let '(ce, dst') := @io.Close W closer (bw_dst bw2) in
            (ce,
             mkBufferedWriter dst' (bw_dstAt bw2) (bw_buf bw2)
                              (bw_callbacks bw2) (bw_err bw2) (bw_closed bw2),
             tr ++ [ev_Close])
        | None => (None, bw2, tr)
        end
    end.

(** ** streamutil.go: the facade and the tee mirror *)

(** The [io.Reader] handed back by Reader and TeeReader: by dynamic type it
    is either the very object that was passed in or a *BufferedReader. *)
Inductive ReaderValue (R : Type) : Type :=
| original_reader (r : R)
| buffered_reader (br : BufferedReader R).
Arguments original_reader {R}.
Arguments buffered_reader {R}.

Inductive WriterValue (W : Type) : Type :=
| original_writer (w : W)
| buffered_writer (bw : BufferedWriter W).
Arguments original_writer {W}.
Arguments buffered_writer {W}.

Definition Reader {R : Type} `{ReaderType R} (r : R)
    (callbacks : list ReadCallback) : ReaderValue R :=
  if Nat.eqb (length callbacks) 0 then original_reader r
  else buffered_reader (NewReader r callbacks).

Definition Writer {W : Type} `{WriterType W} (w : W)
    (callbacks : list WriteCallback) : WriterValue W :=
  if Nat.eqb (length callbacks) 0 then original_writer w
  else buffered_writer (NewWriter w callbacks).

Record teeWriterCallback (W : Type) : Type := mkTee {
  tee_w : W;
  tee_errPtr : option error
}.
Arguments mkTee {W}.
Arguments tee_w {W}.
Arguments tee_errPtr {W}.

(** [errPtr.CompareAndSwap(nil, &err)] *)
Definition CompareAndSwap_nil (ptr : option error) (e : error) : option error :=
  match ptr with
  | None => Some e
  | Some _ => ptr
  end.

Definition teeWriterCallback_OnData {W : Type} `{io.Writer W}
    (t : teeWriterCallback W) (chunk : list byte)
  : outcome * teeWriterCallback W :=
  match tee_errPtr t with
  | Some e => (Return (Some e), t)
  | None =>
      let '((_, e), w') := io.Write (tee_w t) chunk in
      match e with
      | Some e' =>
          (Return (Some e'), mkTee w' (CompareAndSwap_nil (tee_errPtr t) e'))
      | None => (Return None, mkTee w' (tee_errPtr t))
      end
  end.

#[export] Instance teeWriterCallback_methods {W : Type} `{io.Writer W}
  : Callback (teeWriterCallback W) := {
  Name _ := "_tee_writer";
  OnData := teeWriterCallback_OnData;
  Result _ := any_nil
}.

Definition TeeReader {R W : Type} `{ReaderType R} `{io.Writer W}
    (r : R) (w : W) (callbacks : list ReadCallback) : ReaderValue R :=
  let teeCallback := mkTee w None in
  let allCallbacks := as_callback teeCallback :: callbacks in
  Reader r allCallbacks.

(** ** The stock observers: HashCallback and SizeCallback *)

(** hash.Hash as the package uses it: Write appends to what was written and
    never fails, [Sum(nil)] is the digest of everything written so far. *)
Module hash.
Record Hash : Type := mkHash {
  digest : list byte -> list byte;
  written : list byte
}.
Definition Write (h : Hash) (p : list byte) : Hash :=
  mkHash (digest h) (written h ++ p).
Definition Sum (h : Hash) : list byte := digest h (written h).
End hash.

(** The four digest functions of crypto/md5, crypto/sha1, crypto/sha256 and
    crypto/sha512 are taken as given. *)
Class Crypto : Type := {
  md5_Sum : list byte -> list byte;
  sha1_Sum : list byte -> list byte;
  sha256_Sum : list byte -> list byte;
  sha512_Sum : list byte -> list byte
}.

Record HashCallback : Type := mkHashCallback {
  hc_name : string;
  hc_h : hash.Hash
}.

Definition NewHashCallback `{Crypto} (algorithm : string) : HashCallback :=
  let '(h, algorithm) :=
    if String.eqb algorithm "md5" then (hash.mkHash md5_Sum [], algorithm)
    else if String.eqb algorithm "sha1" then (hash.mkHash sha1_Sum [], algorithm)
    else if String.eqb algorithm "sha256" then
      (hash.mkHash sha256_Sum [], algorithm)
    else if String.eqb algorithm "sha512" then
      (hash.mkHash sha512_Sum [], algorithm)
    else
      (* Default to sha256 if unknown *)
      (hash.mkHash sha256_Sum [], "sha256") in
  mkHashCallback algorithm h.

#[export] Instance HashCallback_methods : Callback HashCallback := {
  Name hc := hc_name hc;
  OnData hc chunk :=
    (Return None, mkHashCallback (hc_name hc) (hash.Write (hc_h hc) chunk));
  Result hc := any_bytes (hash.Sum (hc_h hc))
}.

(** int64 arithmetic of [atomic.AddInt64]. *)
Definition wrap_int64 (z : Z) : Z :=
  ((z + 2 ^ 63) mod 2 ^ 64 - 2 ^ 63)%Z.

Record SizeCallback : Type := mkSizeCallback {
  sc_size : Z
}.

Definition NewSizeCallback : SizeCallback := mkSizeCallback 0.

#[export] Instance SizeCallback_methods : Callback SizeCallback := {
  Name _ := "size";
  OnData sc chunk :=
    (Return None,
     mkSizeCallback (wrap_int64 (sc_size sc + Z.of_nat (length chunk))));
  Result sc := any_int (sc_size sc)
}.

(** ** The mock streams and observers of the tests *)

Record mockReader : Type := mkMockReader {
  mr_data : list byte;
  mr_err : option error
}.

Definition mockReader_Read (m : mockReader) (len_p : N)
  : (list byte * option error) * mockReader :=
  match mr_err m with
  | Some e => (([], Some e), m)
  | None =>
      match mr_data m with
      | [] => (([], Some io.EOF), m)
      | _ :: _ =>
          ((firstn (N.to_nat len_p) (mr_data m), None),
           mkMockReader (skipn (N.to_nat len_p) (mr_data m)) (mr_err m))
      end
  end.

#[export] Instance mockReader_Reader : io.Reader mockReader := {
  io.Read := mockReader_Read
}.

(** The type *mockReader has no ReadAt method. *)
#[export] Instance mockReader_type : ReaderType mockReader := {
  rt_Reader := mockReader_Reader;
  rt_ReaderAt := None;
  rt_bufioReader := None
}.

(** mockReaderAt of reader_test.go, a source with ReadAt.  (The tests call
    it with offsets from 0 on; a negative offset is read as 0 here.) *)
Record mockReaderAt : Type := mkMockReaderAt {
  mra_data : list byte;
  mra_err : option error
}.

Definition mockReaderAt_Read (m : mockReaderAt) (len_p : N)
  : (list byte * option error) * mockReaderAt :=
  match mra_err m with
  | Some e => (([], Some e), m)
  | None =>
      match mra_data m with
      | [] => (([], Some io.EOF), m)
      | _ :: _ =>
          ((firstn (N.to_nat len_p) (mra_data m), None),
           mkMockReaderAt (skipn (N.to_nat len_p) (mra_data m)) (mra_err m))
      end
  end.

Definition mockReaderAt_ReadAt (m : mockReaderAt) (len_p : N) (off : Z)
  : (list byte * option error) * mockReaderAt :=
  match mra_err m with
  | Some e => (([], Some e), m)
  | None =>
      if Z.leb (Z.of_nat (length (mra_data m))) off then (([], Some io.EOF), m)
      else
        let d := firstn (N.to_nat len_p) (skipn (Z.to_nat off) (mra_data m)) in
        ((d, if N.ltb (N.of_nat (length d)) len_p then Some io.EOF else None),
         m)
  end.

#[export] Instance mockReaderAt_Reader : io.Reader mockReaderAt := {
  io.Read := mockReaderAt_Read
}.

#[export] Instance mockReaderAt_ReaderAt : io.ReaderAt mockReaderAt := {
  io.ReadAt := mockReaderAt_ReadAt
}.

#[export] Instance mockReaderAt_type : ReaderType mockReaderAt := {
  rt_Reader := mockReaderAt_Reader;
  rt_ReaderAt := Some mockReaderAt_ReaderAt;
  rt_bufioReader := None
}.

Record testCallback : Type := mkTestCallback {
  tc_name : string;
  tc_chunks : list (list byte);
  tc_err : option error;
  tc_result : any;
  tc_panicMsg : string
}.

#[export] Instance testCallback_methods : Callback testCallback := {
  Name tc := tc_name tc;
  OnData tc chunk :=
    if negb (String.eqb (tc_panicMsg tc) "") then
      (Panic (panic_string (tc_panicMsg tc)), tc)
    else
      match tc_err tc with
      | Some e => (Return (Some e), tc)
      | None =>
          (Return None,
           mkTestCallback (tc_name tc) (tc_chunks tc ++ [chunk]) (tc_err tc)
                          (tc_result tc) (tc_panicMsg tc))
      end;
  Result tc :=
    match tc_result tc with
    | any_nil => any_int (Z.of_nat (length (tc_chunks tc)))
    | r => r
    end
}.

(** errorWriter of reader_test.go: every Write fails with its error (the
    tests always give it one). *)
Record errorWriter : Type := mkErrorWriter {
  ew_err : error
}.

#[export, program] Instance errorWriter_Writer : io.Writer errorWriter := {
  io.Write e _ := ((0, Some (ew_err e)), e)
}.
Next Obligation.
  intros w p n e w' Heq. inversion Heq; subst. split; [lia | congruence].
Qed.

(** mockWriter and mockCloser of the writer tests.  mockCloser embeds
    mockWriter, so Write and WriteAt are promoted to it. *)
Record mockWriter : Type := mkMockWriter {
  mw_buf : list byte;
  mw_err : option error;
  mw_atErr : option error;
  mw_writeAtData : gmap Z (list byte)
}.

Definition mockWriter_Write (m : mockWriter) (p : list byte)
  : (nat * option error) * mockWriter :=
  match mw_err m with
  | Some e => ((0, Some e), m)
  | None =>
      ((length p, None),
       mkMockWriter (mw_buf m ++ p) (mw_err m) (mw_atErr m) (mw_writeAtData m))
  end.

Definition mockWriter_WriteAt (m : mockWriter) (p : list byte) (off : Z)
  : (nat * option error) * mockWriter :=
  match mw_atErr m with
  | Some e => ((0, Some e), m)
  | None =>
      ((length p, None),
       mkMockWriter (mw_buf m) (mw_err m) (mw_atErr m)
                    (<[off := p]> (mw_writeAtData m)))
  end.

#[export, program] Instance mockWriter_Writer : io.Writer mockWriter := {
  io.Write := mockWriter_Write
}.
Next Obligation.
  intros w p n e w' Heq. unfold mockWriter_Write in Heq.
  destruct (mw_err w); inversion Heq; subst; split; try lia; congruence.
Qed.

#[export] Instance mockWriter_WriterAt : io.WriterAt mockWriter := {
  io.WriteAt := mockWriter_WriteAt
}.

#[export] Instance mockWriter_type : WriterType mockWriter := {
  wt_Writer := mockWriter_Writer;
  wt_WriterAt := Some mockWriter_WriterAt;
  wt_Closer := None;
  wt_bufioWriter := None
}.

Record mockCloser : Type := mkMockCloser {
  mc_mockWriter : mockWriter;
  mc_closed : bool;
  mc_closeErr : option error
}.

Definition mockCloser_Write (m : mockCloser) (p : list byte)
  : (nat * option error) * mockCloser :=
  let '(r, w') := mockWriter_Write (mc_mockWriter m) p in
  (r, mkMockCloser w' (mc_closed m) (mc_closeErr m)).

Definition mockCloser_WriteAt (m : mockCloser) (p : list byte) (off : Z)
  : (nat * option error) * mockCloser :=
  let '(r, w') := mockWriter_WriteAt (mc_mockWriter m) p off in
  (r, mkMockCloser w' (mc_closed m) (mc_closeErr m)).

#[export, program] Instance mockCloser_Writer : io.Writer mockCloser := {
  io.Write := mockCloser_Write
}.
Next Obligation.
  intros w p n e w' Heq. unfold mockCloser_Write, mockWriter_Write in Heq.
  destruct (mw_err (mc_mockWriter w)); inversion Heq; subst; split;
    try lia; congruence.
Qed.

#[export] Instance mockCloser_WriterAt : io.WriterAt mockCloser := {
  io.WriteAt := mockCloser_WriteAt
}.

#[export] Instance mockCloser_Closer : io.Closer mockCloser := {
  io.Close m := (mc_closeErr m, mkMockCloser (mc_mockWriter m) true (mc_closeErr m))
}.

#[export] Instance mockCloser_type : WriterType mockCloser := {
  wt_Writer := mockCloser_Writer;
  wt_WriterAt := Some mockCloser_WriterAt;
  wt_Closer := Some mockCloser_Closer;
  wt_bufioWriter := None
}.

#[export] Instance errorWriter_type : WriterType errorWriter := {
  wt_Writer := errorWriter_Writer;
  wt_WriterAt := None;
  wt_Closer := None;
  wt_bufioWriter := None
}.

(** Streams that are bufio objects themselves: [bufio.NewReaderSize(rd, n)]
    and [bufio.NewWriterSize(errorWriter, n)] handed to an engine as its
    source or sink.  Their Read, Write and Flush are those of bufio; the
    calls they make on the stream below them are their own business and are
    not recorded in an engine's trace. *)
Record bufioReader (R : Type) : Type := mkBufioReader {
  bor_b : bufio.Reader;
  bor_rd : R
}.
Arguments mkBufioReader {R}.
Arguments bor_b {R}.
Arguments bor_rd {R}.

#[export] Instance bufioReader_Reader {R : Type} `{io.Reader R}
  : io.Reader (bufioReader R) := {
  io.Read x k :=
    let '(r, b', rd', _) := bufio.Read (bor_b x) (bor_rd x) k in
    (r, mkBufioReader b' rd')
}.

#[export] Instance bufioReader_type {R : Type} `{io.Reader R}
  : ReaderType (bufioReader R) := {
  rt_Reader := bufioReader_Reader;
  rt_ReaderAt := None;
  rt_bufioReader := Some {| bufio.Reader_Size x := bufio.r_size (bor_b x) |}
}.

Record bufioWriter : Type := mkBufioWriter {
  bow_b : bufio.Writer;
  bow_wr : errorWriter
}.

#[export, program] Instance bufioWriter_Writer : io.Writer bufioWriter := {
  io.Write x p :=
    let '(r, b', wr', _) := bufio.Write (bow_b x) (bow_wr x) p in
    (r, mkBufioWriter b' wr')
}.
Next Obligation.
  intros [b wr] p n e w' Heq. cbn [bow_b bow_wr] in Heq.
  unfold bufio.Write in Heq. cbn [bufio.Write_loop] in Heq.
  assert (Hc : bufio.copy_count b p <= length p)
    by (unfold bufio.copy_count; lia).
  destruct (N.ltb (bufio.Available b) (N.of_nat (length p))
            && is_nil (bufio.w_err b)) eqn:Hcond.
  - apply andb_prop in Hcond as [_ Hnil].
    destruct (bufio.w_err b) eqn:Herr; [discriminate Hnil|].
    destruct (Nat.eqb (bufio.Buffered b) 0) eqn:Hz.
    + cbn in Heq. rewrite andb_false_r in Heq. cbn in Heq.
      inversion Heq; subst. split; [lia | discriminate].
    + apply Nat.eqb_neq in Hz. unfold bufio.Flush in Heq.
      cbn [bufio.w_err bufio.w_buf bufio.w_size] in Heq.
      unfold bufio.Buffered in Heq, Hz.
      cbn [bufio.w_err bufio.w_buf bufio.w_size] in Heq.
      destruct (Nat.eqb (length (bufio.w_buf b
                   ++ firstn (bufio.copy_count b p) p)) 0) eqn:Hz';
        [apply Nat.eqb_eq in Hz'; rewrite length_app in Hz'; lia|].
      cbn in Heq. rewrite !andb_false_r in Heq. cbn in Heq.
      inversion Heq; subst. split; [lia | discriminate].
  - destruct (bufio.w_err b) eqn:Herr.
    + inversion Heq; subst. split; [lia | discriminate].
    + rewrite andb_true_r in Hcond. apply N.ltb_ge in Hcond.
      assert (bufio.copy_count b p = length p)
        by (unfold bufio.copy_count; lia).
      inversion Heq; subst. split; lia.
Qed.

#[export] Instance bufioWriter_type : WriterType bufioWriter := {
  wt_Writer := bufioWriter_Writer;
  wt_WriterAt := None;
  wt_Closer := None;
  wt_bufioWriter :=
    Some {| bufio.Writer_Size x := bufio.w_size (bow_b x);
            bufio.Writer_Flush x :=
              let '(e, b', wr', _) := bufio.Flush (bow_b x) (bow_wr x) in
              (e, mkBufioWriter b' wr') |}
}.


(** ** Vocabulary of the statements *)

(** The observer calls in a trace: which callback, with which chunk. *)
Fixpoint observer_calls (tr : trace) : list (nat * list byte) :=
  match tr with
  | [] => []
  | ev_OnData i chunk :: tr' => (i, chunk) :: observer_calls tr'
  | _ :: tr' => observer_calls tr'
  end.

(** The calls that reach the wrapped stream. *)
Fixpoint stream_calls (tr : trace) : trace :=
  match tr with
  | [] => []
  | ev_OnData _ _ :: tr' => stream_calls tr'
  | ev :: tr' => ev :: stream_calls tr'
  end.

(** Does this observer, as it stands, accept the chunk (OnData returns nil)? *)
Definition cb_accepts (cb : ReadCallback) (chunk : list byte) : bool :=
  match fst (cb_OnData cb chunk) with
  | Return None => true
  | _ => false
  end.

(** Position of the first registered observer that does not accept. *)
Fixpoint first_failing (cbs : list ReadCallback) (chunk : list byte)
  : option nat :=
  match cbs with
  | [] => None
  | cb :: rest =>
      if cb_accepts cb chunk then option_map S (first_failing rest chunk)
      else Some 0
  end.

(** How many observers a dispatch is expected to call: all of them, or those
    up to and including the first that fails. *)
Definition calls_made (cbs : list ReadCallback) (chunk : list byte) : nat :=
  match first_failing cbs chunk with
  | Some j => S j
  | None => length cbs
  end.

(** The calls one chunk is expected to cause: callbacks 0, 1, ... in
    registration order, each once, each with the same chunk. *)
Definition calls_in_order (n : nat) (chunk : list byte)
  : list (nat * list byte) :=
  map (fun i => (i, chunk)) (seq 0 n).

(** The observers after one dispatch of [chunk]: those that were called
    have each been handed the chunk once, the others are as they were. *)
Definition fed_once (cbs : list ReadCallback) (chunk : list byte)
  : list ReadCallback :=
  map (fun cb => snd (cb_OnData cb chunk)) (firstn (calls_made cbs chunk) cbs)
  ++ skipn (calls_made cbs chunk) cbs.

(** The message the panic marker is followed by. *)
Definition panic_message (v : panic_value) : string :=
  match v with
  | panic_error e => errors.Error e
  | panic_string s => s
  | panic_other _ => "unknown panic"
  end.

(** The error, if any, that dispatching [chunk] = [p[:n]] produces; nothing
    is dispatched when [n] is 0. *)
Definition dispatch_error (cbs : list ReadCallback) (chunk : list byte)
    (n : nat) : option error :=
  match n with
  | O => None
  | S _ => fst (fst (dispatch cbs chunk))
  end.

(** The engine with its closed flag set. *)
Definition mark_closed {W : Type} (bw : BufferedWriter W) : BufferedWriter W :=
  mkBufferedWriter (bw_dst bw) (bw_dstAt bw) (bw_buf bw) (bw_callbacks bw)
                   (bw_err bw) true.

(** Operations on an engine, to speak about sequences of calls. *)
Inductive reader_op : Type :=
| op_Read (len_p : N)
| op_ReadAt (len_p : N) (off : Z).

Definition run_reader_op {R : Type} `{io.Reader R} (br : BufferedReader R)
    (op : reader_op)
  : (list byte * option error) * BufferedReader R * trace :=
  match op with
  | op_Read len_p => BufferedReader_Read br len_p
  | op_ReadAt len_p off => BufferedReader_ReadAt br len_p off
  end.

Fixpoint run_reader_ops {R : Type} `{io.Reader R} (br : BufferedReader R)
    (ops : list reader_op)
  : list (list byte * option error) * BufferedReader R * trace :=
  match ops with
  | [] => ([], br, [])
  | op :: ops' =>
      let '(r, br1, tr1) := run_reader_op br op in
      let '(rs, br2, tr2) := run_reader_ops br1 ops' in
      (r :: rs, br2, tr1 ++ tr2)
  end.

Inductive writer_op : Type :=
| op_Write (p : list byte)
| op_WriteAt (p : list byte) (off : Z)
| op_Flush
| op_Close.

(** Flush and Close return only an error; their count is reported as 0. *)
Definition run_writer_op {W : Type} `{WriterType W} (bw : BufferedWriter W)
    (op : writer_op)
  : (nat * option error) * BufferedWriter W * trace :=
  match op with
  | op_Write p => BufferedWriter_Write bw p
  | op_WriteAt p off => BufferedWriter_WriteAt bw p off
  | op_Flush =>
      let '(e, bw', tr) := BufferedWriter_Flush bw in ((0, e), bw', tr)
  | op_Close =>
      let '(e, bw', tr) := BufferedWriter_Close bw in ((0, e), bw', tr)
  end.

Fixpoint run_writer_ops {W : Type} `{WriterType W} (bw : BufferedWriter W)
    (ops : list writer_op)
  : list (nat * option error) * BufferedWriter W * trace :=
  match ops with
  | [] => ([], bw, [])
  | op :: ops' =>
      let '(r, bw1, tr1) := run_writer_op bw op in
      let '(rs, bw2, tr2) := run_writer_ops bw1 ops' in
      (r :: rs, bw2, tr1 ++ tr2)
  end.

(** What a call returns on an engine whose sticky slot holds [e]. *)
Definition sticky_reader_result {R : Type} (br : BufferedReader R) (e : error)
    (op : reader_op) : list byte * option error :=
  match op, br_srcAt br with
  | op_ReadAt _ _, None => ([], Some (errors.New "ReadAt not supported"))
  | _, _ => ([], Some e)
  end.

Definition sticky_writer_result {W : Type} (bw : BufferedWriter W) (e : error)
    (op : writer_op) : nat * option error :=
  match op with
  | op_WriteAt _ _ =>
      match bw_dstAt bw with
      | None => (0, Some (errors.New "WriteAt not supported"))
      | Some _ => (0, Some e)
      end
  | op_Close => if bw_closed bw then (0, None) else (0, Some e)
  | _ => (0, Some e)
  end.

Definition is_Close (op : writer_op) : bool :=
  match op with op_Close => true | _ => false end.

(** The results of a sequence of calls on a write engine whose sticky slot
    holds [e], and the engine they leave: only Close changes it, by setting
    the closed flag. *)
Fixpoint sticky_writer_results {W : Type} (bw : BufferedWriter W) (e : error)
    (ops : list writer_op) : list (nat * option error) :=
  match ops with
  | [] => []
  | op :: ops' =>
      sticky_writer_result bw e op
      :: sticky_writer_results (if is_Close op then mark_closed bw else bw) e ops'
  end.

Fixpoint after_closes {W : Type} (bw : BufferedWriter W)
    (ops : list writer_op) : BufferedWriter W :=
  match ops with
  | [] => bw
  | op :: ops' => after_closes (if is_Close op then mark_closed bw else bw) ops'
  end.

(** Feed an observer a sequence of chunks; the outcomes and the observer
    afterwards. *)
Fixpoint observe {T : Type} `{Callback T} (t : T) (chunks : list (list byte))
  : list outcome * T :=
  match chunks with
  | [] => ([], t)
  | c :: rest =>
      let '(o, t') := OnData t c in
      let '(os, t'') := observe t' rest in
      (o :: os, t'')
  end.

(** The last registered observer with a given name. *)
Fixpoint last_named (k : string) (cbs : list ReadCallback)
  : option ReadCallback :=
  match cbs with
  | [] => None
  | cb :: rest =>
      match last_named k rest with
      | Some c => Some c
      | None => if String.eqb (cb_Name cb) k then Some cb else None
      end
  end.

(** ** Concrete engines, streams and observers used in the examples *)

Definition bytes_of (s : string) : list byte := list_byte_of_string s.

Definition recorder (name : string) : ReadCallback :=
  as_callback (mkTestCallback name [] None any_nil "").

Definition failing (name : string) (msg : string) : ReadCallback :=
  as_callback (mkTestCallback name [] (Some (errors.New msg)) any_nil "").

Definition panicking (name : string) (msg : string) : ReadCallback :=
  as_callback (mkTestCallback name [] None any_nil msg).

(** A read engine over the 11 bytes "hello world" with one recording
    observer; the source has no ReadAt. *)
Definition hello_reader : BufferedReader mockReader :=
  NewReader (mkMockReader (bytes_of "hello world") None) [recorder "test"].

(** A read engine over a source whose every Read fails, no observers. *)
Definition broken_source_reader : BufferedReader mockReader :=
  NewReader (mkMockReader [] (Some (errors.New "read error"))) [].

(** A source that hands out its last bytes together with its final error in
    one Read, as the io.Reader contract allows (testing/iotest's
    DataErrReader behaves like this). *)
Record dataErrReader : Type := mkDataErrReader {
  de_data : list byte;
  de_err : error
}.

#[export] Instance dataErrReader_Reader : io.Reader dataErrReader := {
  io.Read m len_p :=
    ((firstn (N.to_nat len_p) (de_data m),
      if Nat.leb (length (de_data m)) (N.to_nat len_p) then Some (de_err m)
      else None),
     mkDataErrReader (skipn (N.to_nat len_p) (de_data m)) (de_err m))
}.

#[export] Instance dataErrReader_type : ReaderType dataErrReader := {
  rt_Reader := dataErrReader_Reader;
  rt_ReaderAt := None;
  rt_bufioReader := None
}.

(** A read engine over that source without observers. *)
Definition short_read_reader : BufferedReader dataErrReader :=
  NewReader (mkDataErrReader (bytes_of "hi") (errors.New "connection reset"))
            [].

(** A source and a sink that are bufio objects with a buffer of [size]
    bytes: [bufio.NewReaderSize] around the in-memory source of the tests,
    [bufio.NewWriterSize] around a sink whose every Write fails. *)
Definition bufio_source (size : N) : bufioReader mockReader :=
  mkBufioReader (bufio.mkReader size [] None)
                (mkMockReader (bytes_of "hello world") None).

Definition bufio_sink (size : N) : bufioWriter :=
  mkBufioWriter (bufio.mkWriter size [] None)
                (mkErrorWriter (errors.New "write error")).

(** A read engine over that source with an observer that always fails. *)
Definition last_chunk_reader : BufferedReader dataErrReader :=
  NewReader (mkDataErrReader (bytes_of "hi") (errors.New "connection reset"))
            [failing "test" "oops"].

(** A write engine over a sink whose every Write fails, no observers. *)
Definition broken_sink_writer : BufferedWriter mockWriter :=
  NewWriter (mkMockWriter [] (Some (errors.New "write error")) None ∅) [].

(** One byte more than the 32 KiB buffer holds. *)
Definition oversized : list byte := repeat "a"%byte (N.to_nat (32 * 1024 + 1)).

(** TeeReader over "hello world" whose mirror sink fails, with one more
    observer behind the mirror. *)
Definition tee_broken_mirror : ReaderValue mockReader :=
  TeeReader (mkMockReader (bytes_of "hello world") None)
            (mkErrorWriter (errors.New "mirror error"))
            [recorder "extra"].

(** TeeReader with a caller-supplied observer that is itself called
    "_tee_writer" and reports 42. *)
Definition tee_name_clash : ReaderValue mockReader :=
  TeeReader (mkMockReader (bytes_of "hello world") None)
            (mkMockWriter [] None None ∅)
            [as_callback (mkTestCallback "_tee_writer" [] None (any_int 42) "")].

(** The engine inside a facade result, if there is one. *)
Definition engine_of {R : Type} (v : ReaderValue R) : option (BufferedReader R) :=
  match v with
  | original_reader _ => None
  | buffered_reader br => Some br
  end.

(** A read engine whose only observer rejects every chunk, and the same
    engine after its first Read, with the observer's error in the slot. *)
Definition rejecting_reader : BufferedReader mockReader :=
  NewReader (mkMockReader (bytes_of "hello world") None)
            [failing "test" "callback error"].

Definition stuck_reader : BufferedReader mockReader :=
  snd (fst (BufferedReader_Read rejecting_reader 5)).

(** A read engine over a source with ReadAt, and the same engine with an
    error put into its slot, as the test "ReadAt with sticky error" does. *)
Definition positional_reader : BufferedReader mockReaderAt :=
  NewReader (mkMockReaderAt (bytes_of "hello world") None) [recorder "test"].


(** A write engine over a closable sink with one observer that fails with
    "oops", and the same engine after "abc" was written to it. *)
Definition empty_sink : mockCloser :=
  mkMockCloser (mkMockWriter [] None None ∅) false None.

Definition rejecting_writer : BufferedWriter mockCloser :=
  NewWriter empty_sink [failing "test" "oops"].


(** A write engine over a closable sink whose Close fails, holding buffered
    data; and a write engine over a sink that cannot be closed. *)
Definition close_failing_writer : BufferedWriter mockCloser :=
  snd (fst (BufferedWriter_Write
              (NewWriter (mkMockCloser (mkMockWriter [] None None ∅) false
                                       (Some (errors.New "close error")))
                         [recorder "test"])
              (bytes_of "test data"))).

Definition closed_writer : BufferedWriter mockCloser :=
  snd (fst (BufferedWriter_Close close_failing_writer)).

Definition unclosable_writer : BufferedWriter errorWriter :=
  NewWriter (mkErrorWriter (errors.New "write error")) [].

(** Three observers, the second of which panics. *)
Definition panic_in_the_middle : list ReadCallback :=
  [recorder "cb1"; panicking "cb2" "panic error"; recorder "cb3"].

(** Stand-ins for the digest functions, to run NewHashCallback. *)
Definition toy_crypto : Crypto := {|
  md5_Sum := fun d => firstn 1 d;
  sha1_Sum := fun d => firstn 2 d;
  sha256_Sum := fun d => rev d;
  sha512_Sum := fun d => d
|}.

(** The engine TeeReader builds in [tee_broken_mirror]. *)
Definition tee_broken_engine : BufferedReader mockReader :=
  NewReader (mkMockReader (bytes_of "hello world") None)
            (as_callback (mkTee (mkErrorWriter (errors.New "mirror error")) None)
             :: [recorder "extra"]).

(** ** The stock observers: HexSum, Size and MultiHashCallback *)

(** encoding/hex as HexSum uses it: two digits of [hextable] per byte, the
    high nibble first. *)
Module hex.
Definition hextable : string := "0123456789abcdef".

(** [hextable[i]]; the index is a nibble, so it is always in range. *)
Definition digit (i : N) : Ascii.ascii :=
  match String.get (N.to_nat i) hextable with
  | Some c => c
  | None => Ascii.Ascii false false false false true true false false
  end.

Fixpoint EncodeToString (src : list byte) : string :=
  match src with
  | [] => EmptyString
  | v :: rest =>
      String (digit (N.shiftr (Byte.to_N v) 4))
             (String (digit (N.land (Byte.to_N v) 15)) (EncodeToString rest))
  end.
End hex.

Definition HashCallback_HexSum (hc : HashCallback) : string :=
  hex.EncodeToString (hash.Sum (hc_h hc)).

Definition SizeCallback_Size (sc : SizeCallback) : Z := sc_size sc.

(** MultiHashCallback: one HashCallback per requested name.  The map holds
    pointers to observers that NewMultiHashCallback has just made, so no two
    keys share an observer and the map can hold the observers themselves. *)
Record MultiHashCallback : Type := mkMultiHashCallback {
  mh_hashes : gmap string HashCallback
}.

Definition NewMultiHashCallback `{Crypto} (algorithms : list string)
  : MultiHashCallback :=
  let algorithms :=
    match algorithms with
    | [] => ["sha256"] (* default *)
    | _ :: _ => algorithms
    end in
  mkMultiHashCallback
    (foldl (fun hashes algo => <[algo := NewHashCallback algo]> hashes)
           ∅ algorithms).

Definition MultiHashCallback_Name (mh : MultiHashCallback) : string :=
  "multi_hash".

(** [for _, h := range mh.hashes].  Go visits every key of the map once, in
    an order it leaves open; [order] is the order of one such visit. *)
Fixpoint MultiHashCallback_OnData_range (order : list string)
    (hashes : gmap string HashCallback) (chunk : list byte)
  : outcome * gmap string HashCallback :=
  match order with
  | [] => (Return None, hashes)
  | algo :: rest =>
      match hashes !! algo with
      | None => MultiHashCallback_OnData_range rest hashes chunk
      | Some h =>
          let '(o, h') := OnData h chunk in
          match o with
          | Return None =>
              MultiHashCallback_OnData_range rest (<[algo := h']> hashes) chunk
          | _ => (o, <[algo := h']> hashes)
          end
      end
  end.

Definition MultiHashCallback_OnData (order : list string)
    (mh : MultiHashCallback) (chunk : list byte)
  : outcome * MultiHashCallback :=
  let '(o, hashes') :=
    MultiHashCallback_OnData_range order (mh_hashes mh) chunk in
  (o, mkMultiHashCallback hashes').

Definition MultiHashCallback_Get (mh : MultiHashCallback) (algorithm : string)
  : string :=
  match mh_hashes mh !! algorithm with
  | Some h => HashCallback_HexSum h
  | None => ""
  end.

(** GetAll, again with the order of the range loop.  Result builds the same
    map and hands it out as an [any]. *)
Definition MultiHashCallback_GetAll (order : list string)
    (mh : MultiHashCallback) : gmap string string :=
  foldl (fun results algo =>
           match mh_hashes mh !! algo with
           | Some h => <[algo := HashCallback_HexSum h]> results
           | None => results
           end)
        ∅ order.

(** ** Vocabulary of the further properties *)

(** The bytes handed to the sink by the sequential writes of a trace, in
    order. *)
Fixpoint sink_bytes (tr : trace) : list byte :=
  match tr with
  | [] => []
  | ev_Write p :: tr' => p ++ sink_bytes tr'
  | _ :: tr' => sink_bytes tr'
  end.

(** The bytes a sequence of operations asks to write sequentially. *)
Fixpoint sequential_bytes (ops : list writer_op) : list byte :=
  match ops with
  | [] => []
  | op_Write p :: ops' => p ++ sequential_bytes ops'
  | _ :: ops' => sequential_bytes ops'
  end.

(** The bytes an engine holds in a Writer / Reader of its own; none when its
    [buf] is the stream itself. *)
Definition w_held {W : Type} (b : bufio.WriterPtr W) : list byte :=
  match b with
  | bufio.Writer_around b0 => bufio.w_buf b0
  | bufio.wr_itself _ => []
  end.

Definition r_held (b : bufio.ReaderPtr) : list byte :=
  match b with
  | bufio.Reader_around b0 => bufio.r_buf b0
  | bufio.rd_itself => []
  end.

(** [b'] is the [buf] that was [b] some calls ago: still the stream itself,
    or still the engine's own Writer / Reader, of the same size and within
    its capacity if [b] was. *)
Definition Writer_kept {W : Type} (b b' : bufio.WriterPtr W) : Prop :=
  match b, b' with
  | bufio.Writer_around b0, bufio.Writer_around b1 =>
      bufio.w_size b1 = bufio.w_size b0
      /\ ((N.of_nat (length (bufio.w_buf b0)) <= bufio.w_size b0)%N ->
          (N.of_nat (length (bufio.w_buf b1)) <= bufio.w_size b1)%N)
  | bufio.wr_itself m, bufio.wr_itself m' => m' = m
  | _, _ => False
  end.

Definition Reader_kept (b b' : bufio.ReaderPtr) : Prop :=
  match b, b' with
  | bufio.Reader_around b0, bufio.Reader_around b1 =>
      bufio.r_size b1 = bufio.r_size b0
      /\ ((N.of_nat (length (bufio.r_buf b0)) <= bufio.r_size b0)%N ->
          (N.of_nat (length (bufio.r_buf b1)) <= bufio.r_size b1)%N)
  | bufio.rd_itself, bufio.rd_itself => True
  | _, _ => False
  end.

(** Is the stream itself a *bufio.Writer / *bufio.Reader with a buffer of at
    least [size]?  Then NewWriterSize / NewReaderSize return the stream. *)
Definition is_bufio_Writer_of {W : Type} `{WriterType W} (w : W) (size : N)
  : bool :=
  match wt_bufioWriter with
  | Some m => N.leb size (@bufio.Writer_Size W m w)
  | None => false
  end.

Definition is_bufio_Reader_of {R : Type} `{ReaderType R} (r : R) (size : N)
  : bool :=
  match rt_bufioReader with
  | Some m => N.leb size (@bufio.Reader_Size R m r)
  | None => false
  end.

(** An observer after it has been handed a sequence of chunks. *)
Definition feed (cb : ReadCallback) (chunks : list (list byte)) : ReadCallback :=
  fold_left (fun cb c => snd (cb_OnData cb c)) chunks cb.

(** The chunks that are dispatched: the non-empty ones. *)
Definition nonempty_chunks (ds : list (list byte)) : list (list byte) :=
  List.filter (fun d => negb (Nat.eqb (length d) 0)) ds.

(** The io.Reader contract on the count: a Read returns at most [len(p)]
    bytes. *)
Definition reader_obeys_len (R : Type) `{io.Reader R} : Prop :=
  forall (r : R) (k : N), length (fst (fst (io.Read r k))) <= N.to_nat k.

(** The chunks a write engine dispatches over a sequence of operations that
    returned [rs]: [p[:n]] for every Write and WriteAt with [n > 0]. *)
Fixpoint dispatched_chunks (ops : list writer_op)
    (rs : list (nat * option error)) : list (list byte) :=
  match ops, rs with
  | op_Write p :: ops', (n, _) :: rs'
  | op_WriteAt p _ :: ops', (n, _) :: rs' =>
      (if Nat.ltb 0 n then [firstn n p] else []) ++ dispatched_chunks ops' rs'
  | _ :: ops', _ :: rs' => dispatched_chunks ops' rs'
  | _, _ => []
  end.

(** The values of an int64. *)
Definition int64 (z : Z) : Prop := (- 2 ^ 63 <= z < 2 ^ 63)%Z.

(** The digest function NewHashCallback picks for an algorithm name. *)
Definition digest_of `{Crypto} (algorithm : string) : list byte -> list byte :=
  if String.eqb algorithm "md5" then md5_Sum
  else if String.eqb algorithm "sha1" then sha1_Sum
  else if String.eqb algorithm "sha512" then sha512_Sum
  else sha256_Sum.

(** The name NewHashCallback gives the observer. *)
Definition name_of (algorithm : string) : string :=
  if String.eqb algorithm "md5" || String.eqb algorithm "sha1"
     || String.eqb algorithm "sha512"
  then algorithm else "sha256".

(** An order in which a range loop may visit a map: every key once. *)
Definition range_order {A : Type} (m : gmap string A) (order : list string)
  : Prop :=
  NoDup order /\ forall k : string, k ∈ order <-> is_Some (m !! k).

(** The names NewMultiHashCallback works with. *)
Definition requested (algorithms : list string) : list string :=
  match algorithms with
  | [] => ["sha256"]
  | _ :: _ => algorithms
  end.

(** A MultiHashCallback over a sequence of OnData calls, each with the order
    in which its loop visits the hashes. *)
Fixpoint observe_multi (mh : MultiHashCallback)
    (steps : list (list string * list byte))
  : list outcome * MultiHashCallback :=
  match steps with
  | [] => ([], mh)
  | (order, c) :: rest =>
      let '(o, mh') := MultiHashCallback_OnData order mh c in
      let '(os, mh'') := observe_multi mh' rest in
      (o :: os, mh'')
  end.

(** The value of a hex digit. *)
Definition hex_value (c : Ascii.ascii) : N :=
  let n := Ascii.N_of_ascii c in
  if (n <? 58)%N then (n - 48)%N else (n - 87)%N.

(** A read engine over "hello world" with the two stock observers. *)
Definition stock_reader : BufferedReader mockReader :=
  NewReader (mkMockReader (bytes_of "hello world") None)
            [as_callback (@NewHashCallback toy_crypto "sha512");
             as_callback NewSizeCallback].

(** A write engine over an in-memory sink with one recording observer. *)
Definition recording_writer : BufferedWriter mockWriter :=
  NewWriter (mkMockWriter [] None None ∅) [recorder "test"].

(** A MultiHashCallback for MD5 and for a name the package does not know. *)
Definition two_hashes : MultiHashCallback :=
  @NewMultiHashCallback toy_crypto ["md5"; "whirlpool"].

(** * Properties *)

(** ** Dispatch *)

Lemma observer_calls_app (t1 t2 : trace) :
  observer_calls (t1 ++ t2) = observer_calls t1 ++ observer_calls t2.
Proof.
  induction t1 as [|ev t1 IH]; simpl; [reflexivity|].
  destruct ev; simpl; rewrite IH; reflexivity.
Qed.

Lemma stream_calls_app (t1 t2 : trace) :
  stream_calls (t1 ++ t2) = stream_calls t1 ++ stream_calls t2.
Proof.
  induction t1 as [|ev t1 IH]; simpl; [reflexivity|].
  destruct ev; simpl; rewrite IH; reflexivity.
Qed.

(** The loop calls callbacks [i], [i+1], ... and stops after the first one
    that does not return nil. *)
Lemma dispatch_loop_trace (cbs : list ReadCallback) (chunk : list byte) :
  forall i,
    snd (dispatch_loop i cbs chunk)
    = map (fun k => ev_OnData k chunk) (seq i (calls_made cbs chunk)).
Proof.
  induction cbs as [|cb rest IH]; intros i; [reflexivity|].
  unfold calls_made in *. simpl.
  unfold cb_accepts.
  destruct (cb_OnData cb chunk) as [o cb'] eqn:Hcb. simpl.
  destruct o as [[e|]|v]; simpl; try reflexivity.
  specialize (IH (S i)).
  destruct (dispatch_loop (S i) rest chunk) as [[x rest'] tr]. simpl in *.
  rewrite IH.
  destruct (first_failing rest chunk); reflexivity.
Qed.

Lemma dispatch_loop_length (cbs : list ReadCallback) (chunk : list byte) :
  forall i, length (snd (fst (dispatch_loop i cbs chunk))) = length cbs.
Proof.
  induction cbs as [|cb rest IH]; intros i; [reflexivity|].
  simpl. destruct (cb_OnData cb chunk) as [o cb'].
  destruct o as [[e|]|v]; simpl; try reflexivity.
  specialize (IH (S i)).
  destruct (dispatch_loop (S i) rest chunk) as [[x rest'] tr]. simpl in *.
  congruence.
Qed.

(** The loop ends normally with nil exactly when no observer fails. *)
Lemma dispatch_loop_exit (cbs : list ReadCallback) (chunk : list byte) :
  forall i,
    match first_failing cbs chunk with
    | None => fst (fst (dispatch_loop i cbs chunk)) = Returned None
    | Some j =>
        exists cb, cbs !! j = Some cb /\
          match fst (cb_OnData cb chunk) with
          | Return None => False
          | Return (Some e) =>
              fst (fst (dispatch_loop i cbs chunk)) = Returned (Some e)
          | Panic v => fst (fst (dispatch_loop i cbs chunk)) = Panicked v
          end
    end.
Proof.
  induction cbs as [|cb rest IH]; intros i; [reflexivity|].
  simpl. unfold cb_accepts.
  destruct (cb_OnData cb chunk) as [o cb'] eqn:Hcb. simpl.
  destruct o as [[e|]|v]; simpl.
  - exists cb. rewrite Hcb. simpl. split; reflexivity.
  - specialize (IH (S i)).
    destruct (dispatch_loop (S i) rest chunk) as [[x rest'] tr]. simpl in *.
    destruct (first_failing rest chunk) as [j|]; simpl; [|exact IH].
    destruct IH as [cb0 [Hl Hm]]. exists cb0. split; [exact Hl|exact Hm].
  - exists cb. rewrite Hcb. simpl. split; reflexivity.
Qed.

Lemma first_failing_lt (cbs : list ReadCallback) (chunk : list byte) (j : nat) :
  first_failing cbs chunk = Some j -> j < length cbs.
Proof.
  revert j. induction cbs as [|cb rest IH]; intros j; simpl; [discriminate|].
  destruct (cb_accepts cb chunk); [|intros [= <-]; lia].
  destruct (first_failing rest chunk) as [j'|]; simpl; [|discriminate].
  intros [= <-]. specialize (IH j' eq_refl). lia.
Qed.

Lemma dispatch_trace (cbs : list ReadCallback) (chunk : list byte) :
  snd (dispatch cbs chunk)
  = map (fun k => ev_OnData k chunk) (seq 0 (calls_made cbs chunk)).
Proof.
  unfold dispatch. rewrite <- dispatch_loop_trace.
  destruct (dispatch_loop 0 cbs chunk) as [[x cbs'] tr].
  destruct x; reflexivity.
Qed.

Lemma observer_calls_OnData (chunk : list byte) (l : list nat) :
  observer_calls (map (fun k => ev_OnData k chunk) l)
  = map (fun i => (i, chunk)) l.
Proof. induction l as [|k l IH]; simpl; [reflexivity|]. rewrite IH. reflexivity. Qed.

Lemma stream_calls_OnData (chunk : list byte) (l : list nat) :
  stream_calls (map (fun k => ev_OnData k chunk) l) = [].
Proof. induction l as [|k l IH]; simpl; [reflexivity|exact IH]. Qed.

Lemma dispatch_observer_calls (cbs : list ReadCallback) (chunk : list byte) :
  observer_calls (snd (dispatch cbs chunk))
  = calls_in_order (calls_made cbs chunk) chunk.
Proof. rewrite dispatch_trace. apply observer_calls_OnData. Qed.

Lemma dispatch_stream_calls (cbs : list ReadCallback) (chunk : list byte) :
  stream_calls (snd (dispatch cbs chunk)) = [].
Proof. rewrite dispatch_trace. apply stream_calls_OnData. Qed.

Lemma dispatch_result (cbs : list ReadCallback) (chunk : list byte) :
  match first_failing cbs chunk with
  | None => fst (fst (dispatch cbs chunk)) = None
  | Some j => fst (fst (dispatch cbs chunk)) <> None
  end.
Proof.
  unfold dispatch. pose proof (dispatch_loop_exit cbs chunk 0) as H.
  destruct (dispatch_loop 0 cbs chunk) as [[x cbs'] tr]. simpl in H.
  destruct (first_failing cbs chunk) as [j|].
  - destruct H as [cb [_ H]].
    destruct (fst (cb_OnData cb chunk)) as [[e|]|v]; try contradiction;
      subst x; simpl; discriminate.
  - subst x. reflexivity.
Qed.

(** ** The buffered layer *)

(** bufio never talks to observers. *)
Lemma bufio_Read_observer_calls {R : Type} `{io.Reader R}
    (b : bufio.Reader) (rd : R) (k : N) :
  observer_calls (snd (bufio.Read b rd k)) = [].
Proof.
  unfold bufio.Read, bufio.readErr, bufio.copy_out.
  destruct (N.eqb k 0); destruct (bufio.r_buf b); simpl; try reflexivity.
  destruct (negb (is_nil (bufio.r_err b))); simpl; [reflexivity|].
  destruct (N.leb (bufio.r_size b) k).
  - destruct (io.Read rd k) as [[d e] rd']. reflexivity.
  - destruct (io.Read rd (bufio.r_size b)) as [[d e] rd'].
    destruct d; reflexivity.
Qed.

Lemma bufio_Flush_observer_calls {W : Type} `{io.Writer W}
    (b : bufio.Writer) (wr : W) :
  observer_calls (snd (bufio.Flush b wr)) = [].
Proof.
  unfold bufio.Flush.
  destruct (bufio.w_err b); [reflexivity|].
  destruct (Nat.eqb (bufio.Buffered b) 0); [reflexivity|].
  destruct (io.Write wr (bufio.w_buf b)) as [[n e] wr'].
  destruct (Nat.ltb n (bufio.Buffered b) && is_nil e); [reflexivity|].
  destruct e; reflexivity.
Qed.

Lemma bufio_Write_loop_observer_calls {W : Type} `{io.Writer W} (fuel : nat) :
  forall (b : bufio.Writer) (wr : W) (p : list byte) (nn : nat) (tr : trace),
    observer_calls tr = [] ->
    observer_calls (snd (bufio.Write_loop fuel b wr p nn tr)) = [].
Proof.
  induction fuel as [|fuel IH]; intros b wr p nn tr Htr; simpl; [exact Htr|].
  destruct (N.ltb (bufio.Available b) (N.of_nat (length p))
            && is_nil (bufio.w_err b));
    [|exact Htr].
  destruct (Nat.eqb (bufio.Buffered b) 0).
  - destruct (io.Write wr p) as [[n e] wr'].
    apply IH. rewrite observer_calls_app, Htr. reflexivity.
  - match goal with |- context [bufio.Flush ?b1 wr] =>
      pose proof (bufio_Flush_observer_calls b1 wr) as HF;
      destruct (bufio.Flush b1 wr) as [[[fe b2] wr'] tr']
    end.
    apply IH. rewrite observer_calls_app, Htr. exact HF.
Qed.

Lemma bufio_Write_observer_calls {W : Type} `{io.Writer W}
    (b : bufio.Writer) (wr : W) (p : list byte) :
  observer_calls (snd (bufio.Write b wr p)) = [].
Proof.
  unfold bufio.Write.
  pose proof (bufio_Write_loop_observer_calls 2 b wr p 0 [] eq_refl) as HL.
  destruct (bufio.Write_loop 2 b wr p 0 []) as [[[[b' wr'] p'] nn] tr].
  destruct (bufio.w_err b'); exact HL.
Qed.

(** The same through the engine's pointer. *)
Lemma bufio_ReadPtr_observer_calls {R : Type} `{io.Reader R}
    (b : bufio.ReaderPtr) (rd : R) (k : N) :
  observer_calls (snd (bufio.ReadPtr b rd k)) = [].
Proof.
  destruct b as [|b0]; simpl.
  - destruct (io.Read rd k) as [r rd']. reflexivity.
  - pose proof (bufio_Read_observer_calls b0 rd k) as HB.
    destruct (bufio.Read b0 rd k) as [[[r b'] rd'] tr]. exact HB.
Qed.

Lemma bufio_WritePtr_observer_calls {W : Type} `{io.Writer W}
    (b : bufio.WriterPtr W) (wr : W) (p : list byte) :
  observer_calls (snd (bufio.WritePtr b wr p)) = [].
Proof.
  destruct b as [m|b0]; simpl.
  - destruct (io.Write wr p) as [r wr']. reflexivity.
  - pose proof (bufio_Write_observer_calls b0 wr p) as HB.
    destruct (bufio.Write b0 wr p) as [[[r b'] wr'] tr]. exact HB.
Qed.

Lemma bufio_FlushPtr_observer_calls {W : Type} `{io.Writer W}
    (b : bufio.WriterPtr W) (wr : W) :
  observer_calls (snd (bufio.FlushPtr b wr)) = [].
Proof.
  destruct b as [m|b0]; simpl.
  - destruct (bufio.Writer_Flush wr) as [e wr']. reflexivity.
  - pose proof (bufio_Flush_observer_calls b0 wr) as HB.
    destruct (bufio.Flush b0 wr) as [[[e b'] wr'] tr]. exact HB.
Qed.

(** The loop of bufio.Write is over once its condition fails. *)
Lemma bufio_Write_loop_done {W : Type} `{io.Writer W} (fuel : nat)
    (b : bufio.Writer) (wr : W) (p : list byte) (nn : nat) (tr : trace) :
  N.ltb (bufio.Available b) (N.of_nat (length p)) && is_nil (bufio.w_err b)
  = false ->
  bufio.Write_loop fuel b wr p nn tr = (b, wr, p, nn, tr).
Proof. intros Hc. destruct fuel; simpl; [reflexivity|]. rewrite Hc. reflexivity. Qed.

(** After a direct write the condition fails: by the io.Writer contract the
    sink took all of [p] or reported an error. *)
Lemma bufio_direct_write_ends {W : Type} `{io.Writer W}
    (b : bufio.Writer) (wr wr' : W) (p : list byte) (n : nat)
    (e : option error) :
  io.Write wr p = ((n, e), wr') ->
  N.ltb (bufio.Available (bufio.mkWriter (bufio.w_size b) (bufio.w_buf b) e))
        (N.of_nat (length (skipn n p)))
  && is_nil (bufio.w_err (bufio.mkWriter (bufio.w_size b) (bufio.w_buf b) e))
  = false.
Proof.
  intros Hw. apply io.Write_contract in Hw. destruct Hw as [Hle Hshort].
  simpl. destruct e as [e|]; simpl; [apply andb_false_r|].
  rewrite andb_true_r. apply N.ltb_ge.
  rewrite length_skipn.
  destruct (Nat.lt_ge_cases n (length p)) as [Hlt|Hge];
    [exfalso; apply (Hshort Hlt); reflexivity|lia].
Qed.

(** After a flush without error the buffer is empty. *)
Lemma bufio_Flush_ok_empty {W : Type} `{io.Writer W}
    (b b' : bufio.Writer) (wr wr' : W) (fe : option error) (tr : trace) :
  bufio.Flush b wr = (fe, b', wr', tr) ->
  bufio.w_err b' = None ->
  bufio.w_buf b' = [] \/ (bufio.w_buf b = [] /\ b' = b).
Proof.
  unfold bufio.Flush. intros HF Herr.
  destruct (bufio.w_err b) eqn:Hb.
  - inversion HF; subst. congruence.
  - destruct (Nat.eqb (bufio.Buffered b) 0) eqn:Hz.
    + injection HF as _ Hbb _ _. subst b'. right. split; [|reflexivity].
      apply Nat.eqb_eq in Hz. unfold bufio.Buffered in Hz.
      destruct (bufio.w_buf b); [reflexivity|discriminate].
    + destruct (io.Write wr (bufio.w_buf b)) as [[n e] wr0].
      destruct (Nat.ltb n (bufio.Buffered b) && is_nil e).
      * inversion HF; subst. discriminate.
      * destruct e; inversion HF; subst; [discriminate|]. left. reflexivity.
Qed.

(** Two rounds are all the loop ever runs: more fuel changes nothing. *)
Lemma bufio_Write_loop_fuel {W : Type} `{io.Writer W} (fuel : nat)
    (b : bufio.Writer) (wr : W) (p : list byte) (nn : nat) (tr : trace) :
  bufio.Write_loop (2 + fuel) b wr p nn tr = bufio.Write_loop 2 b wr p nn tr.
Proof.
  change (2 + fuel) with (S (S fuel)).
  cbn [bufio.Write_loop].
  destruct (N.ltb (bufio.Available b) (N.of_nat (length p))
            && is_nil (bufio.w_err b))
    eqn:Hc; [|reflexivity].
  destruct (Nat.eqb (bufio.Buffered b) 0) eqn:Hz.
  - destruct (io.Write wr p) as [[n e] wr'] eqn:Hw.
    rewrite (bufio_direct_write_ends b wr wr' p n e Hw).
    reflexivity.
  - match goal with |- context [bufio.Flush ?b1 wr] =>
      destruct (bufio.Flush b1 wr) as [[[fe b2] wr'] tr'] eqn:HF
    end.
    destruct (N.ltb (bufio.Available b2)
                    (N.of_nat (length (skipn (bufio.copy_count b p) p)))
              && is_nil (bufio.w_err b2)) eqn:Hc2; [|reflexivity].
    apply andb_true_iff in Hc2. destruct Hc2 as [_ Hnil].
    assert (Hb2 : bufio.w_err b2 = None) by (destruct (bufio.w_err b2); [discriminate|reflexivity]).
    destruct (bufio_Flush_ok_empty _ _ _ _ _ _ HF Hb2) as [Hemp|[Hemp _]].
    + assert (Hz2 : Nat.eqb (bufio.Buffered b2) 0 = true)
        by (unfold bufio.Buffered; rewrite Hemp; reflexivity).
      rewrite Hz2.
      destruct (io.Write wr' _) as [[n e] wr''] eqn:Hw.
      apply bufio_Write_loop_done.
      apply (bufio_direct_write_ends b2 wr' wr'' _ n e Hw).
    + exfalso. simpl in Hemp. apply Nat.eqb_neq in Hz. unfold bufio.Buffered in Hz.
      destruct (bufio.w_buf b); [apply Hz; reflexivity|discriminate].
Qed.

(** ** What an engine call dispatches *)

Lemma br_deliver_observer_calls {R : Type} (br : BufferedReader R)
    (d : list byte) (e : option error) (tr0 : trace) :
  fst (fst (fst (br_deliver br d e tr0))) = d /\
  observer_calls (snd (br_deliver br d e tr0))
  = observer_calls tr0 ++
    match d with
    | [] => []
    | _ :: _ => calls_in_order (calls_made (br_callbacks br) d) d
    end.
Proof.
  unfold br_deliver.
  destruct d as [|x d']; simpl; [split; [reflexivity|apply eq_sym, app_nil_r]|].
  destruct (br_callbacks br) as [|cb rest] eqn:Hcbs; simpl;
    [split; [reflexivity|apply eq_sym, app_nil_r]|].
  pose proof (dispatch_observer_calls (cb :: rest) (x :: d')) as HD.
  destruct (dispatch (cb :: rest) (x :: d')) as [[cbErr cbs'] tr'].
  simpl in HD.
  destruct cbErr; simpl; rewrite observer_calls_app, HD; split; reflexivity.
Qed.

Lemma bw_deliver_observer_calls {W : Type} (bw : BufferedWriter W)
    (p : list byte) (n : nat) (e : option error) (tr0 : trace) :
  fst (fst (fst (bw_deliver bw p n e tr0))) = n /\
  observer_calls (snd (bw_deliver bw p n e tr0))
  = observer_calls tr0 ++
    match n with
    | O => []
    | S _ =>
        calls_in_order (calls_made (bw_callbacks bw) (firstn n p)) (firstn n p)
    end.
Proof.
  unfold bw_deliver.
  destruct n as [|n']; [split; [reflexivity|apply eq_sym, app_nil_r]|].
  change (Nat.ltb 0 (S n')) with true. cbv beta iota. rewrite andb_true_l.
  destruct (bw_callbacks bw) as [|cb rest].
  - simpl. split; [reflexivity|apply eq_sym, app_nil_r].
  - change (Nat.ltb 0 (length (cb :: rest))) with true. cbv beta iota.
    pose proof (dispatch_observer_calls (cb :: rest) (firstn (S n') p)) as HD.
    destruct (dispatch (cb :: rest) (firstn (S n') p)) as [[cbErr cbs'] tr'].
    simpl in HD.
    destruct cbErr; simpl; rewrite observer_calls_app, HD; split; reflexivity.
Qed.

Lemma Read_observer_calls {R : Type} `{io.Reader R}
    (br : BufferedReader R) (len_p : N) :
  observer_calls (snd (BufferedReader_Read br len_p))
  = match fst (fst (fst (BufferedReader_Read br len_p))) with
    | [] => []
    | d => calls_in_order (calls_made (br_callbacks br) d) d
    end.
Proof.
  unfold BufferedReader_Read.
  destruct (br_err br); [reflexivity|].
  pose proof (bufio_ReadPtr_observer_calls (br_buf br) (br_src br) len_p) as HB.
  destruct (bufio.ReadPtr (br_buf br) (br_src br) len_p) as [[[[d e] b'] src'] tr].
  simpl in HB.
  match goal with |- context [br_deliver ?x d e tr] =>
    destruct (br_deliver_observer_calls x d e tr) as [Hd Hc]
  end.
  rewrite Hc, Hd, HB. simpl. destruct d; reflexivity.
Qed.

Lemma ReadAt_observer_calls {R : Type}
    (br : BufferedReader R) (len_p : N) (off : Z) :
  observer_calls (snd (BufferedReader_ReadAt br len_p off))
  = match fst (fst (fst (BufferedReader_ReadAt br len_p off))) with
    | [] => []
    | d => calls_in_order (calls_made (br_callbacks br) d) d
    end.
Proof.
  unfold BufferedReader_ReadAt.
  destruct (br_srcAt br) as [srcAt|]; [|reflexivity].
  destruct (br_err br); [reflexivity|].
  destruct (io.ReadAt (br_src br) len_p off) as [[d e] src'].
  match goal with |- context [br_deliver ?x d e ?t] =>
    destruct (br_deliver_observer_calls x d e t) as [Hd Hc]
  end.
  rewrite Hc, Hd. simpl. destruct d; reflexivity.
Qed.

Lemma Write_observer_calls {W : Type} `{io.Writer W}
    (bw : BufferedWriter W) (p : list byte) :
  observer_calls (snd (BufferedWriter_Write bw p))
  = match fst (fst (fst (BufferedWriter_Write bw p))) with
    | O => []
    | n => calls_in_order (calls_made (bw_callbacks bw) (firstn n p))
                          (firstn n p)
    end.
Proof.
  unfold BufferedWriter_Write.
  destruct (bw_err bw); [reflexivity|].
  pose proof (bufio_WritePtr_observer_calls (bw_buf bw) (bw_dst bw) p) as HB.
  destruct (bufio.WritePtr (bw_buf bw) (bw_dst bw) p) as [[[[n e] b'] dst'] tr].
  simpl in HB.
  match goal with |- context [bw_deliver ?x p n e tr] =>
    destruct (bw_deliver_observer_calls x p n e tr) as [Hn Hc]
  end.
  rewrite Hc, Hn, HB. simpl. destruct n; reflexivity.
Qed.

Lemma WriteAt_observer_calls {W : Type}
    (bw : BufferedWriter W) (p : list byte) (off : Z) :
  observer_calls (snd (BufferedWriter_WriteAt bw p off))
  = match fst (fst (fst (BufferedWriter_WriteAt bw p off))) with
    | O => []
    | n => calls_in_order (calls_made (bw_callbacks bw) (firstn n p))
                          (firstn n p)
    end.
Proof.
  unfold BufferedWriter_WriteAt.
  destruct (bw_dstAt bw) as [dstAt|]; [|reflexivity].
  destruct (bw_err bw); [reflexivity|].
  destruct (io.WriteAt (bw_dst bw) p off) as [[n e] dst'].
  match goal with |- context [bw_deliver ?x p n e ?t] =>
    destruct (bw_deliver_observer_calls x p n e t) as [Hn Hc]
  end.
  rewrite Hc, Hn. simpl. destruct n; reflexivity.
Qed.

Lemma dispatch_loop_states (cbs : list ReadCallback) (chunk : list byte) :
  forall i, snd (fst (dispatch_loop i cbs chunk)) = fed_once cbs chunk.
Proof.
  induction cbs as [|cb rest IH]; intros i; [reflexivity|].
  unfold fed_once, calls_made in *. simpl. unfold cb_accepts.
  destruct (cb_OnData cb chunk) as [o cb'] eqn:Hcb. simpl.
  destruct o as [[e|]|v]; simpl; rewrite ?Hcb; try reflexivity.
  specialize (IH (S i)).
  destruct (dispatch_loop (S i) rest chunk) as [[x rest'] tr]. simpl in *.
  rewrite IH.
  destruct (first_failing rest chunk); simpl; rewrite Hcb; reflexivity.
Qed.

Lemma dispatch_states (cbs : list ReadCallback) (chunk : list byte) :
  snd (fst (dispatch cbs chunk)) = fed_once cbs chunk.
Proof.
  unfold dispatch. rewrite <- (dispatch_loop_states cbs chunk 0).
  destruct (dispatch_loop 0 cbs chunk) as [[x cbs'] tr].
  destruct x; reflexivity.
Qed.

(** The error of a dispatch is the one of the first observer that does not
    return nil. *)
Lemma dispatch_error_is_first (cbs : list ReadCallback) (chunk : list byte)
    (j : nat) :
  first_failing cbs chunk = Some j ->
  exists cb, cbs !! j = Some cb /\
    fst (fst (dispatch cbs chunk))
    = match fst (cb_OnData cb chunk) with
      | Return e => e
      | Panic v =>
          Some (errors.New (String.append "callback panic: " (panic_message v)))
      end.
Proof.
  intros Hff. unfold dispatch.
  pose proof (dispatch_loop_exit cbs chunk 0) as HE. rewrite Hff in HE.
  destruct HE as [cb [Hj HE]]. exists cb. split; [exact Hj|].
  destruct (dispatch_loop 0 cbs chunk) as [[x cbs'] tr]. simpl in HE.
  destruct (fst (cb_OnData cb chunk)) as [[e|]|v]; try contradiction;
    subst x; [reflexivity|]. destruct v; reflexivity.
Qed.

Lemma br_deliver_callbacks {R : Type} (br : BufferedReader R)
    (d : list byte) (e : option error) (tr0 : trace) :
  br_callbacks (snd (fst (br_deliver br d e tr0)))
  = match d with
    | [] => br_callbacks br
    | _ :: _ => fed_once (br_callbacks br) d
    end.
Proof.
  unfold br_deliver.
  destruct d as [|x d']; simpl; [reflexivity|].
  destruct (br_callbacks br) as [|cb rest] eqn:Hcbs; simpl; [exact Hcbs|].
  pose proof (dispatch_states (cb :: rest) (x :: d')) as HD.
  destruct (dispatch (cb :: rest) (x :: d')) as [[cbErr cbs'] tr'].
  simpl in HD. destruct cbErr; exact HD.
Qed.

Lemma bw_deliver_callbacks {W : Type} (bw : BufferedWriter W)
    (p : list byte) (n : nat) (e : option error) (tr0 : trace) :
  bw_callbacks (snd (fst (bw_deliver bw p n e tr0)))
  = match n with
    | O => bw_callbacks bw
    | S _ => fed_once (bw_callbacks bw) (firstn n p)
    end.
Proof.
  unfold bw_deliver.
  destruct n as [|n']; [reflexivity|].
  change (Nat.ltb 0 (S n')) with true. cbv beta iota. rewrite andb_true_l.
  destruct (bw_callbacks bw) as [|cb rest] eqn:Hcbs; [exact Hcbs|].
  change (Nat.ltb 0 (length (cb :: rest))) with true. cbv beta iota.
  pose proof (dispatch_states (cb :: rest) (firstn (S n') p)) as HD.
  destruct (dispatch (cb :: rest) (firstn (S n') p)) as [[cbErr cbs'] tr'].
  simpl in HD. destruct cbErr; exact HD.
Qed.

Lemma Read_callbacks {R : Type} `{io.Reader R}
    (br : BufferedReader R) (len_p : N) :
  br_callbacks (snd (fst (BufferedReader_Read br len_p)))
  = match fst (fst (fst (BufferedReader_Read br len_p))) with
    | [] => br_callbacks br
    | d => fed_once (br_callbacks br) d
    end.
Proof.
  unfold BufferedReader_Read.
  destruct (br_err br); [reflexivity|].
  destruct (bufio.ReadPtr (br_buf br) (br_src br) len_p)
    as [[[[d e] b'] src'] tr].
  match goal with |- context [br_deliver ?x d e tr] =>
    destruct (br_deliver_observer_calls x d e tr) as [Hd _];
    pose proof (br_deliver_callbacks x d e tr) as Hc
  end.
  rewrite Hc, Hd. destruct d; reflexivity.
Qed.

Lemma ReadAt_callbacks {R : Type}
    (br : BufferedReader R) (len_p : N) (off : Z) :
  br_callbacks (snd (fst (BufferedReader_ReadAt br len_p off)))
  = match fst (fst (fst (BufferedReader_ReadAt br len_p off))) with
    | [] => br_callbacks br
    | d => fed_once (br_callbacks br) d
    end.
Proof.
  unfold BufferedReader_ReadAt.
  destruct (br_srcAt br) as [srcAt|]; [|reflexivity].
  destruct (br_err br); [reflexivity|].
  destruct (io.ReadAt (br_src br) len_p off) as [[d e] src'].
  match goal with |- context [br_deliver ?x d e ?t] =>
    destruct (br_deliver_observer_calls x d e t) as [Hd _];
    pose proof (br_deliver_callbacks x d e t) as Hc
  end.
  rewrite Hc, Hd. destruct d; reflexivity.
Qed.

Lemma Write_callbacks {W : Type} `{io.Writer W}
    (bw : BufferedWriter W) (p : list byte) :
  bw_callbacks (snd (fst (BufferedWriter_Write bw p)))
  = match fst (fst (fst (BufferedWriter_Write bw p))) with
    | O => bw_callbacks bw
    | n => fed_once (bw_callbacks bw) (firstn n p)
    end.
Proof.
  unfold BufferedWriter_Write.
  destruct (bw_err bw); [reflexivity|].
  destruct (bufio.WritePtr (bw_buf bw) (bw_dst bw) p)
    as [[[[n e] b'] dst'] tr].
  match goal with |- context [bw_deliver ?x p n e tr] =>
    destruct (bw_deliver_observer_calls x p n e tr) as [Hn _];
    pose proof (bw_deliver_callbacks x p n e tr) as Hc
  end.
  rewrite Hc, Hn. destruct n; reflexivity.
Qed.

Lemma WriteAt_callbacks {W : Type}
    (bw : BufferedWriter W) (p : list byte) (off : Z) :
  bw_callbacks (snd (fst (BufferedWriter_WriteAt bw p off)))
  = match fst (fst (fst (BufferedWriter_WriteAt bw p off))) with
    | O => bw_callbacks bw
    | n => fed_once (bw_callbacks bw) (firstn n p)
    end.
Proof.
  unfold BufferedWriter_WriteAt.
  destruct (bw_dstAt bw) as [dstAt|]; [|reflexivity].
  destruct (bw_err bw); [reflexivity|].
  destruct (io.WriteAt (bw_dst bw) p off) as [[n e] dst'].
  match goal with |- context [bw_deliver ?x p n e ?t] =>
    destruct (bw_deliver_observer_calls x p n e t) as [Hn _];
    pose proof (bw_deliver_callbacks x p n e t) as Hc
  end.
  rewrite Hc, Hn. destruct n; reflexivity.
Qed.

(** C2.  A dispatch of a chunk over N registered observers calls OnData on
    observers 0, 1, ... in registration order, each exactly once and each
    with the same chunk; it calls all N when none fails, and only those up
    to and including the first failing one otherwise, so later observers
    never see that chunk.  This is said twice: of the calls made, and of
    the observers afterwards, each of which is in the state one OnData with
    that chunk leaves it in when it was called, and untouched when it was
    not; the error returned is the one of the first failing observer.
    Every non-empty chunk [p[:n]] an engine transfers (Read, ReadAt, Write,
    WriteAt) causes exactly the observer calls of one such dispatch and
    leaves the engine with the observers of that dispatch; an empty transfer
    causes no call and leaves the observers as they were. *)
Theorem dispatch_once_in_registration_order :
  (forall (cbs : list ReadCallback) (chunk : list byte),
      observer_calls (snd (dispatch cbs chunk))
      = calls_in_order (calls_made cbs chunk) chunk
      /\ length (snd (fst (dispatch cbs chunk))) = length cbs
      /\ snd (fst (dispatch cbs chunk)) = fed_once cbs chunk
      /\ (forall (i : nat) (cb : ReadCallback),
             cbs !! i = Some cb ->
             snd (fst (dispatch cbs chunk)) !! i
             = Some (if Nat.ltb i (calls_made cbs chunk)
                     then snd (cb_OnData cb chunk) else cb))
      /\ match first_failing cbs chunk with
         | None =>
             calls_made cbs chunk = length cbs
             /\ fst (fst (dispatch cbs chunk)) = None
         | Some j =>
             calls_made cbs chunk = S j /\ j < length cbs
             /\ fst (fst (dispatch cbs chunk)) <> None
             /\ exists cb, cbs !! j = Some cb /\
                  fst (fst (dispatch cbs chunk))
                  = match fst (cb_OnData cb chunk) with
                    | Return e => e
                    | Panic v =>
                        Some (errors.New (String.append "callback panic: "
                                                        (panic_message v)))
                    end
         end)
  /\ (forall (R : Type) (HR : io.Reader R) (br : BufferedReader R) (len_p : N),
         observer_calls (snd (BufferedReader_Read br len_p))
         = match fst (fst (fst (BufferedReader_Read br len_p))) with
           | [] => []
           | d => calls_in_order (calls_made (br_callbacks br) d) d
           end
         /\ br_callbacks (snd (fst (BufferedReader_Read br len_p)))
            = match fst (fst (fst (BufferedReader_Read br len_p))) with
              | [] => br_callbacks br
              | d => fed_once (br_callbacks br) d
              end)
  /\ (forall (R : Type) (br : BufferedReader R) (len_p : N) (off : Z),
         observer_calls (snd (BufferedReader_ReadAt br len_p off))
         = match fst (fst (fst (BufferedReader_ReadAt br len_p off))) with
           | [] => []
           | d => calls_in_order (calls_made (br_callbacks br) d) d
           end
         /\ br_callbacks (snd (fst (BufferedReader_ReadAt br len_p off)))
            = match fst (fst (fst (BufferedReader_ReadAt br len_p off))) with
              | [] => br_callbacks br
              | d => fed_once (br_callbacks br) d
              end)
  /\ (forall (W : Type) (HW : io.Writer W) (bw : BufferedWriter W)
             (p : list byte),
         observer_calls (snd (BufferedWriter_Write bw p))
         = match fst (fst (fst (BufferedWriter_Write bw p))) with
           | O => []
           | n => calls_in_order (calls_made (bw_callbacks bw) (firstn n p))
                                 (firstn n p)
           end
         /\ bw_callbacks (snd (fst (BufferedWriter_Write bw p)))
            = match fst (fst (fst (BufferedWriter_Write bw p))) with
              | O => bw_callbacks bw
              | n => fed_once (bw_callbacks bw) (firstn n p)
              end)
  /\ (forall (W : Type) (bw : BufferedWriter W) (p : list byte) (off : Z),
         observer_calls (snd (BufferedWriter_WriteAt bw p off))
         = match fst (fst (fst (BufferedWriter_WriteAt bw p off))) with
           | O => []
           | n => calls_in_order (calls_made (bw_callbacks bw) (firstn n p))
                                 (firstn n p)
           end
         /\ bw_callbacks (snd (fst (BufferedWriter_WriteAt bw p off)))
            = match fst (fst (fst (BufferedWriter_WriteAt bw p off))) with
              | O => bw_callbacks bw
              | n => fed_once (bw_callbacks bw) (firstn n p)
              end).
Proof.
  split; [|split; [|split; [|split]]].
  - intros cbs chunk. split; [apply dispatch_observer_calls|]. split.
    { unfold dispatch. pose proof (dispatch_loop_length cbs chunk 0) as HL.
      destruct (dispatch_loop 0 cbs chunk) as [[x cbs'] tr].
      destruct x; exact HL. }
    split; [apply dispatch_states|]. split.
    { intros i cb Hi. rewrite dispatch_states. unfold fed_once.
      destruct (Nat.ltb i (calls_made cbs chunk)) eqn:Hlt.
      - apply Nat.ltb_lt in Hlt.
        rewrite lookup_app_l by (rewrite length_map, length_firstn;
          apply lookup_lt_Some in Hi; lia).
        change (map ?f ?l) with (f <$> l).
        rewrite list_lookup_fmap, lookup_take_lt by exact Hlt.
        rewrite Hi. reflexivity.
      - apply Nat.ltb_ge in Hlt. apply lookup_lt_Some in Hi as Hlen.
        rewrite lookup_app_r by (rewrite length_map, length_firstn; lia).
        rewrite length_map, length_firstn, lookup_drop.
        replace (calls_made cbs chunk
                 + (i - Nat.min (calls_made cbs chunk) (length cbs)))
          with i by lia.
        exact Hi. }
    pose proof (dispatch_result cbs chunk) as HR.
    pose proof (first_failing_lt cbs chunk) as HLt.
    pose proof (dispatch_error_is_first cbs chunk) as HE.
    unfold calls_made.
    destruct (first_failing cbs chunk) as [j|].
    + split; [reflexivity|]. split; [apply HLt; reflexivity|].
      split; [exact HR|]. apply HE. reflexivity.
    + split; [reflexivity|exact HR].
  - intros. split; [apply Read_observer_calls|apply Read_callbacks].
  - intros. split; [apply ReadAt_observer_calls|apply ReadAt_callbacks].
  - intros. split; [apply Write_observer_calls|apply Write_callbacks].
  - intros. split; [apply WriteAt_observer_calls|apply WriteAt_callbacks].
Qed.

(** C3.  When the first observer that does not return nil panics with
    payload [v], dispatch does not let the panic through: it returns the
    error whose message is "callback panic: " followed by the payload's
    message for an error payload, the payload itself for a string, and
    "unknown panic" for anything else (formatPanic). *)
Theorem dispatch_recovers_panic :
  (forall (cbs : list ReadCallback) (chunk : list byte) (j : nat)
          (cb : ReadCallback) (v : panic_value),
      first_failing cbs chunk = Some j ->
      cbs !! j = Some cb ->
      fst (cb_OnData cb chunk) = Panic v ->
      fst (fst (dispatch cbs chunk))
      = Some (errors.New (String.append "callback panic: " (panic_message v)))
      /\ String.prefix "callback panic: "
           (String.append "callback panic: " (panic_message v)) = true)
  /\ (forall e : error, formatPanic (Some (panic_error e)) = errors.Error e)
  /\ (forall s : string, formatPanic (Some (panic_string s)) = s)
  /\ (forall tag : nat, formatPanic (Some (panic_other tag)) = "unknown panic")
  /\ formatPanic None = "unknown panic".
Proof.
  split; [|repeat split].
  intros cbs chunk j cb v Hff Hj Hp.
  split; [|simpl; destruct (panic_message v); reflexivity].
  unfold dispatch. pose proof (dispatch_loop_exit cbs chunk 0) as HE.
  rewrite Hff in HE. destruct HE as [cb0 [Hj0 HE]].
  rewrite Hj in Hj0. injection Hj0 as <-. rewrite Hp in HE.
  destruct (dispatch_loop 0 cbs chunk) as [[x cbs'] tr]. simpl in HE. subst x.
  destruct v; reflexivity.
Qed.

(** ** The facade *)

(** C5.  With no observers Reader and Writer hand back the stream they were
    given, as it is; with at least one observer they hand back a buffered
    engine that wraps that stream: a BufferedReader / BufferedWriter built by
    NewReader / NewWriter around it, with the observers registered and no
    sticky error.  The engine's buffer is an empty 32 KiB bufio.Reader /
    bufio.Writer of its own around the stream, unless the stream is itself
    a bufio.Reader / bufio.Writer with a buffer of at least 32 KiB, which
    then serves as the engine's buffer. *)
Theorem facade_returns_stream_itself_without_observers :
  (forall (R : Type) (HR : ReaderType R) (r : R),
      Reader r [] = original_reader r)
  /\ (forall (W : Type) (HW : WriterType W) (w : W),
         Writer w [] = original_writer w)
  /\ (forall (R : Type) (HR : ReaderType R) (r : R) (cb : ReadCallback)
             (cbs : list ReadCallback),
         Reader r (cb :: cbs) = buffered_reader (NewReader r (cb :: cbs))
         /\ br_src (NewReader r (cb :: cbs)) = r
         /\ br_callbacks (NewReader r (cb :: cbs)) = cb :: cbs
         /\ br_buf (NewReader r (cb :: cbs))
            = match rt_bufioReader with
              | Some b =>
                  if N.leb (32 * 1024) (@bufio.Reader_Size R b r)
                  then bufio.rd_itself
                  else bufio.Reader_around
                         (bufio.mkReader (32 * 1024)%N [] None)
              | None =>
                  bufio.Reader_around (bufio.mkReader (32 * 1024)%N [] None)
              end
         /\ br_err (NewReader r (cb :: cbs)) = None)
  /\ (forall (W : Type) (HW : WriterType W) (w : W) (cb : WriteCallback)
             (cbs : list WriteCallback),
         Writer w (cb :: cbs) = buffered_writer (NewWriter w (cb :: cbs))
         /\ bw_dst (NewWriter w (cb :: cbs)) = w
         /\ bw_callbacks (NewWriter w (cb :: cbs)) = cb :: cbs
         /\ bw_buf (NewWriter w (cb :: cbs))
            = match wt_bufioWriter with
              | Some b =>
                  if N.leb (32 * 1024) (@bufio.Writer_Size W b w)
                  then bufio.wr_itself b
                  else bufio.Writer_around
                         (bufio.mkWriter (32 * 1024)%N [] None)
              | None =>
                  bufio.Writer_around (bufio.mkWriter (32 * 1024)%N [] None)
              end
         /\ bw_err (NewWriter w (cb :: cbs)) = None).
Proof.
  split; [reflexivity|]. split; [reflexivity|]. split.
  - intros R HR r cb cbs. repeat split.
  - intros W HW w cb cbs. repeat split.
Qed.

(** ** Positional access *)

Lemma br_deliver_srcAt {R : Type} (br : BufferedReader R)
    (d : list byte) (e : option error) (tr0 : trace) :
  br_srcAt (snd (fst (br_deliver br d e tr0))) = br_srcAt br.
Proof.
  unfold br_deliver.
  destruct (Nat.ltb 0 (length d) && Nat.ltb 0 (length (br_callbacks br)));
    [|reflexivity].
  destruct (dispatch (br_callbacks br) d) as [[cbErr cbs'] tr'].
  destruct cbErr; reflexivity.
Qed.

Lemma bw_deliver_fields {W : Type} (bw : BufferedWriter W)
    (p : list byte) (n : nat) (e : option error) (tr0 : trace) :
  bw_dstAt (snd (fst (bw_deliver bw p n e tr0))) = bw_dstAt bw
  /\ bw_closed (snd (fst (bw_deliver bw p n e tr0))) = bw_closed bw
  /\ bw_dst (snd (fst (bw_deliver bw p n e tr0))) = bw_dst bw
  /\ bw_buf (snd (fst (bw_deliver bw p n e tr0))) = bw_buf bw.
Proof.
  unfold bw_deliver.
  destruct (Nat.ltb 0 n && Nat.ltb 0 (length (bw_callbacks bw)));
    [|repeat split].
  destruct (dispatch (bw_callbacks bw) (firstn n p)) as [[cbErr cbs'] tr'].
  destruct cbErr; repeat split.
Qed.

Lemma Read_srcAt {R : Type} `{io.Reader R} (br : BufferedReader R) (k : N) :
  br_srcAt (snd (fst (BufferedReader_Read br k))) = br_srcAt br.
Proof.
  unfold BufferedReader_Read. destruct (br_err br); [reflexivity|].
  destruct (bufio.ReadPtr (br_buf br) (br_src br) k) as [[[[d e] b'] src'] tr].
  rewrite br_deliver_srcAt. reflexivity.
Qed.

Lemma ReadAt_srcAt {R : Type} (br : BufferedReader R) (k : N) (off : Z) :
  br_srcAt (snd (fst (BufferedReader_ReadAt br k off))) = br_srcAt br.
Proof.
  unfold BufferedReader_ReadAt.
  destruct (br_srcAt br) eqn:Hs; [|exact Hs].
  destruct (br_err br); [exact Hs|].
  destruct (io.ReadAt (br_src br) k off) as [[d e] src'].
  rewrite br_deliver_srcAt. reflexivity.
Qed.

Lemma Write_fields {W : Type} `{io.Writer W} (bw : BufferedWriter W)
    (p : list byte) :
  bw_dstAt (snd (fst (BufferedWriter_Write bw p))) = bw_dstAt bw
  /\ bw_closed (snd (fst (BufferedWriter_Write bw p))) = bw_closed bw.
Proof.
  unfold BufferedWriter_Write. destruct (bw_err bw); [split; reflexivity|].
  destruct (bufio.WritePtr (bw_buf bw) (bw_dst bw) p) as [[[[n e] b'] dst'] tr].
  match goal with |- context [bw_deliver ?x p n e tr] =>
    destruct (bw_deliver_fields x p n e tr) as [H1 [H2 _]]
  end.
  rewrite H1, H2. split; reflexivity.
Qed.

Lemma WriteAt_fields {W : Type} (bw : BufferedWriter W)
    (p : list byte) (off : Z) :
  bw_dstAt (snd (fst (BufferedWriter_WriteAt bw p off))) = bw_dstAt bw
  /\ bw_closed (snd (fst (BufferedWriter_WriteAt bw p off))) = bw_closed bw.
Proof.
  unfold BufferedWriter_WriteAt.
  destruct (bw_dstAt bw) eqn:Hs; [|split; [exact Hs|reflexivity]].
  destruct (bw_err bw); [split; [exact Hs|reflexivity]|].
  destruct (io.WriteAt (bw_dst bw) p off) as [[n e] dst'].
  match goal with |- context [bw_deliver ?x p n e ?t] =>
    destruct (bw_deliver_fields x p n e t) as [H1 [H2 _]]
  end.
  rewrite H1, H2. split; reflexivity.
Qed.

Lemma Flush_fields {W : Type} `{io.Writer W} (bw : BufferedWriter W) :
  bw_dstAt (snd (fst (BufferedWriter_Flush bw))) = bw_dstAt bw
  /\ bw_closed (snd (fst (BufferedWriter_Flush bw))) = bw_closed bw
  /\ bw_callbacks (snd (fst (BufferedWriter_Flush bw))) = bw_callbacks bw.
Proof.
  unfold BufferedWriter_Flush. destruct (bw_err bw); [repeat split|].
  destruct (bufio.FlushPtr (bw_buf bw) (bw_dst bw)) as [[[e b'] dst'] tr].
  repeat split.
Qed.

(** C7.  On an engine whose stream has no positional access ([srcAt] /
    [dstAt] is nil, which is what NewReader / NewWriter store when the type
    assertion fails, and what every operation leaves in place) ReadAt and
    WriteAt return zero bytes and the error "ReadAt not supported" /
    "WriteAt not supported" at once: the engine is left as it was and the
    trace is empty, so neither the stream (sequentially or otherwise) nor
    any observer is touched. *)
Theorem positional_access_unsupported :
  (forall (R : Type) (br : BufferedReader R) (len_p : N) (off : Z),
      br_srcAt br = None ->
      BufferedReader_ReadAt br len_p off
      = (([], Some (errors.New "ReadAt not supported")), br, []))
  /\ (forall (W : Type) (bw : BufferedWriter W) (p : list byte) (off : Z),
         bw_dstAt bw = None ->
         BufferedWriter_WriteAt bw p off
         = ((0, Some (errors.New "WriteAt not supported")), bw, []))
  /\ (forall (R : Type) (HR : ReaderType R) (r : R) (cbs : list ReadCallback),
         rt_ReaderAt = None -> br_srcAt (NewReader r cbs) = None)
  /\ (forall (W : Type) (HW : WriterType W) (w : W) (cbs : list WriteCallback),
         wt_WriterAt = None -> bw_dstAt (NewWriter w cbs) = None)
  /\ (forall (R : Type) (HR : io.Reader R) (br : BufferedReader R)
             (len_p : N) (off : Z),
         br_srcAt (snd (fst (BufferedReader_Read br len_p))) = br_srcAt br
         /\ br_srcAt (snd (fst (BufferedReader_ReadAt br len_p off)))
            = br_srcAt br)
  /\ (forall (W : Type) (HW : io.Writer W) (bw : BufferedWriter W)
             (p : list byte) (off : Z),
         bw_dstAt (snd (fst (BufferedWriter_Write bw p))) = bw_dstAt bw
         /\ bw_dstAt (snd (fst (BufferedWriter_WriteAt bw p off))) = bw_dstAt bw
         /\ bw_dstAt (snd (fst (BufferedWriter_Flush bw))) = bw_dstAt bw).
Proof.
  split; [|split; [|split; [|split; [|split]]]].
  - intros R br len_p off Hs. unfold BufferedReader_ReadAt. rewrite Hs.
    reflexivity.
  - intros W bw p off Hs. unfold BufferedWriter_WriteAt. rewrite Hs.
    reflexivity.
  - intros R HR r cbs Hs. exact Hs.
  - intros W HW w cbs Hs. exact Hs.
  - intros. split; [apply Read_srcAt|apply ReadAt_srcAt].
  - intros. split; [apply Write_fields|]. split;
      [apply WriteAt_fields|apply Flush_fields].
Qed.

(** ** Close *)

Lemma bufio_Flush_trace {W : Type} `{io.Writer W} (b : bufio.Writer) (wr : W) :
  snd (bufio.Flush b wr) = [] \/ snd (bufio.Flush b wr) = [ev_Write (bufio.w_buf b)].
Proof.
  unfold bufio.Flush.
  destruct (bufio.w_err b); [left; reflexivity|].
  destruct (Nat.eqb (bufio.Buffered b) 0); [left; reflexivity|].
  destruct (io.Write wr (bufio.w_buf b)) as [[n e] wr'].
  destruct (Nat.ltb n (bufio.Buffered b) && is_nil e); [right; reflexivity|].
  destruct e; right; reflexivity.
Qed.

Lemma bufio_FlushPtr_no_Close {W : Type} `{io.Writer W}
    (b : bufio.WriterPtr W) (wr : W) :
  ~ In ev_Close (snd (bufio.FlushPtr b wr)).
Proof.
  destruct b as [m|b0]; simpl.
  - destruct (bufio.Writer_Flush wr) as [e wr']. simpl.
    intros [Hc|[]]. discriminate.
  - pose proof (bufio_Flush_trace b0 wr) as HT.
    destruct (bufio.Flush b0 wr) as [[[e b'] wr'] tr].
    simpl in *. destruct HT as [-> | ->]; simpl; [tauto|].
    intros [Hc|[]]. discriminate.
Qed.

Lemma Flush_no_Close {W : Type} `{io.Writer W} (bw : BufferedWriter W) :
  ~ In ev_Close (snd (BufferedWriter_Flush bw)).
Proof.
  unfold BufferedWriter_Flush. destruct (bw_err bw); [simpl; tauto|].
  pose proof (bufio_FlushPtr_no_Close (bw_buf bw) (bw_dst bw)) as HT.
  destruct (bufio.FlushPtr (bw_buf bw) (bw_dst bw)) as [[[e b'] dst'] tr].
  exact HT.
Qed.

Lemma Close_when_closed {W : Type} `{WriterType W} (bw : BufferedWriter W) :
  bw_closed bw = true -> BufferedWriter_Close bw = (None, bw, []).
Proof. intros Hc. unfold BufferedWriter_Close. rewrite Hc. reflexivity. Qed.

Lemma Close_sets_closed {W : Type} `{WriterType W} (bw : BufferedWriter W) :
  bw_closed (snd (fst (BufferedWriter_Close bw))) = true.
Proof.
  unfold BufferedWriter_Close. destruct (bw_closed bw) eqn:Hc; [exact Hc|].
  pose proof (Flush_fields (mark_closed bw)) as [_ [Hcl _]].
  fold (mark_closed bw).
  destruct (BufferedWriter_Flush (mark_closed bw)) as [[e bw2] tr].
  simpl in Hcl.
  destruct e; [exact Hcl|].
  destruct wt_Closer as [closer|]; [|exact Hcl].
  destruct (io.Close (bw_dst bw2)) as [ce dst']. exact Hcl.
Qed.

(** C6.  Close on a write engine.  The first call (flag not yet set) runs
    Flush; when Flush fails its error is returned and the sink's Close is not
    called; otherwise the sink is closed if it is an io.Closer, and the
    error of that close is what Close returns (nil for a sink that cannot be
    closed).  Whatever the outcome, the engine is marked closed, the mark is
    never taken back by Write, WriteAt or Flush, and every Close on a marked
    engine returns nil, leaves the engine as it is and touches nothing. *)
Theorem Close_only_first_call_works :
  forall (W : Type) (HW : WriterType W) (bw : BufferedWriter W),
    (bw_closed bw = false ->
     let '(e1, bw1, tr1) := BufferedWriter_Close bw in
     let '(fe, bwf, trf) := BufferedWriter_Flush (mark_closed bw) in
     match fe with
     | Some e => e1 = Some e /\ bw1 = bwf /\ tr1 = trf /\ ~ In ev_Close tr1
     | None =>
         match wt_Closer with
         | Some closer =>
             e1 = fst (@io.Close W closer (bw_dst bwf))
             /\ bw_dst bw1 = snd (@io.Close W closer (bw_dst bwf))
             /\ tr1 = trf ++ [ev_Close]
         | None => e1 = None /\ bw1 = bwf /\ tr1 = trf /\ ~ In ev_Close tr1
         end
     end)
    /\ bw_closed (snd (fst (BufferedWriter_Close bw))) = true
    /\ BufferedWriter_Close (snd (fst (BufferedWriter_Close bw)))
       = (None, snd (fst (BufferedWriter_Close bw)), [])
    /\ (bw_closed bw = true -> BufferedWriter_Close bw = (None, bw, []))
    /\ (forall (p : list byte) (off : Z),
           bw_closed (snd (fst (BufferedWriter_Write bw p))) = bw_closed bw
           /\ bw_closed (snd (fst (BufferedWriter_WriteAt bw p off)))
              = bw_closed bw
           /\ bw_closed (snd (fst (BufferedWriter_Flush bw))) = bw_closed bw).
Proof.
  intros W HW bw. split; [|split; [|split; [|split]]].
  - intros Hc. unfold BufferedWriter_Close. rewrite Hc. fold (mark_closed bw).
    pose proof (Flush_no_Close (mark_closed bw)) as HNC.
    destruct (BufferedWriter_Flush (mark_closed bw)) as [[fe bwf] trf].
    simpl in HNC.
    destruct fe as [e|]; [repeat split; exact HNC|].
    destruct wt_Closer as [closer|]; [|repeat split; exact HNC].
    destruct (io.Close (bw_dst bwf)) as [ce dst']. repeat split.
  - apply Close_sets_closed.
  - apply Close_when_closed, Close_sets_closed.
  - apply Close_when_closed.
  - intros p off. split; [apply Write_fields|]. split;
      [apply WriteAt_fields|apply Flush_fields].
Qed.

(** ** The sticky error slot *)

Lemma br_deliver_sets {R : Type} (br : BufferedReader R)
    (d : list byte) (e : option error) (tr0 : trace) :
  br_err br = None ->
  br_err (snd (fst (br_deliver br d e tr0)))
  = dispatch_error (br_callbacks br) d (length d)
  /\ snd (fst (fst (br_deliver br d e tr0)))
     = match dispatch_error (br_callbacks br) d (length d) with
       | Some ce => Some ce
       | None => e
       end.
Proof.
  intros Hnil. unfold br_deliver, dispatch_error.
  destruct d as [|x d']; simpl; [split; [exact Hnil|reflexivity]|].
  destruct (br_callbacks br) as [|cb rest]; simpl;
    [split; [exact Hnil|reflexivity]|].
  destruct (dispatch (cb :: rest) (x :: d')) as [[cbErr cbs'] tr'].
  destruct cbErr; simpl; split; try reflexivity. exact Hnil.
Qed.

Lemma bw_deliver_sets {W : Type} (bw : BufferedWriter W)
    (p : list byte) (n : nat) (e : option error) (tr0 : trace) :
  bw_err bw = None ->
  bw_err (snd (fst (bw_deliver bw p n e tr0)))
  = dispatch_error (bw_callbacks bw) (firstn n p) n
  /\ snd (fst (fst (bw_deliver bw p n e tr0)))
     = match dispatch_error (bw_callbacks bw) (firstn n p) n with
       | Some ce => Some ce
       | None => e
       end.
Proof.
  intros Hnil. unfold bw_deliver, dispatch_error.
  destruct n as [|n']; [split; [exact Hnil|reflexivity]|].
  change (Nat.ltb 0 (S n')) with true. cbv beta iota. rewrite andb_true_l.
  destruct (bw_callbacks bw) as [|cb rest];
    [split; [exact Hnil|reflexivity]|].
  change (Nat.ltb 0 (length (cb :: rest))) with true. cbv beta iota.
  destruct (dispatch (cb :: rest) (firstn (S n') p)) as [[cbErr cbs'] tr'].
  destruct cbErr; simpl; split; try reflexivity. exact Hnil.
Qed.






Lemma run_reader_op_sticky {R : Type} `{io.Reader R} (br : BufferedReader R)
    (e : error) (op : reader_op) :
  br_err br = Some e ->
  run_reader_op br op = (sticky_reader_result br e op, br, []).
Proof.
  intros Hs. destruct op as [k|k off]; simpl.
  - unfold BufferedReader_Read, sticky_reader_result. rewrite Hs.
    destruct (br_srcAt br); reflexivity.
  - unfold BufferedReader_ReadAt, sticky_reader_result.
    destruct (br_srcAt br); [rewrite Hs|]; reflexivity.
Qed.

Lemma mark_closed_closed {W : Type} (bw : BufferedWriter W) :
  bw_closed bw = true -> mark_closed bw = bw.
Proof. destruct bw; simpl. intros ->. reflexivity. Qed.

Lemma run_writer_op_sticky {W : Type} `{WriterType W} (bw : BufferedWriter W)
    (e : error) (op : writer_op) :
  bw_err bw = Some e ->
  run_writer_op bw op
  = (sticky_writer_result bw e op,
     if is_Close op then mark_closed bw else bw, []).
Proof.
  intros Hs. destruct op as [p|p off| |]; simpl.
  - unfold BufferedWriter_Write. rewrite Hs. reflexivity.
  - unfold BufferedWriter_WriteAt.
    destruct (bw_dstAt bw); [rewrite Hs|]; reflexivity.
  - unfold BufferedWriter_Flush. rewrite Hs. reflexivity.
  - unfold BufferedWriter_Close.
    destruct (bw_closed bw) eqn:Hc.
    + rewrite (mark_closed_closed bw Hc). reflexivity.
    + unfold BufferedWriter_Flush, mark_closed. simpl. rewrite Hs. reflexivity.
Qed.

Lemma run_reader_ops_sticky {R : Type} `{io.Reader R} (e : error)
    (ops : list reader_op) :
  forall br : BufferedReader R,
    br_err br = Some e ->
    run_reader_ops br ops = (map (sticky_reader_result br e) ops, br, []).
Proof.
  induction ops as [|op ops IH]; intros br Hs; simpl; [reflexivity|].
  rewrite (run_reader_op_sticky br e op Hs), (IH br Hs). reflexivity.
Qed.

Lemma run_writer_ops_sticky {W : Type} `{WriterType W} (e : error)
    (ops : list writer_op) :
  forall bw : BufferedWriter W,
    bw_err bw = Some e ->
    run_writer_ops bw ops
    = (sticky_writer_results bw e ops, after_closes bw ops, [])
    /\ bw_err (after_closes bw ops) = Some e.
Proof.
  induction ops as [|op ops IH]; intros bw Hs; simpl;
    [split; [reflexivity|exact Hs]|].
  rewrite (run_writer_op_sticky bw e op Hs).
  assert (Hs' : bw_err (if is_Close op then mark_closed bw else bw) = Some e)
    by (destruct (is_Close op); exact Hs).
  destruct (IH _ Hs') as [IH1 IH2]. rewrite IH1. split; [reflexivity|exact IH2].
Qed.



(** ** Errors of the wrapped stream *)

Lemma stream_calls_nil_app (t1 t2 : trace) :
  stream_calls t2 = [] -> stream_calls (t1 ++ t2) = stream_calls t1.
Proof. intros H. rewrite stream_calls_app, H. apply app_nil_r. Qed.

Lemma br_deliver_fields {R : Type} (br : BufferedReader R)
    (d : list byte) (e : option error) (tr0 : trace) :
  br_src (snd (fst (br_deliver br d e tr0))) = br_src br
  /\ br_buf (snd (fst (br_deliver br d e tr0))) = br_buf br
  /\ stream_calls (snd (br_deliver br d e tr0)) = stream_calls tr0.
Proof.
  unfold br_deliver.
  destruct (Nat.ltb 0 (length d) && Nat.ltb 0 (length (br_callbacks br)));
    [|repeat split].
  pose proof (dispatch_stream_calls (br_callbacks br) d) as HS.
  destruct (dispatch (br_callbacks br) d) as [[cbErr cbs'] tr'].
  simpl in HS.
  destruct cbErr; simpl; repeat split; apply stream_calls_nil_app; exact HS.
Qed.

(** When bufio.Reader.Read hands out an error, its buffer is empty and the
    error is no longer pending. *)
Lemma bufio_Read_error_drains {R : Type} `{io.Reader R}
    (b b' : bufio.Reader) (rd rd' : R) (k : N) (d : list byte) (x : error)
    (tr : trace) :
  bufio.Read b rd k = ((d, Some x), b', rd', tr) ->
  bufio.r_buf b' = [] /\ bufio.r_err b' = None.
Proof.
  unfold bufio.Read, bufio.readErr, bufio.copy_out.
  destruct (N.eqb k 0); destruct (bufio.r_buf b) eqn:Hb; simpl;
    try (intros Heq; inversion Heq; subst; split; reflexivity);
    try discriminate.
  destruct (negb (is_nil (bufio.r_err b))); simpl;
    [intros Heq; inversion Heq; subst; split; reflexivity|].
  destruct (N.leb (bufio.r_size b) k).
  - destruct (io.Read rd k) as [[d0 e0] rd0]. simpl.
    intros Heq; inversion Heq; subst. split; reflexivity.
  - destruct (io.Read rd (bufio.r_size b)) as [[d0 e0] rd0].
    destruct d0; simpl; [|discriminate].
    intros Heq; inversion Heq; subst. split; reflexivity.
Qed.

(** With an empty buffer and nothing pending, a non-empty Read goes to the
    source. *)
Lemma bufio_Read_drained_reads_source {R : Type} `{io.Reader R}
    (b : bufio.Reader) (rd : R) (k : N) :
  bufio.r_buf b = [] -> bufio.r_err b = None -> k <> 0%N ->
  snd (bufio.Read b rd k)
  = [ev_Read (if N.leb (bufio.r_size b) k then k else bufio.r_size b)].
Proof.
  intros Hb He Hk. unfold bufio.Read, bufio.readErr, bufio.copy_out.
  apply N.eqb_neq in Hk. rewrite Hk, Hb, He. simpl.
  destruct (N.leb (bufio.r_size b) k).
  - destruct (io.Read rd k) as [[d0 e0] rd0]. reflexivity.
  - destruct (io.Read rd (bufio.r_size b)) as [[d0 e0] rd0].
    destruct d0; reflexivity.
Qed.

(** bufio.Writer keeps the error it returns ... *)
Lemma bufio_Write_error_latched {W : Type} `{io.Writer W}
    (b b' : bufio.Writer) (wr wr' : W) (p : list byte) (n : nat) (x : error)
    (tr : trace) :
  bufio.Write b wr p = ((n, Some x), b', wr', tr) ->
  bufio.w_err b' = Some x.
Proof.
  unfold bufio.Write.
  destruct (bufio.Write_loop 2 b wr p 0 []) as [[[[b1 wr1] p1] nn] tr1].
  destruct (bufio.w_err b1) eqn:Hb1.
  - intros Heq; inversion Heq; subst. exact Hb1.
  - discriminate.
Qed.

(** ... and with an error kept, Write accepts nothing and returns it without
    a call to the sink. *)
Lemma bufio_Write_latched {W : Type} `{io.Writer W}
    (b : bufio.Writer) (wr : W) (p : list byte) (x : error) :
  bufio.w_err b = Some x ->
  bufio.Write b wr p = ((0, Some x), b, wr, []).
Proof.
  intros Hx. unfold bufio.Write. cbn [bufio.Write_loop]. rewrite Hx.
  cbn [is_nil]. rewrite andb_false_r. rewrite Hx. reflexivity.
Qed.

Lemma bufio_Flush_latched {W : Type} `{io.Writer W}
    (b : bufio.Writer) (wr : W) (x : error) :
  bufio.w_err b = Some x ->
  bufio.Flush b wr = (Some x, b, wr, []).
Proof. intros Hx. unfold bufio.Flush. rewrite Hx. reflexivity. Qed.

Lemma Read_returns {R : Type} `{io.Reader R} (br : BufferedReader R) (k : N) :
  br_err br = None ->
  let '((d, e), b', src', _) := bufio.ReadPtr (br_buf br) (br_src br) k in
  let '((d1, e1), br1, _) := BufferedReader_Read br k in
  d1 = d
  /\ br_err br1 = dispatch_error (br_callbacks br) d (length d)
  /\ e1 = match dispatch_error (br_callbacks br) d (length d) with
          | Some ce => Some ce
          | None => e
          end
  /\ br_buf br1 = b' /\ br_src br1 = src'.
Proof.
  intros Hnil. unfold BufferedReader_Read. rewrite Hnil.
  destruct (bufio.ReadPtr (br_buf br) (br_src br) k) as [[[[d e] b'] src'] tr].
  match goal with |- context [br_deliver ?x d e tr] =>
    pose proof (br_deliver_observer_calls x d e tr) as [Hd _];
    pose proof (br_deliver_sets x d e tr eq_refl) as [Hs He];
    pose proof (br_deliver_fields x d e tr) as [Hsrc [Hbuf _]];
    destruct (br_deliver x d e tr) as [[[d1 e1] br1] tr1]
  end.
  simpl in *. repeat split; assumption.
Qed.

Lemma Write_returns {W : Type} `{io.Writer W} (bw : BufferedWriter W)
    (p : list byte) :
  bw_err bw = None ->
  let '((n, e), b', dst', _) := bufio.WritePtr (bw_buf bw) (bw_dst bw) p in
  let '((n1, e1), bw1, _) := BufferedWriter_Write bw p in
  n1 = n
  /\ bw_err bw1 = dispatch_error (bw_callbacks bw) (firstn n p) n
  /\ e1 = match dispatch_error (bw_callbacks bw) (firstn n p) n with
          | Some ce => Some ce
          | None => e
          end
  /\ bw_buf bw1 = b' /\ bw_dst bw1 = dst'.
Proof.
  intros Hnil. unfold BufferedWriter_Write. rewrite Hnil.
  destruct (bufio.WritePtr (bw_buf bw) (bw_dst bw) p) as [[[[n e] b'] dst'] tr].
  match goal with |- context [bw_deliver ?x p n e tr] =>
    pose proof (bw_deliver_observer_calls x p n e tr) as [Hn _];
    pose proof (bw_deliver_sets x p n e tr eq_refl) as [Hs He];
    pose proof (bw_deliver_fields x p n e tr) as [_ [_ [Hdst Hbuf]]];
    destruct (bw_deliver x p n e tr) as [[[n1 e1] bw1] tr1]
  end.
  simpl in *. repeat split; assumption.
Qed.

Lemma Read_stream_calls {R : Type} `{io.Reader R} (br : BufferedReader R) (k : N) :
  br_err br = None ->
  stream_calls (snd (BufferedReader_Read br k))
  = stream_calls (snd (bufio.ReadPtr (br_buf br) (br_src br) k)).
Proof.
  intros Hnil. unfold BufferedReader_Read. rewrite Hnil.
  destruct (bufio.ReadPtr (br_buf br) (br_src br) k) as [[[[d e] b'] src'] tr].
  match goal with |- context [br_deliver ?x d e tr] =>
    destruct (br_deliver_fields x d e tr) as [_ [_ Hst]]
  end.
  exact Hst.
Qed.

Lemma bw_deliver_stream_calls {W : Type} (bw : BufferedWriter W)
    (p : list byte) (n : nat) (e : option error) (tr0 : trace) :
  stream_calls (snd (bw_deliver bw p n e tr0)) = stream_calls tr0.
Proof.
  unfold bw_deliver.
  destruct (Nat.ltb 0 n && Nat.ltb 0 (length (bw_callbacks bw)));
    [|reflexivity].
  pose proof (dispatch_stream_calls (bw_callbacks bw) (firstn n p)) as HS.
  destruct (dispatch (bw_callbacks bw) (firstn n p)) as [[cbErr cbs'] tr'].
  simpl in HS.
  destruct cbErr; simpl; apply stream_calls_nil_app; exact HS.
Qed.

Lemma Write_stream_calls {W : Type} `{io.Writer W} (bw : BufferedWriter W)
    (p : list byte) :
  bw_err bw = None ->
  stream_calls (snd (BufferedWriter_Write bw p))
  = stream_calls (snd (bufio.WritePtr (bw_buf bw) (bw_dst bw) p)).
Proof.
  intros Hnil. unfold BufferedWriter_Write. rewrite Hnil.
  destruct (bufio.WritePtr (bw_buf bw) (bw_dst bw) p)
    as [[[[n e] b'] dst'] tr].
  apply bw_deliver_stream_calls.
Qed.

(** A Read on a drained Reader with nothing pending is one Read of the
    source: directly into [p] when [p] is at least as large as the buffer,
    into the buffer otherwise.  An error that comes with data into the
    buffer is kept pending and not returned. *)
Lemma bufio_Read_drained {R : Type} `{io.Reader R}
    (b : bufio.Reader) (rd : R) (k : N) :
  bufio.r_buf b = [] -> bufio.r_err b = None -> k <> 0%N ->
  bufio.Read b rd k
  = let m := if N.leb (bufio.r_size b) k then k else bufio.r_size b in
    let '((sd, se), rd') := io.Read rd m in
    if N.leb (bufio.r_size b) k || Nat.eqb (length sd) 0
    then ((sd, se), bufio.mkReader (bufio.r_size b) [] None, rd', [ev_Read m])
    else ((firstn (N.to_nat k) sd, None),
          bufio.mkReader (bufio.r_size b) (skipn (N.to_nat k) sd) se,
          rd', [ev_Read m]).
Proof.
  intros Hb He Hk. unfold bufio.Read, bufio.readErr, bufio.copy_out.
  apply N.eqb_neq in Hk. rewrite Hk, Hb, He. simpl.
  destruct (N.leb (bufio.r_size b) k); simpl.
  - destruct (io.Read rd k) as [[sd se] rd']. reflexivity.
  - destruct (io.Read rd (bufio.r_size b)) as [[sd se] rd'].
    destruct sd; reflexivity.
Qed.

(** A pending error comes out of a drained Reader with no bytes and without
    a Read of the source, and is pending no longer. *)
Lemma bufio_Read_pending {R : Type} `{io.Reader R}
    (b : bufio.Reader) (rd : R) (k : N) (x : error) :
  bufio.r_buf b = [] -> bufio.r_err b = Some x ->
  bufio.Read b rd k
  = (([], Some x), bufio.mkReader (bufio.r_size b) [] None, rd, []).
Proof.
  intros Hb He. unfold bufio.Read, bufio.readErr, bufio.copy_out.
  rewrite Hb, He. destruct (N.eqb k 0); reflexivity.
Qed.

(** Buffered bytes are handed out without a Read of the source; what is
    pending stays pending. *)
Lemma bufio_Read_buffered {R : Type} `{io.Reader R}
    (b : bufio.Reader) (rd : R) (k : N) :
  bufio.r_buf b <> [] ->
  bufio.Read b rd k
  = ((firstn (N.to_nat k) (bufio.r_buf b), None),
     bufio.mkReader (bufio.r_size b) (skipn (N.to_nat k) (bufio.r_buf b))
                    (bufio.r_err b),
     rd, []).
Proof.
  intros Hne. unfold bufio.Read, bufio.readErr, bufio.copy_out.
  destruct (N.eqb k 0) eqn:Hk.
  - apply N.eqb_eq in Hk. subst k. destruct b as [sz buf er]. simpl in *.
    destruct buf; [contradiction|reflexivity].
  - destruct (bufio.r_buf b); [contradiction|reflexivity].
Qed.

(** A Write that has to reach the sink and gets an error from it returns
    that error and keeps it. *)
Lemma bufio_Write_sink_error {W : Type} `{io.Writer W}
    (b : bufio.Writer) (wr wr' : W) (p : list byte) (sn : nat) (x : error) :
  bufio.w_err b = None ->
  (bufio.Available b < N.of_nat (length p))%N ->
  io.Write wr (if Nat.eqb (bufio.Buffered b) 0 then p
               else bufio.w_buf b ++ firstn (bufio.copy_count b p) p)
  = ((sn, Some x), wr') ->
  bufio.Write b wr p
  = if Nat.eqb (bufio.Buffered b) 0
    then ((sn, Some x),
          bufio.mkWriter (bufio.w_size b) (bufio.w_buf b) (Some x),
          wr', [ev_Write p])
    else ((bufio.copy_count b p, Some x),
          bufio.mkWriter (bufio.w_size b)
            (skipn sn (bufio.w_buf b ++ firstn (bufio.copy_count b p) p))
            (Some x),
          wr', [ev_Write (bufio.w_buf b ++ firstn (bufio.copy_count b p) p)]).
Proof.
  intros He Hav Hw. unfold bufio.Write. cbn [bufio.Write_loop].
  apply N.ltb_lt in Hav. rewrite Hav, He. cbn [is_nil andb].
  destruct (Nat.eqb (bufio.Buffered b) 0) eqn:Hz.
  - rewrite Hw. cbn [bufio.w_err is_nil]. rewrite andb_false_r.
    cbn [bufio.w_err]. reflexivity.
  - unfold bufio.Flush. cbn [bufio.w_err bufio.w_buf bufio.w_size].
    assert (Hz1 : Nat.eqb (bufio.Buffered
                    (bufio.mkWriter (bufio.w_size b)
                       (bufio.w_buf b ++ firstn (bufio.copy_count b p) p)
                       None)) 0 = false).
    { apply Nat.eqb_neq in Hz. apply Nat.eqb_neq. unfold bufio.Buffered in *.
      simpl. rewrite length_app. lia. }
    rewrite Hz1, Hw. cbn [is_nil]. rewrite andb_false_r.
    cbn [bufio.w_err is_nil]. rewrite andb_false_r. cbn [bufio.w_err].
    reflexivity.
Qed.

Lemma Write_on_latched_buffer {W : Type} `{io.Writer W} (bw : BufferedWriter W)
    (b : bufio.Writer) (x : error) (p : list byte) :
  bw_err bw = None ->
  bw_buf bw = bufio.Writer_around b ->
  bufio.w_err b = Some x ->
  BufferedWriter_Write bw p = ((0, Some x), bw, [])
  /\ BufferedWriter_Flush bw
     = (Some x,
        mkBufferedWriter (bw_dst bw) (bw_dstAt bw) (bw_buf bw)
                         (bw_callbacks bw) (Some x) (bw_closed bw),
        []).
Proof.
  intros Hnil Hb Hx. split.
  - unfold BufferedWriter_Write. rewrite Hnil, Hb. simpl.
    rewrite (bufio_Write_latched _ _ _ x Hx).
    unfold bw_deliver. simpl. destruct bw; simpl in *. subst. reflexivity.
  - unfold BufferedWriter_Flush. rewrite Hnil, Hb. simpl.
    rewrite (bufio_Flush_latched _ _ x Hx). reflexivity.
Qed.

(** C8, as the code has it.  A sequential Read or Write returns the byte
    count of its bufio layer and, unless the observer dispatch of those
    bytes fails, the error of that layer; the sticky slot receives the
    dispatch error only, so an error of the stream is never stored in it
    (parts 1 and 2).  On a read engine whose own buffer is drained, an error
    the source returns without data, or on a direct read into a [p] of at
    least the buffer's size, is what that Read returns; an error the source
    returns together with data read into the buffer is kept by
    bufio.Reader: that Read returns bytes and nil (part 3), the Reads that
    follow hand out the buffered bytes without touching the source, and
    the Read on the drained buffer returns the kept error with no bytes and
    still without touching the source (part 4).  Once an error has come out
    of a Read and the slot is empty, the next Read with a non-empty [p]
    calls the source again (part 5).  On a write engine with a buffer of its
    own, an error of the sink on a Write that has to reach it is what that
    Write returns, and bufio.Writer keeps it (part 6): every later Write
    returns it with 0 bytes without calling the sink, and the Flush that
    follows stores it in the sticky slot (part 7). *)
Theorem stream_errors_not_stored_in_slot :
  (forall (R : Type) (HR : io.Reader R) (br : BufferedReader R) (len_p : N),
      br_err br = None ->
      let '((d, e), _, _, _) := bufio.ReadPtr (br_buf br) (br_src br) len_p in
      let '((d1, e1), br1, _) := BufferedReader_Read br len_p in
      d1 = d
      /\ br_err br1 = dispatch_error (br_callbacks br) d (length d)
      /\ e1 = match dispatch_error (br_callbacks br) d (length d) with
              | Some ce => Some ce
              | None => e
              end)
  /\ (forall (W : Type) (HW : io.Writer W) (bw : BufferedWriter W)
             (p : list byte),
         bw_err bw = None ->
         let '((n, e), _, _, _) := bufio.WritePtr (bw_buf bw) (bw_dst bw) p in
         let '((n1, e1), bw1, _) := BufferedWriter_Write bw p in
         n1 = n
         /\ bw_err bw1 = dispatch_error (bw_callbacks bw) (firstn n p) n
         /\ e1 = match dispatch_error (bw_callbacks bw) (firstn n p) n with
                 | Some ce => Some ce
                 | None => e
                 end)
  /\ (forall (R : Type) (HR : io.Reader R) (br : BufferedReader R)
             (b : bufio.Reader) (len_p : N) (x : error),
         br_err br = None ->
         br_buf br = bufio.Reader_around b ->
         bufio.r_buf b = [] -> bufio.r_err b = None -> len_p <> 0%N ->
         let m := if N.leb (bufio.r_size b) len_p then len_p
                  else bufio.r_size b in
         let '((sd, se), src') := io.Read (br_src br) m in
         se = Some x ->
         let '((d, e), br1, tr) := BufferedReader_Read br len_p in
         stream_calls tr = [ev_Read m]
         /\ br_src br1 = src'
         /\ br_err br1 = dispatch_error (br_callbacks br) d (length d)
         /\ if N.leb (bufio.r_size b) len_p || Nat.eqb (length sd) 0
            then
              d = sd
              /\ e = match dispatch_error (br_callbacks br) d (length d) with
                     | Some ce => Some ce
                     | None => Some x
                     end
              /\ br_buf br1
                 = bufio.Reader_around
                     (bufio.mkReader (bufio.r_size b) [] None)
            else
              d = firstn (N.to_nat len_p) sd
              /\ e = dispatch_error (br_callbacks br) d (length d)
              /\ br_buf br1
                 = bufio.Reader_around
                     (bufio.mkReader (bufio.r_size b)
                                     (skipn (N.to_nat len_p) sd) (Some x)))
  /\ (forall (R : Type) (HR : io.Reader R) (br : BufferedReader R)
             (b : bufio.Reader) (len_p : N) (x : error),
         br_err br = None ->
         br_buf br = bufio.Reader_around b ->
         bufio.r_err b = Some x ->
         match bufio.r_buf b with
         | [] =>
             BufferedReader_Read br len_p
             = (([], Some x),
                mkBufferedReader (br_src br) (br_srcAt br)
                  (bufio.Reader_around
                     (bufio.mkReader (bufio.r_size b) [] None))
                  (br_callbacks br) None,
                [])
         | _ :: _ =>
             let '((d, e), br1, tr) := BufferedReader_Read br len_p in
             stream_calls tr = []
             /\ br_src br1 = br_src br
             /\ d = firstn (N.to_nat len_p) (bufio.r_buf b)
             /\ e = dispatch_error (br_callbacks br) d (length d)
             /\ br_err br1 = dispatch_error (br_callbacks br) d (length d)
             /\ br_buf br1
                = bufio.Reader_around
                    (bufio.mkReader (bufio.r_size b)
                       (skipn (N.to_nat len_p) (bufio.r_buf b)) (Some x))
         end)
  /\ (forall (R : Type) (HR : io.Reader R) (br : BufferedReader R) (len_p : N),
         br_err br = None ->
         let '((_, e), br1, _) := BufferedReader_Read br len_p in
         e <> None -> br_err br1 = None ->
         forall len_p' : N, len_p' <> 0%N ->
           exists m : N,
             stream_calls (snd (BufferedReader_Read br1 len_p')) = [ev_Read m])
  /\ (forall (W : Type) (HW : io.Writer W) (bw : BufferedWriter W)
             (b : bufio.Writer) (p : list byte) (x : error),
         bw_err bw = None ->
         bw_buf bw = bufio.Writer_around b ->
         bufio.w_err b = None ->
         (bufio.Available b < N.of_nat (length p))%N ->
         let q := if Nat.eqb (bufio.Buffered b) 0 then p
                  else bufio.w_buf b ++ firstn (bufio.copy_count b p) p in
         let '((sn, se), dst') := io.Write (bw_dst bw) q in
         se = Some x ->
         let '((n, e), bw1, tr) := BufferedWriter_Write bw p in
         stream_calls tr = [ev_Write q]
         /\ bw_dst bw1 = dst'
         /\ n = (if Nat.eqb (bufio.Buffered b) 0 then sn
                 else bufio.copy_count b p)
         /\ bw_err bw1 = dispatch_error (bw_callbacks bw) (firstn n p) n
         /\ e = match dispatch_error (bw_callbacks bw) (firstn n p) n with
                | Some ce => Some ce
                | None => Some x
                end
         /\ exists b1 : bufio.Writer,
              bw_buf bw1 = bufio.Writer_around b1
              /\ bufio.w_err b1 = Some x)
  /\ (forall (W : Type) (HW : io.Writer W) (bw : BufferedWriter W)
             (b : bufio.Writer) (p : list byte),
         bw_err bw = None ->
         bw_buf bw = bufio.Writer_around b ->
         let '((_, e), bw1, _) := BufferedWriter_Write bw p in
         e <> None -> bw_err bw1 = None ->
         (forall p' : list byte,
             BufferedWriter_Write bw1 p' = ((0, e), bw1, []))
         /\ BufferedWriter_Flush bw1
            = (e,
               mkBufferedWriter (bw_dst bw1) (bw_dstAt bw1) (bw_buf bw1)
                                (bw_callbacks bw1) e (bw_closed bw1),
               [])).
Proof.
  split; [|split; [|split; [|split; [|split; [|split]]]]].
  - intros R HR br k Hnil.
    pose proof (Read_returns br k Hnil) as HR1.
    destruct (bufio.ReadPtr (br_buf br) (br_src br) k)
      as [[[[d e] b'] src'] tr].
    destruct (BufferedReader_Read br k) as [[[d1 e1] br1] tr1].
    destruct HR1 as [Hd [Hs [He _]]]. repeat split; assumption.
  - intros W HW bw p Hnil.
    pose proof (Write_returns bw p Hnil) as HW1.
    destruct (bufio.WritePtr (bw_buf bw) (bw_dst bw) p)
      as [[[[n e] b'] dst'] tr].
    destruct (BufferedWriter_Write bw p) as [[[n1 e1] bw1] tr1].
    destruct HW1 as [Hn [Hs [He _]]]. repeat split; assumption.
  - intros R HR br b k x Hnil Hbuf Hb He Hk. cbv zeta.
    pose proof (Read_returns br k Hnil) as HR1.
    pose proof (Read_stream_calls br k Hnil) as HS1.
    rewrite Hbuf in HR1, HS1. simpl in HR1, HS1.
    rewrite (bufio_Read_drained b (br_src br) k Hb He Hk) in HR1, HS1.
    cbv zeta in HR1, HS1.
    destruct (io.Read (br_src br)
                (if N.leb (bufio.r_size b) k then k else bufio.r_size b))
      as [[sd se] src'].
    intros ->.
    destruct (BufferedReader_Read br k) as [[[d e] br1] tr].
    destruct (N.leb (bufio.r_size b) k || Nat.eqb (length sd) 0);
      simpl in HR1, HS1;
      destruct HR1 as [Hd [Hs [He1 [Hb1 Hsrc]]]]; subst d;
      repeat split; try assumption.
    rewrite He1. destruct (dispatch_error _ _ _); reflexivity.
  - intros R HR br b k x Hnil Hbuf He.
    destruct (bufio.r_buf b) as [|y l] eqn:Hb.
    + unfold BufferedReader_Read. rewrite Hnil, Hbuf. simpl.
      rewrite (bufio_Read_pending b (br_src br) k x Hb He).
      unfold br_deliver. simpl. reflexivity.
    + pose proof (Read_returns br k Hnil) as HR1.
      pose proof (Read_stream_calls br k Hnil) as HS1.
      rewrite Hbuf in HR1, HS1. simpl in HR1, HS1.
      rewrite (bufio_Read_buffered b (br_src br) k) in HR1, HS1
        by (rewrite Hb; discriminate).
      rewrite Hb, He in HR1. simpl in HR1, HS1.
      destruct (BufferedReader_Read br k) as [[[d e] br1] tr].
      destruct HR1 as [Hd [Hs [He1 [Hb1 Hsrc]]]]. subst d.
      repeat split; try assumption.
      rewrite He1. destruct (dispatch_error _ _ _); reflexivity.
  - intros R HR br k Hnil.
    pose proof (Read_returns br k Hnil) as HR1.
    destruct (bufio.ReadPtr (br_buf br) (br_src br) k)
      as [[[[d e] b'] src'] tr] eqn:HB.
    destruct (BufferedReader_Read br k) as [[[d1 e1] br1] tr1].
    destruct HR1 as [Hd [Hs [He [Hbuf Hsrc]]]].
    intros Hne Hslot k' Hk'.
    rewrite Hslot in Hs. rewrite <- Hs in He. subst e1.
    destruct e as [x|]; [|contradiction].
    rewrite (Read_stream_calls br1 k' Hslot), Hbuf.
    destruct (br_buf br) as [|b0]; simpl in HB.
    + destruct (io.Read (br_src br) k) as [r0 rd0].
      injection HB as _ <- _ _. simpl.
      destruct (io.Read (br_src br1) k') as [r1 rd1]. eexists. reflexivity.
    + destruct (bufio.Read b0 (br_src br) k) as [[[r0 b1] rd0] tr0] eqn:HB0.
      injection HB as -> <- _ _.
      destruct (bufio_Read_error_drains _ _ _ _ _ _ _ _ HB0) as [Hb' He'].
      simpl.
      pose proof (bufio_Read_drained_reads_source b1 (br_src br1) k'
                    Hb' He' Hk') as HD.
      destruct (bufio.Read b1 (br_src br1) k') as [[[r1 b2] rd1] tr1'].
      simpl in HD |- *. rewrite HD. eexists. reflexivity.
  - intros W HW bw b p x Hnil Hbuf He Hav. cbv zeta.
    pose proof (Write_returns bw p Hnil) as HW1.
    pose proof (Write_stream_calls bw p Hnil) as HS1.
    rewrite Hbuf in HW1, HS1. simpl in HW1, HS1.
    destruct (io.Write (bw_dst bw)
                (if Nat.eqb (bufio.Buffered b) 0 then p
                 else bufio.w_buf b ++ firstn (bufio.copy_count b p) p))
      as [[sn se] dst'] eqn:Hw.
    intros ->.
    rewrite (bufio_Write_sink_error b (bw_dst bw) dst' p sn x He Hav Hw)
      in HW1, HS1.
    destruct (BufferedWriter_Write bw p) as [[[n e] bw1] tr].
    destruct (Nat.eqb (bufio.Buffered b) 0);
      simpl in HW1, HS1;
      destruct HW1 as [Hn [Hs [He1 [Hb1 Hdst]]]]; subst n;
      repeat split; try assumption;
      eexists; (split; [exact Hb1|reflexivity]).
  - intros W HW bw b p Hnil Hbuf.
    pose proof (Write_returns bw p Hnil) as HW1.
    rewrite Hbuf in HW1. simpl in HW1.
    destruct (bufio.Write b (bw_dst bw) p) as [[[[n e] b'] dst'] tr] eqn:HB.
    destruct (BufferedWriter_Write bw p) as [[[n1 e1] bw1] tr1].
    destruct HW1 as [Hn [Hs [He [Hbuf1 Hdst]]]].
    intros Hne Hslot.
    rewrite Hslot in Hs. rewrite <- Hs in He. subst e1.
    destruct e as [x|]; [|contradiction].
    pose proof (bufio_Write_error_latched _ _ _ _ _ _ _ _ HB) as Hl.
    split.
    + intros p'. apply (Write_on_latched_buffer bw1 b' x p' Hslot Hbuf1 Hl).
    + apply (Write_on_latched_buffer bw1 b' x [] Hslot Hbuf1 Hl).
Qed.

(** C8 as stated fails in three places.  On [short_read_reader] the source
    returns its two bytes together with an error in one Read; the engine
    returns the two bytes with a nil error, the next Read returns the
    source's error without any call to the source, and only the third Read
    reads the source again.  On [last_chunk_reader] the same source is read
    directly and the observer rejects the bytes: Read returns the observer's
    error, not the source's.  On [broken_sink_writer] the sink fails on the
    first Write; the slot stays empty, yet the next Write does not reach the
    sink: the error comes back from bufio.Writer with 0 bytes and an empty
    trace. *)
Lemma stream_error_claim_counterexample :
  (let '((d1, e1), br1, tr1) := BufferedReader_Read short_read_reader 5 in
   let '((d2, e2), br2, tr2) := BufferedReader_Read br1 5 in
   let '(_, _, tr3) := BufferedReader_Read br2 5 in
   fst (io.Read (br_src short_read_reader) (32 * 1024))
   = (bytes_of "hi", Some (errors.New "connection reset"))
   /\ d1 = bytes_of "hi" /\ e1 = None /\ tr1 = [ev_Read (32 * 1024)]
   /\ d2 = [] /\ e2 = Some (errors.New "connection reset") /\ tr2 = []
   /\ br_err br2 = None
   /\ tr3 = [ev_Read (32 * 1024)])
  /\ (let '((d, e), _, tr) :=
        BufferedReader_Read last_chunk_reader (32 * 1024) in
      d = bytes_of "hi"
      /\ tr = [ev_Read (32 * 1024); ev_OnData 0 (bytes_of "hi")]
      /\ e = Some (errors.New "oops")
      /\ e <> Some (errors.New "connection reset"))
  /\ (let '((n1, e1), bw1, tr1) :=
        BufferedWriter_Write broken_sink_writer oversized in
      let '((n2, e2), _, tr2) := BufferedWriter_Write bw1 (bytes_of "x") in
      e1 = Some (errors.New "write error")
      /\ match tr1 with [ev_Write _] => True | _ => False end
      /\ bw_err bw1 = None
      /\ n2 = 0 /\ e2 = Some (errors.New "write error") /\ tr2 = []).
Proof. vm_compute. repeat split. discriminate. Qed.

(** ** TeeReader *)

Lemma tee_dispatch_cached {W : Type} `{io.Writer W} (w : W) (e : error)
    (cbs : list ReadCallback) (d : list byte) :
  dispatch (as_callback (mkTee w (Some e)) :: cbs) d
  = (Some e, as_callback (mkTee w (Some e)) :: cbs, [ev_OnData 0 d]).
Proof. reflexivity. Qed.

Lemma tee_dispatch_fails {W : Type} `{io.Writer W} (w w' : W) (n : nat)
    (e : error) (cbs : list ReadCallback) (d : list byte) :
  io.Write w d = ((n, Some e), w') ->
  dispatch (as_callback (mkTee w None) :: cbs) d
  = (Some e, as_callback (mkTee w' (Some e)) :: cbs, [ev_OnData 0 d]).
Proof.
  intros Hw. unfold dispatch. simpl. unfold cb_OnData. simpl.
  unfold teeWriterCallback_OnData. simpl. rewrite Hw. reflexivity.
Qed.

Lemma tee_dispatch_passes {W : Type} `{io.Writer W} (w w' : W) (n : nat)
    (cbs : list ReadCallback) (d : list byte) :
  io.Write w d = ((n, None), w') ->
  dispatch (as_callback (mkTee w None) :: cbs) d
  = let '(x, cbs', tr) := dispatch_loop 1 cbs d in
    (match x with
     | Returned e => e
     | Panicked v =>
         Some (errors.New
                 (String.append "callback panic: " (formatPanic (Some v))))
     end,
     as_callback (mkTee w' None) :: cbs', ev_OnData 0 d :: tr).
Proof.
  intros Hw. unfold dispatch. simpl. unfold cb_OnData. simpl.
  unfold teeWriterCallback_OnData. simpl. rewrite Hw.
  destruct (dispatch_loop 1 cbs d) as [[x cbs'] tr]. destruct x; reflexivity.
Qed.

Lemma tee_dispatch_first {W : Type} `{io.Writer W} (w : W)
    (ptr : option error) (cbs : list ReadCallback) (d : list byte) :
  hd_error (snd (dispatch (as_callback (mkTee w ptr) :: cbs) d))
  = Some (ev_OnData 0 d).
Proof.
  destruct ptr as [e|]; [reflexivity|].
  destruct (io.Write w d) as [[n [e|]] w'] eqn:Hw.
  - rewrite (tee_dispatch_fails w w' n e cbs d Hw). reflexivity.
  - rewrite (tee_dispatch_passes w w' n cbs d Hw).
    destruct (dispatch_loop 1 cbs d) as [[x cbs'] tr]. reflexivity.
Qed.

(** C4, as the code has it.  TeeReader registers the mirror observer in
    front of the caller's observers, so on every chunk the mirror's OnData,
    and with it the write to the mirror sink, comes first.  When that write
    fails the mirror keeps the error (and returns it later without writing
    again), and the dispatch ends there: the observers behind the mirror are
    not called with that chunk and stay as they were, Read returns the bytes
    with the mirror's error and stores it in the engine's sticky slot, and from
    then on no call of the engine reads the source or calls an observer.
    Only when the mirror write succeeds does the chunk go on to the other
    observers. *)
Theorem tee_mirror_first_and_failure_halts :
  forall (R W : Type) (HR : ReaderType R) (HW : io.Writer W),
    (forall (r : R) (w : W) (cbs : list ReadCallback),
        TeeReader r w cbs
        = buffered_reader (NewReader r (as_callback (mkTee w None) :: cbs)))
    /\ (forall (w : W) (ptr : option error) (cbs : list ReadCallback)
               (d : list byte),
           hd_error (snd (dispatch (as_callback (mkTee w ptr) :: cbs) d))
           = Some (ev_OnData 0 d))
    /\ (forall (w w' : W) (n : nat) (e : error) (cbs : list ReadCallback)
               (d : list byte),
           io.Write w d = ((n, Some e), w') ->
           dispatch (as_callback (mkTee w None) :: cbs) d
           = (Some e, as_callback (mkTee w' (Some e)) :: cbs, [ev_OnData 0 d]))
    /\ (forall (w : W) (e : error) (cbs : list ReadCallback) (d : list byte),
           dispatch (as_callback (mkTee w (Some e)) :: cbs) d
           = (Some e, as_callback (mkTee w (Some e)) :: cbs, [ev_OnData 0 d]))
    /\ (forall (w w' : W) (n : nat) (cbs : list ReadCallback) (d : list byte),
           io.Write w d = ((n, None), w') ->
           dispatch (as_callback (mkTee w None) :: cbs) d
           = let '(x, cbs', tr) := dispatch_loop 1 cbs d in
             (match x with
              | Returned e => e
              | Panicked v =>
                  Some (errors.New
                          (String.append "callback panic: "
                                         (formatPanic (Some v))))
              end,
              as_callback (mkTee w' None) :: cbs', ev_OnData 0 d :: tr))
    /\ (forall (br : BufferedReader R) (len_p : N) (w w' : W) (n : nat)
               (e : error) (cbs : list ReadCallback),
           br_err br = None ->
           br_callbacks br = as_callback (mkTee w None) :: cbs ->
           let '((d, _), b', src', tr0) :=
             bufio.ReadPtr (br_buf br) (br_src br) len_p in
           d <> [] ->
           io.Write w d = ((n, Some e), w') ->
           BufferedReader_Read br len_p
           = ((d, Some e),
              mkBufferedReader src' (br_srcAt br) b'
                (as_callback (mkTee w' (Some e)) :: cbs) (Some e),
              tr0 ++ [ev_OnData 0 d]))
    /\ (forall (br : BufferedReader R) (e : error) (ops : list reader_op),
           br_err br = Some e ->
           snd (run_reader_ops br ops) = []
           /\ snd (fst (run_reader_ops br ops)) = br).
Proof.
  intros R W HR HW. split; [|split; [|split; [|split; [|split; [|split]]]]].
  - intros r w cbs. reflexivity.
  - intros. apply tee_dispatch_first.
  - intros w w' n e cbs d Hw. apply (tee_dispatch_fails w w' n e cbs d Hw).
  - intros. apply tee_dispatch_cached.
  - intros w w' n cbs d Hw. apply (tee_dispatch_passes w w' n cbs d Hw).
  - intros br k w w' n e cbs Hnil Hcbs.
    unfold BufferedReader_Read. rewrite Hnil.
    destruct (bufio.ReadPtr (br_buf br) (br_src br) k) as [[[[d e0] b'] src'] tr0].
    intros Hd Hw. unfold br_deliver. simpl br_callbacks. rewrite Hcbs.
    destruct d as [|x d']; [contradiction|].
    change (Nat.ltb 0 (length (x :: d'))) with true.
    cbv beta iota. simpl andb. cbv beta iota.
    rewrite (tee_dispatch_fails w w' n e cbs (x :: d') Hw). reflexivity.
  - intros br e ops Hs. rewrite (run_reader_ops_sticky e ops br Hs).
    split; reflexivity.
Qed.

(** C4 as stated fails.  On [tee_broken_mirror] the first Read delivers
    "hello" and the mirror's error; the only observer call is the mirror's
    (number 0), the observer behind it (number 1) has recorded no chunk, and
    the next Read returns the same error without reading or dispatching. *)
Lemma tee_claim_counterexample :
  match engine_of tee_broken_mirror with
  | None => False
  | Some br =>
      let '((d1, e1), br1, tr1) := BufferedReader_Read br 5 in
      let '((d2, e2), _, tr2) := BufferedReader_Read br1 5 in
      d1 = bytes_of "hello"
      /\ e1 = Some (errors.New "mirror error")
      /\ observer_calls tr1 = [(0, bytes_of "hello")]
      /\ map cb_Name (br_callbacks br1) = ["_tee_writer"; "extra"]
      /\ map cb_Result (br_callbacks br1) = [any_nil; any_int 0]
      /\ d2 = [] /\ e2 = Some (errors.New "mirror error") /\ tr2 = []
  end.
Proof. vm_compute. repeat split. Qed.

(** ** Hash observers *)

Lemma NewHashCallback_default `{Crypto} (algorithm : string) :
  algorithm <> "md5" -> algorithm <> "sha1" -> algorithm <> "sha512" ->
  NewHashCallback algorithm
  = mkHashCallback "sha256" (hash.mkHash sha256_Sum []).
Proof.
  intros H1 H2 H3. unfold NewHashCallback.
  apply String.eqb_neq in H1, H2, H3. rewrite H1, H2, H3.
  destruct (String.eqb algorithm "sha256") eqn:H4; [|reflexivity].
  apply String.eqb_eq in H4. subst algorithm. reflexivity.
Qed.

Lemma observe_HashCallback (chunks : list (list byte)) :
  forall hc : HashCallback,
    Forall (fun o => o = Return None) (fst (observe hc chunks))
    /\ hc_name (snd (observe hc chunks)) = hc_name hc
    /\ hash.digest (hc_h (snd (observe hc chunks))) = hash.digest (hc_h hc)
    /\ hash.written (hc_h (snd (observe hc chunks)))
       = hash.written (hc_h hc) ++ concat chunks.
Proof.
  induction chunks as [|c rest IH]; intros hc; simpl.
  - repeat split; [constructor|]. apply eq_sym, app_nil_r.
  - specialize (IH (mkHashCallback (hc_name hc) (hash.Write (hc_h hc) c))).
    destruct (observe (mkHashCallback (hc_name hc) (hash.Write (hc_h hc) c)) rest)
      as [os hc'].
    simpl in *. destruct IH as [IH1 [IH2 [IH3 IH4]]].
    repeat split; [constructor; [reflexivity|exact IH1]|exact IH2|exact IH3|].
    rewrite IH4. apply eq_sym, app_assoc.
Qed.

(** C9.  For an algorithm name other than "md5", "sha1" and "sha512" (so for
    "sha256" and for every unknown name) NewHashCallback returns, without any
    error, a hash observer named "sha256" over a fresh SHA-256 state; its
    OnData always returns nil, and after any sequence of chunks its name is
    still "sha256" and its Result is the SHA-256 digest of the bytes it has
    observed. *)
Theorem NewHashCallback_unknown_falls_back_to_sha256 :
  forall (C : Crypto) (algorithm : string) (chunks : list (list byte)),
    algorithm <> "md5" -> algorithm <> "sha1" -> algorithm <> "sha512" ->
    Name (NewHashCallback algorithm) = "sha256"
    /\ NewHashCallback algorithm = NewHashCallback "sha256"
    /\ Forall (fun o => o = Return None)
              (fst (observe (NewHashCallback algorithm) chunks))
    /\ Name (snd (observe (NewHashCallback algorithm) chunks)) = "sha256"
    /\ Result (snd (observe (NewHashCallback algorithm) chunks))
       = any_bytes (sha256_Sum (concat chunks)).
Proof.
  intros C algorithm chunks H1 H2 H3.
  rewrite (NewHashCallback_default algorithm H1 H2 H3).
  destruct (observe_HashCallback chunks
              (mkHashCallback "sha256" (hash.mkHash sha256_Sum [])))
    as [HF [HN [HD HW]]].
  repeat split; try assumption.
  simpl. unfold hash.Sum. rewrite HD, HW. reflexivity.
Qed.

(** ** Results snapshots *)

Lemma results_fold_lookup (k : string) (cbs : list ReadCallback) :
  forall out : gmap string any,
    foldl (fun out cb => <[cb_Name cb := cb_Result cb]> out) out cbs !! k
    = match last_named k cbs with
      | Some cb => Some (cb_Result cb)
      | None => out !! k
      end.
Proof.
  induction cbs as [|cb rest IH]; intros out; simpl; [reflexivity|].
  rewrite IH. destruct (last_named k rest) as [c|]; [reflexivity|].
  destruct (String.eqb (cb_Name cb) k) eqn:Hk.
  - apply String.eqb_eq in Hk. subst k. apply lookup_insert_eq.
  - apply String.eqb_neq in Hk. apply lookup_insert_ne. exact Hk.
Qed.





(** * The statements at concrete engines *)

Lemma dispatch_once_in_registration_order_witness :
  let cbs := [recorder "cb1"; failing "cb2" "cb2 error"; recorder "cb3"] in
  (cbs !! 0 = Some (recorder "cb1")
   /\ snd (fst (dispatch cbs (bytes_of "test"))) !! 0
      = Some (snd (cb_OnData (recorder "cb1") (bytes_of "test"))))
  /\ (cbs !! 2 = Some (recorder "cb3")
      /\ snd (fst (dispatch cbs (bytes_of "test"))) !! 2
         = Some (recorder "cb3")).
Proof.
  cbv zeta. split; (split; [reflexivity|]).
  - exact (proj1 (proj2 (proj2 (proj2
             (proj1 dispatch_once_in_registration_order
                [recorder "cb1"; failing "cb2" "cb2 error"; recorder "cb3"]
                (bytes_of "test")))))
           0 (recorder "cb1") eq_refl).
  - exact (proj1 (proj2 (proj2 (proj2
             (proj1 dispatch_once_in_registration_order
                [recorder "cb1"; failing "cb2" "cb2 error"; recorder "cb3"]
                (bytes_of "test")))))
           2 (recorder "cb3") eq_refl).
Defined.

Lemma dispatch_recovers_panic_witness :
  first_failing panic_in_the_middle (bytes_of "test") = Some 1
  /\ panic_in_the_middle !! 1 = Some (panicking "cb2" "panic error")
  /\ fst (cb_OnData (panicking "cb2" "panic error") (bytes_of "test"))
     = Panic (panic_string "panic error")
  /\ fst (fst (dispatch panic_in_the_middle (bytes_of "test")))
     = Some (errors.New "callback panic: panic error").
Proof.
  split; [reflexivity|]. split; [reflexivity|]. split; [reflexivity|].
  apply (proj1 dispatch_recovers_panic panic_in_the_middle (bytes_of "test") 1
           (panicking "cb2" "panic error") (panic_string "panic error")
           eq_refl eq_refl eq_refl).
Defined.

Lemma positional_access_unsupported_witness :
  (br_srcAt hello_reader = None
   /\ BufferedReader_ReadAt hello_reader 5 0
      = (([], Some (errors.New "ReadAt not supported")), hello_reader, []))
  /\ (bw_dstAt unclosable_writer = None
      /\ BufferedWriter_WriteAt unclosable_writer (bytes_of "abc") 7
         = ((0, Some (errors.New "WriteAt not supported")),
            unclosable_writer, []))
  /\ (@rt_ReaderAt mockReader _ = None
      /\ br_srcAt (NewReader (mkMockReader [] None) []) = None)
  /\ (@wt_WriterAt errorWriter _ = None
      /\ bw_dstAt (NewWriter (mkErrorWriter (errors.New "e")) []) = None).
Proof.
  destruct positional_access_unsupported as [H1 [H2 [H3 [H4 _]]]].
  split; [split; [reflexivity|apply H1; reflexivity]|].
  split; [split; [reflexivity|apply H2; reflexivity]|].
  split; [split; [reflexivity|apply H3; reflexivity]|].
  split; [reflexivity|apply H4; reflexivity].
Defined.

Lemma Close_only_first_call_works_witness :
  (bw_closed close_failing_writer = false
   /\ fst (fst (BufferedWriter_Close close_failing_writer))
      = Some (errors.New "close error")
   /\ snd (BufferedWriter_Close close_failing_writer)
      = [ev_Write (bytes_of "test data"); ev_Close])
  /\ (bw_closed closed_writer = true
      /\ BufferedWriter_Close closed_writer = (None, closed_writer, [])).
Proof.
  split.
  - split; [reflexivity|].
    pose proof (proj1 (Close_only_first_call_works mockCloser _
                         close_failing_writer) eq_refl) as H.
    destruct (BufferedWriter_Close close_failing_writer) as [[e1 bw1] tr1].
    vm_compute in H. destruct H as [He [_ Ht]]. split; assumption.
  - split; [reflexivity|].
    apply (proj1 (proj2 (proj2 (proj2
             (Close_only_first_call_works mockCloser _ closed_writer))))).
    reflexivity.
Defined.


Lemma stream_errors_not_stored_in_slot_witness :
  (br_err short_read_reader = None
   /\ br_buf short_read_reader
      = bufio.Reader_around (bufio.mkReader (32 * 1024) [] None)
   /\ fst (io.Read (br_src short_read_reader) (32 * 1024))
      = (bytes_of "hi", Some (errors.New "connection reset"))
   /\ fst (fst (BufferedReader_Read short_read_reader 5))
      = (bytes_of "hi", None)
   /\ br_err (snd (fst (BufferedReader_Read short_read_reader 5))) = None)
  /\ (br_buf (snd (fst (BufferedReader_Read short_read_reader 5)))
      = bufio.Reader_around
          (bufio.mkReader (32 * 1024) []
                          (Some (errors.New "connection reset")))
      /\ fst (fst (BufferedReader_Read
                     (snd (fst (BufferedReader_Read short_read_reader 5))) 5))
         = ([], Some (errors.New "connection reset"))
      /\ snd (BufferedReader_Read
                (snd (fst (BufferedReader_Read short_read_reader 5))) 5)
         = [])
  /\ (br_err broken_source_reader = None
      /\ let '((_, e), br1, _) := BufferedReader_Read broken_source_reader 5 in
         e = Some (errors.New "read error") /\ br_err br1 = None
         /\ exists m : N,
              stream_calls (snd (BufferedReader_Read br1 5)) = [ev_Read m])
  /\ (bw_err broken_sink_writer = None
      /\ bw_buf broken_sink_writer
         = bufio.Writer_around (bufio.mkWriter (32 * 1024) [] None)
      /\ let '((_, e), bw1, _) :=
           BufferedWriter_Write broken_sink_writer oversized in
         e = Some (errors.New "write error") /\ bw_err bw1 = None
         /\ BufferedWriter_Write bw1 (bytes_of "x") = ((0, e), bw1, []))
  /\ (br_err hello_reader = None
      /\ fst (fst (fst (BufferedReader_Read hello_reader 5)))
         = fst (fst (fst (fst (bufio.ReadPtr (br_buf hello_reader)
                                             (br_src hello_reader) 5)))))
  /\ (bw_err recording_writer = None
      /\ fst (fst (fst (BufferedWriter_Write recording_writer
                                             (bytes_of "hello"))))
         = fst (fst (fst (fst (bufio.WritePtr (bw_buf recording_writer)
                                              (bw_dst recording_writer)
                                              (bytes_of "hello"))))))
  /\ (bw_err broken_sink_writer = None
      /\ bw_buf broken_sink_writer
         = bufio.Writer_around (bufio.mkWriter (32 * 1024) [] None)
      /\ (bufio.Available (bufio.mkWriter (32 * 1024) [] None)
          < N.of_nat (length oversized))%N
      /\ snd (fst (io.Write (bw_dst broken_sink_writer) oversized))
         = Some (errors.New "write error")
      /\ stream_calls (snd (BufferedWriter_Write broken_sink_writer oversized))
         = [ev_Write oversized]
      /\ exists b1 : bufio.Writer,
           bw_buf (snd (fst (BufferedWriter_Write broken_sink_writer
                                                  oversized)))
           = bufio.Writer_around b1
           /\ bufio.w_err b1 = Some (errors.New "write error")).
Proof.
  destruct stream_errors_not_stored_in_slot
    as [H1 [H2 [H3 [H4 [H5 [H6 H7]]]]]].
  assert (Hr1 : br_buf (snd (fst (BufferedReader_Read short_read_reader 5)))
                = bufio.Reader_around
                    (bufio.mkReader (32 * 1024) []
                                    (Some (errors.New "connection reset"))))
    by reflexivity.
  assert (Hs1 : br_err (snd (fst (BufferedReader_Read short_read_reader 5)))
                = None) by reflexivity.
  split; [|split; [|split; [|split; [|split; [|split]]]]].
  - split; [reflexivity|]. split; [reflexivity|]. split; [reflexivity|].
    specialize (H3 dataErrReader _ short_read_reader
                   (bufio.mkReader (32 * 1024) [] None) 5%N
                   (errors.New "connection reset")
                   eq_refl eq_refl eq_refl eq_refl ltac:(discriminate)).
    cbv zeta in H3.
    change (if N.leb (bufio.r_size (bufio.mkReader (32 * 1024) [] None)) 5
            then 5%N
            else bufio.r_size (bufio.mkReader (32 * 1024) [] None))
      with (32 * 1024)%N in H3.
    destruct (io.Read (br_src short_read_reader) (32 * 1024))
      as [[sd se] src'] eqn:Hsrc.
    assert (Hsd : sd = bytes_of "hi")
      by (apply (f_equal (fun r => fst (fst r))) in Hsrc; symmetry; exact Hsrc).
    assert (Hse : se = Some (errors.New "connection reset"))
      by (apply (f_equal (fun r => snd (fst r))) in Hsrc; symmetry; exact Hsrc).
    specialize (H3 Hse). subst sd.
    revert H3 Hs1.
    destruct (BufferedReader_Read short_read_reader 5) as [[[d e] br1] tr].
    simpl. intros [_ [_ [_ [Hd [He _]]]]] Hslot.
    split; [|exact Hslot]. subst d. rewrite He. reflexivity.
  - split; [exact Hr1|].
    specialize (H4 dataErrReader _
                   (snd (fst (BufferedReader_Read short_read_reader 5)))
                   (bufio.mkReader (32 * 1024) []
                                   (Some (errors.New "connection reset")))
                   5%N (errors.New "connection reset") Hs1 Hr1 eq_refl).
    simpl bufio.r_buf in H4. cbv iota in H4. rewrite H4. split; reflexivity.
  - split; [reflexivity|].
    specialize (H5 mockReader _ broken_source_reader 5%N eq_refl).
    assert (He : snd (fst (fst (BufferedReader_Read broken_source_reader 5)))
                 = Some (errors.New "read error")) by reflexivity.
    assert (Hb : br_err (snd (fst (BufferedReader_Read broken_source_reader 5)))
                 = None) by reflexivity.
    revert H5 He Hb.
    destruct (BufferedReader_Read broken_source_reader 5) as [[[d e] br1] tr].
    simpl. intros H5 He Hb.
    split; [exact He|]. split; [exact Hb|].
    apply H5; [rewrite He; discriminate|exact Hb|discriminate].
  - split; [reflexivity|]. split; [reflexivity|].
    specialize (H7 mockWriter _ broken_sink_writer
                   (bufio.mkWriter (32 * 1024) [] None) oversized
                   eq_refl eq_refl).
    assert (He : snd (fst (fst (BufferedWriter_Write broken_sink_writer
                                                     oversized)))
                 = Some (errors.New "write error"))
      by (vm_compute; reflexivity).
    assert (Hb : bw_err (snd (fst (BufferedWriter_Write broken_sink_writer
                                                        oversized)))
                 = None) by (vm_compute; reflexivity).
    revert H7 He Hb.
    destruct (BufferedWriter_Write broken_sink_writer oversized)
      as [[[n e] bw1] tr].
    simpl. intros H7 He Hb.
    split; [exact He|]. split; [exact Hb|].
    apply H7; [rewrite He; discriminate|exact Hb].
  - split; [reflexivity|].
    specialize (H1 mockReader _ hello_reader 5%N eq_refl).
    destruct (bufio.ReadPtr (br_buf hello_reader) (br_src hello_reader) 5)
      as [[[[d e] b'] src'] tr0].
    destruct (BufferedReader_Read hello_reader 5) as [[[d1 e1] br1] tr].
    exact (proj1 H1).
  - split; [reflexivity|].
    specialize (H2 mockWriter _ recording_writer (bytes_of "hello") eq_refl).
    destruct (bufio.WritePtr (bw_buf recording_writer)
                             (bw_dst recording_writer) (bytes_of "hello"))
      as [[[[n e] b'] dst'] tr0].
    destruct (BufferedWriter_Write recording_writer (bytes_of "hello"))
      as [[[n1 e1] bw1] tr].
    exact (proj1 H2).
  - assert (Hav : (bufio.Available (bufio.mkWriter (32 * 1024) [] None)
                   < N.of_nat (length oversized))%N)
      by (vm_compute; reflexivity).
    assert (Hsnk : snd (fst (io.Write (bw_dst broken_sink_writer) oversized))
                   = Some (errors.New "write error")) by reflexivity.
    split; [reflexivity|]. split; [reflexivity|]. split; [exact Hav|].
    split; [exact Hsnk|].
    specialize (H6 mockWriter _ broken_sink_writer
                   (bufio.mkWriter (32 * 1024) [] None) oversized
                   (errors.New "write error") eq_refl eq_refl eq_refl Hav).
    cbv zeta in H6.
    change (Nat.eqb (bufio.Buffered (bufio.mkWriter (32 * 1024) [] None)) 0)
      with true in H6.
    cbv iota in H6. revert H6 Hsnk.
    destruct (io.Write (bw_dst broken_sink_writer) oversized)
      as [[sn se] dst'].
    cbv beta iota delta [fst snd]. intros H6 Hse. specialize (H6 Hse).
    destruct (BufferedWriter_Write broken_sink_writer oversized)
      as [[[n e] bw1] tr].
    destruct H6 as [Hst [_ [_ [_ [_ Hb1]]]]]. split; [exact Hst|exact Hb1].
Defined.

Lemma NewHashCallback_unknown_falls_back_to_sha256_witness :
  "crc32" <> "md5" /\ "crc32" <> "sha1" /\ "crc32" <> "sha512"
  /\ @Name _ HashCallback_methods (@NewHashCallback toy_crypto "crc32") = "sha256"
  /\ Result (snd (observe (@NewHashCallback toy_crypto "crc32")
                          [bytes_of "hel"; bytes_of "lo"]))
     = any_bytes (@sha256_Sum toy_crypto (bytes_of "hello")).
Proof.
  assert (H1 : "crc32" <> "md5") by discriminate.
  assert (H2 : "crc32" <> "sha1") by discriminate.
  assert (H3 : "crc32" <> "sha512") by discriminate.
  split; [exact H1|]. split; [exact H2|]. split; [exact H3|].
  destruct (NewHashCallback_unknown_falls_back_to_sha256 toy_crypto "crc32"
              [bytes_of "hel"; bytes_of "lo"] H1 H2 H3)
    as [Hn [_ [_ [_ Hr]]]].
  split; [exact Hn|exact Hr].
Defined.


Lemma tee_mirror_first_and_failure_halts_witness :
  (io.Write (mkErrorWriter (errors.New "mirror error")) (bytes_of "hello")
   = ((0, Some (errors.New "mirror error")),
      mkErrorWriter (errors.New "mirror error"))
   /\ dispatch (as_callback (mkTee (mkErrorWriter (errors.New "mirror error"))
                                   None)
                :: [recorder "extra"]) (bytes_of "hello")
      = (Some (errors.New "mirror error"),
         as_callback (mkTee (mkErrorWriter (errors.New "mirror error"))
                            (Some (errors.New "mirror error")))
         :: [recorder "extra"],
         [ev_OnData 0 (bytes_of "hello")]))
  /\ (io.Write (mkMockWriter [] None None ∅) (bytes_of "hello")
      = ((5, None), mkMockWriter (bytes_of "hello") None None ∅)
      /\ snd (dispatch (as_callback (mkTee (mkMockWriter [] None None ∅) None)
                        :: [recorder "extra"]) (bytes_of "hello"))
         = [ev_OnData 0 (bytes_of "hello"); ev_OnData 1 (bytes_of "hello")])
  /\ (br_err stuck_reader = Some (errors.New "callback error")
      /\ snd (run_reader_ops stuck_reader [op_Read 5; op_Read 5]) = [])
  /\ (br_err tee_broken_engine = None
      /\ tee_broken_mirror = buffered_reader tee_broken_engine
      /\ BufferedReader_Read tee_broken_engine 5
         = ((bytes_of "hello", Some (errors.New "mirror error")),
            mkBufferedReader
              (mkMockReader [] None) None
              (bufio.Reader_around
                 (bufio.mkReader (32 * 1024) (bytes_of " world") None))
              (as_callback (mkTee (mkErrorWriter (errors.New "mirror error"))
                                  (Some (errors.New "mirror error")))
               :: [recorder "extra"])
              (Some (errors.New "mirror error")),
            [ev_Read (32 * 1024); ev_OnData 0 (bytes_of "hello")])).
Proof.
  destruct (tee_mirror_first_and_failure_halts mockReader errorWriter _ _)
    as [_ [_ [H3 [_ [_ [H6 H7]]]]]].
  split; [|split; [|split]]; [| | |split; [reflexivity|split; [reflexivity|]]];
    [| | |
     pose proof (H6 tee_broken_engine 5%N
                    (mkErrorWriter (errors.New "mirror error"))
                    (mkErrorWriter (errors.New "mirror error")) 0
                    (errors.New "mirror error") [recorder "extra"]
                    eq_refl eq_refl) as H;
     vm_compute in H;
     exact (H ltac:(discriminate) eq_refl)].
  destruct (tee_mirror_first_and_failure_halts mockReader mockWriter _ _)
    as [_ [_ [_ [_ [H5 _]]]]].
  - split; [reflexivity|].
    exact (H3 _ _ 0 _ [recorder "extra"] (bytes_of "hello") eq_refl).
  - destruct (tee_mirror_first_and_failure_halts mockReader mockWriter _ _)
      as [_ [_ [_ [_ [H5 _]]]]].
    split; [reflexivity|].
    rewrite (H5 (mkMockWriter [] None None ∅)
                (mkMockWriter (bytes_of "hello") None None ∅) 5
                [recorder "extra"] (bytes_of "hello") eq_refl).
    reflexivity.
  - split; [reflexivity|].
    exact (proj1 (H7 stuck_reader (errors.New "callback error")
                     [op_Read 5; op_Read 5] eq_refl)).
Defined.

(** * Worked scenarios *)

(** One Read of the 11 bytes "hello world" through the default buffer: one
    source read, one observer call with all 11 bytes. *)
Example read_hello_world_once :
  BufferedReader_Read hello_reader 32
  = ((bytes_of "hello world", None),
     mkBufferedReader
       (mkMockReader [] None) None
       (bufio.Reader_around (bufio.mkReader (32 * 1024) [] None))
       [as_callback
          (mkTestCallback "test" [bytes_of "hello world"] None any_nil "")]
       None,
     [ev_Read (32 * 1024); ev_OnData 0 (bytes_of "hello world")]).
Proof. vm_compute. reflexivity. Qed.

(** End of stream is handed on and not kept: the Read after the data returns
    io.EOF with an empty slot, and so does the one after it. *)
Example read_EOF_is_not_kept :
  let '(_, br1, _) := BufferedReader_Read hello_reader 32 in
  let '((d2, e2), br2, _) := BufferedReader_Read br1 32 in
  let '((d3, e3), br3, tr3) := BufferedReader_Read br2 32 in
  d2 = [] /\ e2 = Some io.EOF /\ br_err br2 = None
  /\ d3 = [] /\ e3 = Some io.EOF /\ br_err br3 = None
  /\ tr3 = [ev_Read (32 * 1024)].
Proof. vm_compute. repeat split. Qed.

(** An observer that fails with "oops": writing "abc" returns 3 and the
    error; writing "def" afterwards returns 0 and the same error, and neither
    the observer nor the sink is touched. *)
Example write_abc_then_def :
  let '(r1, bw1, tr1) := BufferedWriter_Write rejecting_writer (bytes_of "abc") in
  let '(r2, bw2, tr2) := BufferedWriter_Write bw1 (bytes_of "def") in
  r1 = (3, Some (errors.New "oops")) /\ tr1 = [ev_OnData 0 (bytes_of "abc")]
  /\ r2 = (0, Some (errors.New "oops")) /\ tr2 = [] /\ bw2 = bw1.
Proof. vm_compute. repeat split. Qed.

(** TeeReader with a working mirror and a size observer: the bytes read are
    written to the mirror sink and counted. *)
Example tee_copies_and_counts :
  match engine_of (TeeReader (mkMockReader (bytes_of "hello world") None)
                             (mkMockWriter [] None None ∅)
                             [as_callback NewSizeCallback]) with
  | None => False
  | Some br =>
      let '((d, e), br1, tr) := BufferedReader_Read br 32 in
      d = bytes_of "hello world" /\ e = None
      /\ hd_error (br_callbacks br1)
         = Some (as_callback
                   (mkTee (mkMockWriter (bytes_of "hello world") None None ∅)
                          None))
      /\ map cb_Result (br_callbacks br1) = [any_nil; any_int 11]
      /\ observer_calls tr
         = [(0, bytes_of "hello world"); (1, bytes_of "hello world")]
      /\ BufferedReader_Results br1 !! "size" = Some (any_int 11)
      /\ BufferedReader_Results br1 !! "_tee_writer" = Some any_nil
  end.
Proof. vm_compute. repeat split. Qed.

(** The names NewHashCallback knows keep their own digest. *)
Example NewHashCallback_known_names :
  hc_name (@NewHashCallback toy_crypto "md5") = "md5"
  /\ hc_name (@NewHashCallback toy_crypto "sha512") = "sha512"
  /\ hash.Sum (hc_h (snd (observe (@NewHashCallback toy_crypto "md5")
                                  [bytes_of "abc"])))
     = @md5_Sum toy_crypto (bytes_of "abc").
Proof. repeat split. Qed.

(** ReadAt on a source that has it: the bytes at the offset are read
    directly from the source, past the buffer, and dispatched. *)
Example ReadAt_with_callbacks :
  let '((d, e), br1, tr) := BufferedReader_ReadAt positional_reader 5 6 in
  d = bytes_of "world" /\ e = None
  /\ tr = [ev_ReadAt 5 6; ev_OnData 0 (bytes_of "world")]
  /\ br_buf br1 = br_buf positional_reader
  /\ map cb_Result (br_callbacks br1) = [any_int 1].
Proof. vm_compute. repeat split. Qed.

(** The test "dispatch stops on first error": cb1 records the chunk, cb2
    fails, cb3 is never called. *)
Example dispatch_stops_on_first_error :
  let cbs := [recorder "cb1"; failing "cb2" "cb2 error"; recorder "cb3"] in
  let '(e, cbs', tr) := dispatch cbs (bytes_of "test") in
  e = Some (errors.New "cb2 error")
  /\ tr = [ev_OnData 0 (bytes_of "test"); ev_OnData 1 (bytes_of "test")]
  /\ map cb_Result cbs' = [any_int 1; any_int 0; any_int 0]
  /\ first_failing cbs (bytes_of "test") = Some 1
  /\ calls_made cbs (bytes_of "test") = 2.
Proof. vm_compute. repeat split. Qed.

(** Without observers the facade hands back the very stream. *)
Example Reader_without_observers :
  Reader (mkMockReader (bytes_of "hello world") None) []
  = original_reader (mkMockReader (bytes_of "hello world") None)
  /\ Writer (mkErrorWriter (errors.New "write error")) []
     = original_writer (mkErrorWriter (errors.New "write error")).
Proof. split; reflexivity. Qed.

(** A source that is a bufio.Reader with a 64 KiB buffer is what NewReader
    takes for its [buf]: a Read of 5 bytes asks the source for 5 bytes, and
    the rest waits in the source's own buffer.  Around a bufio.Reader of
    4 KiB the engine has its Reader of 32 KiB and asks for 32768 bytes. *)
Example NewReader_over_a_bufio_Reader :
  br_buf (NewReader (bufio_source (64 * 1024)) []) = bufio.rd_itself
  /\ (let '((d, e), br1, tr) :=
        BufferedReader_Read (NewReader (bufio_source (64 * 1024)) []) 5 in
      d = bytes_of "hello" /\ e = None /\ tr = [ev_Read 5]
      /\ br_buf br1 = bufio.rd_itself
      /\ bufio.r_buf (bor_b (br_src br1)) = bytes_of " world")
  /\ br_buf (NewReader (bufio_source 4096) [])
     = bufio.Reader_around (bufio.mkReader (32 * 1024) [] None)
  /\ (let '((d, e), br1, tr) :=
        BufferedReader_Read (NewReader (bufio_source 4096) []) 5 in
      d = bytes_of "hello" /\ e = None /\ tr = [ev_Read (32 * 1024)]
      /\ br_buf br1
         = bufio.Reader_around
             (bufio.mkReader (32 * 1024) (bytes_of " world") None)
      /\ bufio.r_buf (bor_b (br_src br1)) = []).
Proof. vm_compute. repeat split. Qed.

(** The same for a sink that is a bufio.Writer with a 64 KiB buffer: Write
    hands the bytes to the sink, which buffers them, and Flush is the sink's
    Flush, whose error goes into the slot.  Around a bufio.Writer of 4 KiB
    the engine has its Writer of 32 KiB, and the bytes wait there. *)
Example NewWriter_over_a_bufio_Writer :
  (let bw := NewWriter (bufio_sink (64 * 1024)) [] in
   let '(r1, bw1, tr1) := BufferedWriter_Write bw (bytes_of "hello") in
   let '(e2, bw2, tr2) := BufferedWriter_Flush bw1 in
   w_held (bw_buf bw) = [] /\ w_held (bw_buf bw1) = []
   /\ r1 = (5, None) /\ tr1 = [ev_Write (bytes_of "hello")]
   /\ bufio.w_buf (bow_b (bw_dst bw1)) = bytes_of "hello"
   /\ e2 = Some (errors.New "write error") /\ tr2 = [ev_Flush]
   /\ bw_err bw2 = Some (errors.New "write error"))
  /\ (let bw := NewWriter (bufio_sink 4096) [] in
      let '(r1, bw1, tr1) := BufferedWriter_Write bw (bytes_of "hello") in
      bw_buf bw = bufio.Writer_around (bufio.mkWriter (32 * 1024) [] None)
      /\ r1 = (5, None) /\ tr1 = []
      /\ bw_buf bw1
         = bufio.Writer_around
             (bufio.mkWriter (32 * 1024) (bytes_of "hello") None)
      /\ bufio.w_buf (bow_b (bw_dst bw1)) = []).
Proof. vm_compute. repeat split. Qed.

(** * Further properties of the package *)

(** ** Counts and capacity *)

Lemma bufio_Read_len {R : Type} `{io.Reader R} (b : bufio.Reader) (rd : R)
    (k : N) :
  reader_obeys_len R ->
  length (fst (fst (fst (fst (bufio.Read b rd k))))) <= N.to_nat k.
Proof.
  intros HC. unfold bufio.Read, bufio.readErr, bufio.copy_out.
  destruct (N.eqb k 0); destruct (bufio.r_buf b) eqn:Hb; simpl; try lia.
  - destruct (negb (is_nil (bufio.r_err b))); simpl; [lia|].
    destruct (N.leb (bufio.r_size b) k).
    + pose proof (HC rd k) as HL.
      destruct (io.Read rd k) as [[d e] rd']; simpl in *. exact HL.
    + destruct (io.Read rd (bufio.r_size b)) as [[d e] rd'].
      destruct d; simpl; [lia|]. apply firstn_le_length.
  - apply firstn_le_length.
Qed.

Lemma bufio_ReadPtr_len {R : Type} `{io.Reader R} (b : bufio.ReaderPtr)
    (rd : R) (k : N) :
  reader_obeys_len R ->
  length (fst (fst (fst (fst (bufio.ReadPtr b rd k))))) <= N.to_nat k.
Proof.
  intros HC. destruct b as [|b0]; simpl.
  - pose proof (HC rd k) as HL.
    destruct (io.Read rd k) as [[d e] rd']. exact HL.
  - pose proof (bufio_Read_len b0 rd k HC) as HL.
    destruct (bufio.Read b0 rd k) as [[[[d e] b'] rd'] tr]. exact HL.
Qed.

(** X1.  Read hands out at most [len(p)] bytes, whatever the buffer holds, when
    the source keeps the io.Reader contract. *)
Theorem Read_returns_at_most_len_p :
  forall (R : Type) (HR : io.Reader R) (br : BufferedReader R) (len_p : N),
    reader_obeys_len R ->
    length (fst (fst (fst (BufferedReader_Read br len_p)))) <= N.to_nat len_p.
Proof.
  intros R HR br k HC. unfold BufferedReader_Read.
  destruct (br_err br); [simpl; lia|].
  pose proof (bufio_ReadPtr_len (br_buf br) (br_src br) k HC) as HL.
  destruct (bufio.ReadPtr (br_buf br) (br_src br) k) as [[[[d e] b'] src'] tr].
  match goal with |- context [br_deliver ?x d e tr] =>
    destruct (br_deliver_observer_calls x d e tr) as [Hd _]
  end.
  rewrite Hd. exact HL.
Qed.

Lemma mockReader_obeys_len : reader_obeys_len mockReader.
Proof.
  intros r k. simpl. unfold mockReader_Read.
  destruct (mr_err r); simpl; [lia|].
  destruct (mr_data r); simpl; [lia|]. apply firstn_le_length.
Qed.

Lemma bufioReader_obeys_len : reader_obeys_len (bufioReader mockReader).
Proof.
  intros [b rd] k. simpl.
  pose proof (bufio_Read_len b rd k mockReader_obeys_len) as HL.
  destruct (bufio.Read b rd k) as [[[[d e] b'] rd'] tr]. exact HL.
Qed.

Lemma Read_returns_at_most_len_p_witness :
  reader_obeys_len mockReader
  /\ length (fst (fst (fst (BufferedReader_Read hello_reader 5)))) <= 5.
Proof.
  split; [exact mockReader_obeys_len|].
  exact (Read_returns_at_most_len_p mockReader _ hello_reader 5
           mockReader_obeys_len).
Defined.

(** ** What reaches the sink *)

Lemma sink_bytes_app (t1 t2 : trace) :
  sink_bytes (t1 ++ t2) = sink_bytes t1 ++ sink_bytes t2.
Proof.
  induction t1 as [|ev t1 IH]; simpl; [reflexivity|].
  destruct ev; simpl; rewrite IH; try reflexivity. apply app_assoc.
Qed.

Lemma sink_bytes_dispatch (cbs : list ReadCallback) (chunk : list byte) :
  sink_bytes (snd (dispatch cbs chunk)) = [].
Proof.
  rewrite dispatch_trace.
  induction (seq 0 (calls_made cbs chunk)) as [|k l IH]; simpl;
    [reflexivity|exact IH].
Qed.

Lemma bw_deliver_sink_bytes {W : Type} (bw : BufferedWriter W)
    (p : list byte) (n : nat) (e : option error) (tr0 : trace) :
  sink_bytes (snd (bw_deliver bw p n e tr0)) = sink_bytes tr0.
Proof.
  unfold bw_deliver.
  destruct (Nat.ltb 0 n && Nat.ltb 0 (length (bw_callbacks bw)));
    [|reflexivity].
  pose proof (sink_bytes_dispatch (bw_callbacks bw) (firstn n p)) as HS.
  destruct (dispatch (bw_callbacks bw) (firstn n p)) as [[cbErr cbs'] tr'].
  simpl in HS.
  destruct cbErr; simpl; rewrite sink_bytes_app, HS; apply app_nil_r.
Qed.

(** A Flush of bufio.Writer that reports no error has written the whole
    buffer in at most one call and left it empty. *)
Lemma bufio_Flush_ok {W : Type} `{io.Writer W} (b b' : bufio.Writer)
    (wr wr' : W) (tr : trace) :
  bufio.Flush b wr = (None, b', wr', tr) ->
  bufio.w_err b = None
  /\ b' = bufio.mkWriter (bufio.w_size b) [] None
  /\ sink_bytes tr = bufio.w_buf b.
Proof.
  unfold bufio.Flush. destruct (bufio.w_err b) eqn:He; [discriminate|].
  destruct (Nat.eqb (bufio.Buffered b) 0) eqn:Hz.
  - intros Heq. inversion Heq; subst. apply Nat.eqb_eq in Hz.
    unfold bufio.Buffered in Hz. destruct b' as [sz buf er]. simpl in *.
    destruct buf; [|discriminate]. subst er. repeat split.
  - destruct (io.Write wr (bufio.w_buf b)) as [[n e] wr0].
    destruct (Nat.ltb n (bufio.Buffered b) && is_nil e); [discriminate|].
    destruct e; [discriminate|].
    intros Heq. inversion Heq; subst. simpl. rewrite app_nil_r.
    repeat split.
Qed.

Lemma bufio_Flush_err_None {W : Type} `{io.Writer W} (b b' : bufio.Writer)
    (wr wr' : W) (fe : option error) (tr : trace) :
  bufio.Flush b wr = (fe, b', wr', tr) ->
  bufio.w_err b' = None -> fe = None.
Proof.
  unfold bufio.Flush. destruct (bufio.w_err b) eqn:He.
  - intros Heq. inversion Heq; subst. congruence.
  - destruct (Nat.eqb (bufio.Buffered b) 0).
    + intros Heq. inversion Heq; subst. reflexivity.
    + destruct (io.Write wr (bufio.w_buf b)) as [[n e] wr0].
      destruct (Nat.ltb n (bufio.Buffered b) && is_nil e).
      * intros Heq. inversion Heq; subst. discriminate.
      * destruct e; intros Heq; inversion Heq; subst;
          [discriminate|reflexivity].
Qed.

Lemma bufio_Flush_size {W : Type} `{io.Writer W} (b : bufio.Writer) (wr : W) :
  bufio.w_size (snd (fst (fst (bufio.Flush b wr)))) = bufio.w_size b
  /\ length (bufio.w_buf (snd (fst (fst (bufio.Flush b wr)))))
     <= length (bufio.w_buf b).
Proof.
  unfold bufio.Flush. destruct (bufio.w_err b); [split; simpl; lia|].
  destruct (Nat.eqb (bufio.Buffered b) 0); [split; simpl; lia|].
  destruct (io.Write wr (bufio.w_buf b)) as [[n e] wr0].
  destruct (Nat.ltb n (bufio.Buffered b) && is_nil e); simpl.
  - split; [reflexivity|]. rewrite length_skipn. lia.
  - destruct e; simpl; split; try reflexivity; [|lia].
    rewrite length_skipn. lia.
Qed.

Lemma bufio_copy_count_le (b : bufio.Writer) (p : list byte) :
  bufio.copy_count b p <= length p
  /\ (N.of_nat (bufio.copy_count b p) <= bufio.Available b)%N.
Proof. unfold bufio.copy_count. split; lia. Qed.

(** The loop of bufio.Writer.Write keeps count: what it has taken plus what
    is left is the length of [p]. *)
Lemma bufio_Write_loop_count {W : Type} `{io.Writer W} (fuel : nat) :
  forall (b : bufio.Writer) (wr : W) (p : list byte) (nn : nat) (tr : trace),
    let '(b', _, p', nn', _) := bufio.Write_loop fuel b wr p nn tr in
    nn' + length p' = nn + length p
    /\ bufio.w_size b' = bufio.w_size b
    /\ ((N.of_nat (length (bufio.w_buf b)) <= bufio.w_size b)%N ->
        (N.of_nat (length (bufio.w_buf b')) <= bufio.w_size b')%N).
Proof.
  induction fuel as [|fuel IH]; intros b wr p nn tr; simpl;
    [repeat split; auto|].
  destruct (N.ltb (bufio.Available b) (N.of_nat (length p))
            && is_nil (bufio.w_err b)); [|repeat split; auto].
  destruct (Nat.eqb (bufio.Buffered b) 0).
  - destruct (io.Write wr p) as [[n e] wr'] eqn:Hw.
    apply io.Write_contract in Hw. destruct Hw as [Hle _].
    specialize (IH (bufio.mkWriter (bufio.w_size b) (bufio.w_buf b) e) wr'
                   (skipn n p) (nn + n) (tr ++ [ev_Write p])).
    destruct (bufio.Write_loop fuel _ wr' (skipn n p) (nn + n) _)
      as [[[[b' wr''] p'] nn'] tr'].
    simpl in IH. destruct IH as [IH1 [IH2 IH3]].
    rewrite length_skipn in IH1. repeat split; [lia|exact IH2|exact IH3].
  - destruct (bufio_copy_count_le b p) as [Hc1 Hc2].
    match goal with |- context [bufio.Flush ?b1 wr] =>
      pose proof (bufio_Flush_size b1 wr) as [HS HL];
      destruct (bufio.Flush b1 wr) as [[[fe b2] wr'] tr1]
    end.
    simpl in HS, HL.
    specialize (IH b2 wr' (skipn (bufio.copy_count b p) p)
                   (nn + bufio.copy_count b p) (tr ++ tr1)).
    destruct (bufio.Write_loop fuel b2 wr' _ _ _)
      as [[[[b' wr''] p'] nn'] tr'].
    destruct IH as [IH1 [IH2 IH3]].
    rewrite length_skipn in IH1.
    repeat split; [lia|congruence|].
    intros Hcap. apply IH3. rewrite HS.
    rewrite length_app, length_firstn in HL.
    unfold bufio.Available in Hc2. lia.
Qed.

(** While the loop ends without an error, the bytes written to the sink,
    the buffer and the rest of [p] together are what they were. *)
Lemma bufio_Write_loop_bytes {W : Type} `{io.Writer W} (fuel : nat) :
  forall (b : bufio.Writer) (wr : W) (p : list byte) (nn : nat) (tr : trace),
    let '(b', _, p', _, tr') := bufio.Write_loop fuel b wr p nn tr in
    bufio.w_err b' = None ->
    sink_bytes tr' ++ bufio.w_buf b' ++ p'
    = sink_bytes tr ++ bufio.w_buf b ++ p.
Proof.
  induction fuel as [|fuel IH]; intros b wr p nn tr; simpl; [reflexivity|].
  destruct (N.ltb (bufio.Available b) (N.of_nat (length p))
            && is_nil (bufio.w_err b)); [|reflexivity].
  destruct (Nat.eqb (bufio.Buffered b) 0) eqn:Hz.
  - apply Nat.eqb_eq in Hz. unfold bufio.Buffered in Hz.
    assert (Hbuf : bufio.w_buf b = [])
      by (destruct (bufio.w_buf b); [reflexivity|discriminate]).
    destruct (io.Write wr p) as [[n e] wr'] eqn:Hw.
    destruct e as [x|].
    + rewrite bufio_Write_loop_done by (simpl; apply andb_false_r).
      simpl. discriminate.
    + apply io.Write_contract in Hw. destruct Hw as [Hle Hshort].
      assert (Hn : n = length p).
      { destruct (Nat.lt_ge_cases n (length p)) as [Hlt|Hge];
          [exfalso; apply (Hshort Hlt); reflexivity|lia]. }
      specialize (IH (bufio.mkWriter (bufio.w_size b) (bufio.w_buf b) None) wr'
                     (skipn n p) (nn + n) (tr ++ [ev_Write p])).
      destruct (bufio.Write_loop fuel _ wr' (skipn n p) (nn + n) _)
        as [[[[b' wr''] p'] nn'] tr'].
      intros Hnone. rewrite (IH Hnone). simpl.
      rewrite sink_bytes_app. simpl. subst n. rewrite skipn_all.
      rewrite Hbuf, !app_nil_r. simpl. reflexivity.
  - match goal with |- context [bufio.Flush ?b1 wr] =>
      destruct (bufio.Flush b1 wr) as [[[fe b2] wr'] tr1] eqn:HF
    end.
    destruct (bufio.w_err b2) as [x|] eqn:Hb2.
    + rewrite bufio_Write_loop_done
        by (rewrite Hb2; simpl; apply andb_false_r).
      intros Hnone. congruence.
    + pose proof (bufio_Flush_err_None _ _ _ _ _ _ HF Hb2) as Hfe. subst fe.
      destruct (bufio_Flush_ok _ _ _ _ _ HF) as [_ [Hb2' Hsb]].
      simpl in Hsb.
      specialize (IH b2 wr' (skipn (bufio.copy_count b p) p)
                     (nn + bufio.copy_count b p) (tr ++ tr1)).
      destruct (bufio.Write_loop fuel b2 wr' _ _ _)
        as [[[[b' wr''] p'] nn'] tr'].
      intros Hnone. rewrite (IH Hnone).
      rewrite sink_bytes_app, Hsb, Hb2'. simpl.
      rewrite <- !app_assoc. f_equal. f_equal. apply firstn_skipn.
Qed.

(** When the loop has run its two rounds its condition no longer holds. *)
Lemma bufio_Write_loop_exit {W : Type} `{io.Writer W}
    (b : bufio.Writer) (wr : W) (p : list byte) (nn : nat) (tr : trace) :
  let '(b', _, p', _, _) := bufio.Write_loop 2 b wr p nn tr in
  N.ltb (bufio.Available b') (N.of_nat (length p')) && is_nil (bufio.w_err b')
  = false.
Proof.
  cbn [bufio.Write_loop].
  destruct (N.ltb (bufio.Available b) (N.of_nat (length p))
            && is_nil (bufio.w_err b)) eqn:Hc; [|exact Hc].
  destruct (Nat.eqb (bufio.Buffered b) 0) eqn:Hz.
  - destruct (io.Write wr p) as [[n e] wr'] eqn:Hw.
    rewrite (bufio_direct_write_ends b wr wr' p n e Hw).
    apply (bufio_direct_write_ends b wr wr' p n e Hw).
  - match goal with |- context [bufio.Flush ?b1 wr] =>
      destruct (bufio.Flush b1 wr) as [[[fe b2] wr'] tr1] eqn:HF
    end.
    destruct (N.ltb (bufio.Available b2)
                    (N.of_nat (length (skipn (bufio.copy_count b p) p)))
              && is_nil (bufio.w_err b2)) eqn:Hc2; [|exact Hc2].
    apply andb_true_iff in Hc2. destruct Hc2 as [_ Hnil].
    assert (Hb2 : bufio.w_err b2 = None)
      by (destruct (bufio.w_err b2); [discriminate|reflexivity]).
    pose proof (bufio_Flush_err_None _ _ _ _ _ _ HF Hb2) as Hfe. subst fe.
    destruct (bufio_Flush_ok _ _ _ _ _ HF) as [_ [Hb2' _]].
    assert (Hz2 : Nat.eqb (bufio.Buffered b2) 0 = true)
      by (rewrite Hb2'; reflexivity).
    rewrite Hz2.
    destruct (io.Write wr' _) as [[n e] wr''] eqn:Hw.
    apply (bufio_direct_write_ends b2 wr' wr'' _ n e Hw).
Qed.

(** bufio.Writer.Write: the count never exceeds [len(p)]; without an error
    all of [p] was taken, and the bytes written to the sink followed by the
    new buffer are the old buffer followed by [p]. *)
Lemma bufio_Write_spec {W : Type} `{io.Writer W} (b : bufio.Writer) (wr : W)
    (p : list byte) :
  let '((n, e), b', _, tr) := bufio.Write b wr p in
  n <= length p
  /\ bufio.w_size b' = bufio.w_size b
  /\ ((N.of_nat (length (bufio.w_buf b)) <= bufio.w_size b)%N ->
      (N.of_nat (length (bufio.w_buf b')) <= bufio.w_size b')%N)
  /\ (e = None ->
      n = length p
      /\ sink_bytes tr ++ bufio.w_buf b' = bufio.w_buf b ++ p).
Proof.
  unfold bufio.Write.
  pose proof (bufio_Write_loop_count 2 b wr p 0 []) as HC.
  pose proof (bufio_Write_loop_bytes 2 b wr p 0 []) as HB.
  pose proof (bufio_Write_loop_exit b wr p 0 []) as HE.
  destruct (bufio.Write_loop 2 b wr p 0 []) as [[[[b1 wr1] p1] nn] tr1].
  destruct HC as [HC1 [HC2 HC3]]. simpl in HC1.
  destruct (bufio.w_err b1) as [x|] eqn:Hb1.
  - repeat split; [lia|exact HC2|exact HC3|discriminate|discriminate].
  - simpl in HE. rewrite andb_true_r in HE. apply N.ltb_ge in HE.
    assert (Hcc : bufio.copy_count b1 p1 = length p1)
      by (unfold bufio.copy_count; lia).
    rewrite Hcc. rewrite firstn_all. simpl.
    repeat split; [lia|exact HC2| |lia|].
    + intros Hcap. specialize (HC3 Hcap). rewrite length_app.
      unfold bufio.Available in HE. lia.
    + specialize (HB eq_refl). simpl in HB. rewrite <- HB.
      reflexivity.
Qed.

Lemma Writer_kept_refl {W : Type} (b : bufio.WriterPtr W) : Writer_kept b b.
Proof. destruct b as [m|b0]; simpl; [reflexivity|]. split; auto. Qed.

Lemma Writer_kept_trans {W : Type} (b1 b2 b3 : bufio.WriterPtr W) :
  Writer_kept b1 b2 -> Writer_kept b2 b3 -> Writer_kept b1 b3.
Proof.
  destruct b1 as [m1|x1], b2 as [m2|x2], b3 as [m3|x3]; simpl;
    try contradiction; try congruence.
  intros [H1 H2] [H3 H4]. split; [congruence|]. auto.
Qed.

(** bufio.Writer.Write and Flush through the engine's pointer. *)
Lemma bufio_WritePtr_spec {W : Type} `{io.Writer W} (b : bufio.WriterPtr W)
    (wr : W) (p : list byte) :
  let '((n, e), b', _, tr) := bufio.WritePtr b wr p in
  n <= length p
  /\ Writer_kept b b'
  /\ (e = None ->
      n = length p /\ sink_bytes tr ++ w_held b' = w_held b ++ p).
Proof.
  destruct b as [m|b0]; simpl.
  - destruct (io.Write wr p) as [[n e] wr'] eqn:Hw.
    apply io.Write_contract in Hw. destruct Hw as [Hle Hsh]. simpl.
    split; [exact Hle|]. split; [reflexivity|]. intros ->. split.
    + destruct (Nat.lt_ge_cases n (length p)) as [Hl|Hg]; [|lia].
      exfalso. apply (Hsh Hl). reflexivity.
    + rewrite !app_nil_r. reflexivity.
  - pose proof (bufio_Write_spec b0 wr p) as HB.
    destruct (bufio.Write b0 wr p) as [[[[n e] b'] wr'] tr]. simpl.
    destruct HB as [Hle [Hsz [Hcap Hok]]].
    split; [exact Hle|]. split; [split; assumption|exact Hok].
Qed.

Lemma bufio_FlushPtr_spec {W : Type} `{io.Writer W} (b : bufio.WriterPtr W)
    (wr : W) :
  let '(e, b', _, tr) := bufio.FlushPtr b wr in
  Writer_kept b b'
  /\ length tr <= 1
  /\ (e = None -> w_held b' = [] /\ sink_bytes tr = w_held b).
Proof.
  destruct b as [m|b0]; simpl.
  - destruct (bufio.Writer_Flush wr) as [e wr']. simpl.
    split; [reflexivity|]. split; [lia|]. intros _. split; reflexivity.
  - pose proof (bufio_Flush_size b0 wr) as [HS HL].
    pose proof (bufio_Flush_trace b0 wr) as HT.
    destruct (bufio.Flush b0 wr) as [[[e b'] wr'] tr] eqn:HF.
    simpl in *. split; [split; [exact HS|intros Hcap; rewrite HS; lia]|].
    split; [destruct HT as [-> | ->]; simpl; lia|].
    intros ->. destruct (bufio_Flush_ok _ _ _ _ _ HF) as [_ [Hb' Hsb]].
    subst b'. split; [reflexivity|exact Hsb].
Qed.

Lemma Write_facts {W : Type} `{io.Writer W} (bw : BufferedWriter W)
    (p : list byte) :
  let '((n, e), bw1, tr) := BufferedWriter_Write bw p in
  n <= length p
  /\ (n < length p -> e <> None)
  /\ Writer_kept (bw_buf bw) (bw_buf bw1)
  /\ (e = None ->
      sink_bytes tr ++ w_held (bw_buf bw1) = w_held (bw_buf bw) ++ p).
Proof.
  unfold BufferedWriter_Write. destruct (bw_err bw) as [x|] eqn:Hs.
  - simpl. repeat split; try lia; try discriminate.
    apply Writer_kept_refl.
  - pose proof (bufio_WritePtr_spec (bw_buf bw) (bw_dst bw) p) as HB.
    destruct (bufio.WritePtr (bw_buf bw) (bw_dst bw) p)
      as [[[[n e] b'] dst'] tr].
    destruct HB as [Hle [Hk Hok]].
    match goal with |- context [bw_deliver ?x p n e tr] =>
      pose proof (bw_deliver_observer_calls x p n e tr) as [Hn _];
      pose proof (bw_deliver_sets x p n e tr eq_refl) as [_ He];
      pose proof (bw_deliver_fields x p n e tr) as [_ [_ [_ Hbuf]]];
      pose proof (bw_deliver_sink_bytes x p n e tr) as Hsb;
      destruct (bw_deliver x p n e tr) as [[[n1 e1] bw1] tr1]
    end.
    simpl in *. subst n1. rewrite Hbuf, Hsb.
    assert (Hnone : e1 = None -> e = None).
    { intros ->. destruct (dispatch_error _ _ _); [discriminate|auto]. }
    repeat split; try assumption.
    + intros Hlt Hc. destruct (Hok (Hnone Hc)) as [Hn _]. lia.
    + intros Hc. apply (Hok (Hnone Hc)).
Qed.

Lemma Flush_facts {W : Type} `{io.Writer W} (bw : BufferedWriter W) :
  let '(e, bw1, tr) := BufferedWriter_Flush bw in
  Writer_kept (bw_buf bw) (bw_buf bw1)
  /\ length tr <= 1
  /\ (e = None ->
      w_held (bw_buf bw1) = []
      /\ sink_bytes tr = w_held (bw_buf bw)
      /\ bw_err bw1 = None).
Proof.
  unfold BufferedWriter_Flush. destruct (bw_err bw) as [x|] eqn:Hs.
  - simpl. split; [apply Writer_kept_refl|]. split; [lia|discriminate].
  - pose proof (bufio_FlushPtr_spec (bw_buf bw) (bw_dst bw)) as HB.
    destruct (bufio.FlushPtr (bw_buf bw) (bw_dst bw))
      as [[[e b'] dst'] tr].
    destruct HB as [Hk [Hl Hok]]. destruct e as [x|]; simpl.
    + split; [exact Hk|]. split; [exact Hl|discriminate].
    + split; [exact Hk|]. split; [exact Hl|]. intros _.
      destruct (Hok eq_refl) as [Hb Hsb]. repeat split; assumption.
Qed.

(** X2.  The write engine keeps the io.Writer contract of its own: Write never
    reports more than [len(p)] bytes, and when it reports fewer it returns
    an error.  In particular a Write that returns nil took all of [p]. *)
Theorem Write_keeps_the_Writer_contract :
  forall (W : Type) (HW : io.Writer W) (bw : BufferedWriter W) (p : list byte),
    let '((n, e), _, _) := BufferedWriter_Write bw p in
    n <= length p
    /\ (n < length p -> e <> None)
    /\ (e = None -> n = length p).
Proof.
  intros W HW bw p. pose proof (Write_facts bw p) as HF.
  destruct (BufferedWriter_Write bw p) as [[[n e] bw1] tr].
  destruct HF as [Hle [Hlt _]]. repeat split; [exact Hle|exact Hlt|].
  intros He. destruct (Nat.lt_ge_cases n (length p)) as [Hl|Hg]; [|lia].
  exfalso. apply (Hlt Hl He).
Qed.

Lemma run_writer_op_kept {W : Type} `{WriterType W} (bw : BufferedWriter W)
    (op : writer_op) :
  Writer_kept (bw_buf bw) (bw_buf (snd (fst (run_writer_op bw op)))).
Proof.
  destruct op as [p|p off| |]; simpl.
  - pose proof (Write_facts bw p) as HF.
    destruct (BufferedWriter_Write bw p) as [[[n e] bw1] tr].
    destruct HF as [_ [_ [Hk _]]]. exact Hk.
  - unfold BufferedWriter_WriteAt.
    destruct (bw_dstAt bw) as [dstAt|]; [|apply Writer_kept_refl].
    destruct (bw_err bw); [apply Writer_kept_refl|].
    destruct (io.WriteAt (bw_dst bw) p off) as [[n e] dst'].
    match goal with |- context [bw_deliver ?x p n e ?t] =>
      destruct (bw_deliver_fields x p n e t) as [_ [_ [_ Hbuf]]]
    end.
    rewrite Hbuf. simpl. apply Writer_kept_refl.
  - pose proof (Flush_facts bw) as HF.
    destruct (BufferedWriter_Flush bw) as [[e bw1] tr].
    destruct HF as [Hk _]. exact Hk.
  - unfold BufferedWriter_Close.
    destruct (bw_closed bw); [apply Writer_kept_refl|].
    fold (mark_closed bw). pose proof (Flush_facts (mark_closed bw)) as HF.
    destruct (BufferedWriter_Flush (mark_closed bw)) as [[e bw1] tr].
    destruct HF as [Hk _]. simpl in Hk.
    destruct e; [exact Hk|].
    destruct wt_Closer as [closer|]; [|exact Hk].
    destruct (io.Close (bw_dst bw1)) as [ce dst']. exact Hk.
Qed.

Lemma run_writer_ops_kept {W : Type} `{WriterType W} (ops : list writer_op) :
  forall bw : BufferedWriter W,
    Writer_kept (bw_buf bw) (bw_buf (snd (fst (run_writer_ops bw ops)))).
Proof.
  induction ops as [|op ops IH]; intros bw; simpl; [apply Writer_kept_refl|].
  pose proof (run_writer_op_kept bw op) as H1.
  destruct (run_writer_op bw op) as [[r bw1] tr1]. simpl in H1.
  specialize (IH bw1).
  destruct (run_writer_ops bw1 ops) as [[rs bw2] tr2]. simpl in *.
  exact (Writer_kept_trans _ _ _ H1 IH).
Qed.

(** X3.  The buffer of a write engine never outgrows its 32 KiB.  Unless the
    sink is itself a bufio.Writer with a buffer of at least 32 KiB, the
    engine NewWriter makes has a Writer of its own, and after any sequence
    of Write, WriteAt, Flush and Close that Writer still has capacity 32768
    and holds at most that many bytes.  When the sink is such a
    bufio.Writer, it is and stays what the engine uses as its buffer. *)
Theorem write_buffer_stays_within_capacity :
  forall (W : Type) (HW : WriterType W) (w : W) (cbs : list WriteCallback)
         (ops : list writer_op),
    let bw' := snd (fst (run_writer_ops (NewWriter w cbs) ops)) in
    (is_bufio_Writer_of w (32 * 1024) = false ->
     exists b : bufio.Writer,
       bw_buf bw' = bufio.Writer_around b
       /\ bufio.w_size b = (32 * 1024)%N
       /\ (N.of_nat (length (bufio.w_buf b)) <= 32 * 1024)%N)
    /\ (is_bufio_Writer_of w (32 * 1024) = true ->
        exists m : bufio.IsWriter W,
          wt_bufioWriter = Some m /\ bw_buf bw' = bufio.wr_itself m).
Proof.
  intros W HW w cbs ops. cbv zeta.
  pose proof (run_writer_ops_kept ops (NewWriter w cbs)) as HK.
  destruct (bw_buf (snd (fst (run_writer_ops (NewWriter w cbs) ops))))
    as [m'|b'].
  - revert HK. unfold is_bufio_Writer_of, NewWriter, bufio.NewWriterSize.
    simpl. destruct wt_bufioWriter as [m|]; [|contradiction].
    destruct (N.leb (32 * 1024) (bufio.Writer_Size w)); simpl;
      [|contradiction].
    intros ->. split; [discriminate|]. intros _. exists m. split; reflexivity.
  - revert HK. unfold is_bufio_Writer_of, NewWriter, bufio.NewWriterSize.
    simpl.
    assert (Hfresh : @Writer_kept W
              (bufio.Writer_around (bufio.mkWriter (32 * 1024) [] None))
              (bufio.Writer_around b') ->
            exists b : bufio.Writer,
              @bufio.Writer_around W b' = bufio.Writer_around b
              /\ bufio.w_size b = (32 * 1024)%N
              /\ (N.of_nat (length (bufio.w_buf b)) <= 32 * 1024)%N).
    { simpl. intros [Hsz Hcap]. exists b'. split; [reflexivity|].
      split; [exact Hsz|]. rewrite <- Hsz. apply Hcap. simpl. lia. }
    destruct wt_bufioWriter as [m|].
    + destruct (N.leb (32 * 1024) (bufio.Writer_Size w)); simpl;
        [contradiction|].
      intros HK. split; [intros _; exact (Hfresh HK)|discriminate].
    + intros HK. split; [intros _; exact (Hfresh HK)|discriminate].
Qed.

Lemma write_buffer_stays_within_capacity_witness :
  (is_bufio_Writer_of (mkMockWriter [] None None ∅) (32 * 1024) = false
   /\ exists b : bufio.Writer,
        bw_buf (snd (fst (run_writer_ops recording_writer
                            [op_Write (bytes_of "hello"); op_Flush])))
        = bufio.Writer_around b
        /\ bufio.w_size b = (32 * 1024)%N
        /\ (N.of_nat (length (bufio.w_buf b)) <= 32 * 1024)%N)
  /\ (is_bufio_Writer_of (bufio_sink (64 * 1024)) (32 * 1024) = true
      /\ exists m : bufio.IsWriter bufioWriter,
           wt_bufioWriter = Some m
           /\ bw_buf (snd (fst (run_writer_ops
                                  (NewWriter (bufio_sink (64 * 1024))
                                             [recorder "test"])
                                  [op_Write (bytes_of "hello"); op_Flush])))
              = bufio.wr_itself m).
Proof.
  split; (split; [reflexivity|]).
  - exact (proj1 (write_buffer_stays_within_capacity mockWriter _
                    (mkMockWriter [] None None ∅) [recorder "test"]
                    [op_Write (bytes_of "hello"); op_Flush]) eq_refl).
  - exact (proj2 (write_buffer_stays_within_capacity bufioWriter _
                    (bufio_sink (64 * 1024)) [recorder "test"]
                    [op_Write (bytes_of "hello"); op_Flush]) eq_refl).
Defined.

Lemma run_writer_op_bytes {W : Type} `{WriterType W} (bw : BufferedWriter W)
    (op : writer_op) :
  let '((_, e), bw1, tr) := run_writer_op bw op in
  e = None ->
  sink_bytes tr ++ w_held (bw_buf bw1)
  = w_held (bw_buf bw) ++ sequential_bytes [op].
Proof.
  destruct op as [p|p off| |]; simpl.
  - pose proof (Write_facts bw p) as HF.
    destruct (BufferedWriter_Write bw p) as [[[n e] bw1] tr].
    destruct HF as [_ [_ [_ Hok]]]. intros He. rewrite app_nil_r.
    exact (Hok He).
  - unfold BufferedWriter_WriteAt.
    destruct (bw_dstAt bw) as [dstAt|]; [|discriminate].
    destruct (bw_err bw); [discriminate|].
    destruct (io.WriteAt (bw_dst bw) p off) as [[n e] dst'].
    match goal with |- context [bw_deliver ?x p n e ?t] =>
      pose proof (bw_deliver_fields x p n e t) as [_ [_ [_ Hbuf]]];
      pose proof (bw_deliver_sink_bytes x p n e t) as Hsb;
      destruct (bw_deliver x p n e t) as [[[n1 e1] bw1] tr1]
    end.
    simpl in *. intros _. rewrite Hsb, Hbuf, app_nil_r. reflexivity.
  - pose proof (Flush_facts bw) as HF.
    destruct (BufferedWriter_Flush bw) as [[e bw1] tr].
    destruct HF as [_ [_ Hok]]. intros He.
    destruct (Hok He) as [Hb [Hsb _]]. rewrite Hb, Hsb, !app_nil_r.
    reflexivity.
  - unfold BufferedWriter_Close. destruct (bw_closed bw);
      [intros _; rewrite app_nil_r; reflexivity|].
    fold (mark_closed bw). pose proof (Flush_facts (mark_closed bw)) as HF.
    destruct (BufferedWriter_Flush (mark_closed bw)) as [[e bw1] tr].
    destruct HF as [_ [_ Hok]]. simpl in Hok.
    destruct e as [x|]; [discriminate|].
    destruct (Hok eq_refl) as [Hb [Hsb _]].
    destruct wt_Closer as [closer|].
    + destruct (io.Close (bw_dst bw1)) as [ce dst']. simpl. intros _.
      rewrite sink_bytes_app, Hb, Hsb. simpl. rewrite !app_nil_r. reflexivity.
    + intros _. rewrite Hb, Hsb, !app_nil_r. reflexivity.
Qed.

(** X4.  Nothing is lost, doubled or reordered on the way to the sink.  When
    every call of a sequence of Write, WriteAt, Flush and Close returns nil,
    the bytes handed to the sink by sequential writes, followed by what
    is still buffered, are exactly what was buffered before followed by the
    arguments of the Writes, in order.  (What is buffered is what the
    engine's own Writer holds; an engine whose buffer is the sink itself
    holds nothing back.) *)
Theorem sequential_writes_reach_the_sink_in_order :
  forall (W : Type) (HW : WriterType W) (ops : list writer_op)
         (bw : BufferedWriter W),
    let '(rs, bw', tr) := run_writer_ops bw ops in
    Forall (fun r => snd r = None) rs ->
    sink_bytes tr ++ w_held (bw_buf bw')
    = w_held (bw_buf bw) ++ sequential_bytes ops.
Proof.
  intros W HW ops. induction ops as [|op ops IH]; intros bw; simpl.
  - intros _. rewrite app_nil_r. reflexivity.
  - pose proof (run_writer_op_bytes bw op) as H1.
    destruct (run_writer_op bw op) as [[[n e] bw1] tr1].
    specialize (IH bw1).
    destruct (run_writer_ops bw1 ops) as [[rs bw2] tr2].
    intros HF. inversion HF as [|r rs' He Hrest]; subst. simpl in He.
    rewrite sink_bytes_app, <- app_assoc, (IH Hrest), app_assoc, (H1 He).
    destruct op; simpl; rewrite ?app_nil_r, <- ?app_assoc; reflexivity.
Qed.

(** X5.  On an engine with a Writer of its own, a Flush that returns nil has
    written everything that was buffered, left the buffer empty and stored
    no error; the Flush after it returns nil again, touches nothing and
    changes nothing. *)
Theorem Flush_empties_the_buffer_once :
  forall (W : Type) (HW : io.Writer W) (bw : BufferedWriter W)
         (b : bufio.Writer),
    bw_buf bw = bufio.Writer_around b ->
    let '(e, bw1, tr) := BufferedWriter_Flush bw in
    e = None ->
    sink_bytes tr = bufio.w_buf b
    /\ length tr <= 1
    /\ bw_buf bw1
       = bufio.Writer_around (bufio.mkWriter (bufio.w_size b) [] None)
    /\ bw_err bw1 = None
    /\ BufferedWriter_Flush bw1 = (None, bw1, []).
Proof.
  intros W HW bw b Hbuf.
  pose proof (bufio_Flush_trace b (bw_dst bw)) as HT.
  unfold BufferedWriter_Flush.
  destruct (bw_err bw) as [x|] eqn:Hs; [discriminate|].
  rewrite Hbuf. simpl.
  destruct (bufio.Flush b (bw_dst bw)) as [[[e b'] dst'] tr] eqn:HF.
  destruct e as [x|]; [discriminate|]. simpl in *. intros _.
  destruct (bufio_Flush_ok _ _ _ _ _ HF) as [_ [Hb' Hsb]]. subst b'.
  repeat split; try assumption.
  destruct HT as [-> | ->]; simpl; lia.
Qed.

(** ** Positional access and empty transfers *)

(** X6.  ReadAt and WriteAt go past the sequential buffer.  Whatever they
    return, the engine's buffer is as it was, so data waiting to be read or
    flushed is neither consumed nor written; and the stream sees exactly one
    positional call, with the caller's length / bytes and offset, when the
    stream has positional access and the sticky slot is empty, and no call
    at all otherwise. *)
Theorem positional_calls_bypass_the_buffer :
  (forall (R : Type) (br : BufferedReader R) (len_p : N) (off : Z),
      br_buf (snd (fst (BufferedReader_ReadAt br len_p off))) = br_buf br
      /\ stream_calls (snd (BufferedReader_ReadAt br len_p off))
         = match br_srcAt br, br_err br with
           | Some _, None => [ev_ReadAt len_p off]
           | _, _ => []
           end)
  /\ (forall (W : Type) (bw : BufferedWriter W) (p : list byte) (off : Z),
         bw_buf (snd (fst (BufferedWriter_WriteAt bw p off))) = bw_buf bw
         /\ stream_calls (snd (BufferedWriter_WriteAt bw p off))
            = match bw_dstAt bw, bw_err bw with
              | Some _, None => [ev_WriteAt p off]
              | _, _ => []
              end).
Proof.
  split.
  - intros R br k off. unfold BufferedReader_ReadAt.
    destruct (br_srcAt br) as [srcAt|]; [|split; reflexivity].
    destruct (br_err br); [split; reflexivity|].
    destruct (io.ReadAt (br_src br) k off) as [[d e] src'].
    match goal with |- context [br_deliver ?x d e ?t] =>
      destruct (br_deliver_fields x d e t) as [_ [Hbuf Hst]]
    end.
    rewrite Hbuf, Hst. split; reflexivity.
  - intros W bw p off. unfold BufferedWriter_WriteAt.
    destruct (bw_dstAt bw) as [dstAt|]; [|split; reflexivity].
    destruct (bw_err bw); [split; reflexivity|].
    destruct (io.WriteAt (bw_dst bw) p off) as [[n e] dst'].
    match goal with |- context [bw_deliver ?x p n e ?t] =>
      destruct (bw_deliver_fields x p n e t) as [_ [_ [_ Hbuf]]];
      pose proof (bw_deliver_stream_calls x p n e t) as Hst
    end.
    rewrite Hbuf, Hst. split; reflexivity.
Qed.

(** X7.  Empty transfers do nothing on an engine with a buffer of its own.
    Write with an empty [p] returns 0 and the error already held (the sticky
    one, else the one bufio.Writer keeps, else nil), leaves the engine
    exactly as it was and touches neither sink nor observers.  Read with an
    empty [p] returns no bytes, reads nothing from the source, calls no
    observer and leaves source, buffered bytes and observers as they
    were. *)
Theorem empty_transfers_do_nothing :
  (forall (W : Type) (HW : io.Writer W) (bw : BufferedWriter W)
          (b : bufio.Writer),
      bw_buf bw = bufio.Writer_around b ->
      BufferedWriter_Write bw []
      = ((0, match bw_err bw with
             | Some e => Some e
             | None => bufio.w_err b
             end),
         bw, []))
  /\ (forall (R : Type) (HR : io.Reader R) (br : BufferedReader R)
             (b : bufio.Reader),
         br_buf br = bufio.Reader_around b ->
         let '((d, _), br1, tr) := BufferedReader_Read br 0 in
         d = [] /\ tr = []
         /\ br_src br1 = br_src br
         /\ r_held (br_buf br1) = bufio.r_buf b
         /\ br_callbacks br1 = br_callbacks br
         /\ br_err br1 = br_err br).
Proof.
  split.
  - intros W HW bw b Hbuf. unfold BufferedWriter_Write.
    destruct (bw_err bw) as [x|] eqn:Hs; [reflexivity|].
    rewrite Hbuf. simpl.
    unfold bufio.Write. cbn [bufio.Write_loop]. simpl length.
    assert (Hc : N.ltb (bufio.Available b) (N.of_nat 0) = false)
      by (apply N.ltb_ge; lia).
    rewrite Hc. simpl andb. cbv iota.
    destruct bw as [dst dstAt pb cbs er cl]. simpl in *. subst er pb.
    destruct b as [sz buf werr]. simpl.
    destruct werr; simpl; [reflexivity|].
    assert (Hcc : bufio.copy_count (bufio.mkWriter sz buf None) [] = 0)
      by (unfold bufio.copy_count; simpl; rewrite N.min_0_r; reflexivity).
    rewrite Hcc. unfold bw_deliver. simpl. rewrite app_nil_r. reflexivity.
  - intros R HR br b Hbuf. unfold BufferedReader_Read.
    destruct (br_err br) eqn:Hs.
    { rewrite Hbuf. repeat split; assumption. }
    rewrite Hbuf. simpl.
    unfold bufio.Read, bufio.readErr. simpl.
    destruct (bufio.r_buf b) eqn:Hb; unfold br_deliver; simpl;
      repeat split; auto.
Qed.

Lemma empty_transfers_do_nothing_witness :
  (bw_buf recording_writer
   = bufio.Writer_around (bufio.mkWriter (32 * 1024) [] None)
   /\ BufferedWriter_Write recording_writer []
      = ((0, None), recording_writer, []))
  /\ (br_buf hello_reader
      = bufio.Reader_around (bufio.mkReader (32 * 1024) [] None)
      /\ fst (fst (fst (BufferedReader_Read hello_reader 0))) = []
      /\ snd (BufferedReader_Read hello_reader 0) = []).
Proof.
  split; (split; [reflexivity|]).
  - exact (proj1 empty_transfers_do_nothing mockWriter _ recording_writer
             (bufio.mkWriter (32 * 1024) [] None) eq_refl).
  - pose proof (proj2 empty_transfers_do_nothing mockReader _ hello_reader
                  (bufio.mkReader (32 * 1024) [] None) eq_refl) as H.
    destruct (BufferedReader_Read hello_reader 0) as [[[d e] br1] tr].
    destruct H as [Hd [Ht _]]. split; assumption.
Defined.

(** ** What a read engine delivers *)

Lemma br_deliver_data {R : Type} (br : BufferedReader R)
    (d : list byte) (e : option error) (tr0 : trace) :
  fst (fst (fst (br_deliver br d e tr0))) = d
  /\ br_src (snd (fst (br_deliver br d e tr0))) = br_src br
  /\ br_buf (snd (fst (br_deliver br d e tr0))) = br_buf br
  /\ br_srcAt (snd (fst (br_deliver br d e tr0))) = br_srcAt br.
Proof.
  destruct (br_deliver_observer_calls br d e tr0) as [Hd _].
  destruct (br_deliver_fields br d e tr0) as [Hs [Hb _]].
  pose proof (br_deliver_srcAt br d e tr0) as Ha.
  repeat split; assumption.
Qed.

Lemma mockReader_Read_bytes (m : mockReader) (k : N) :
  mr_err m = None ->
  fst (fst (mockReader_Read m k)) ++ mr_data (snd (mockReader_Read m k))
  = mr_data m
  /\ mr_err (snd (mockReader_Read m k)) = None.
Proof.
  intros Hm. unfold mockReader_Read. rewrite Hm.
  destruct (mr_data m) as [|y data] eqn:Hd; simpl.
  - split; [exact Hd|exact Hm].
  - split; [|reflexivity]. apply (firstn_skipn (N.to_nat k) (y :: data)).
Qed.

(** One Read over the in-memory source of the tests moves bytes from the
    source into the buffer and from the buffer to the caller, and does
    nothing else to them. *)
Lemma bufio_Read_mockReader (b : bufio.Reader) (m : mockReader) (k : N) :
  mr_err m = None ->
  let '((d, _), b', m', _) := bufio.Read b m k in
  d ++ bufio.r_buf b' ++ mr_data m' = bufio.r_buf b ++ mr_data m
  /\ mr_err m' = None.
Proof.
  intros Hm. unfold bufio.Read, bufio.readErr, bufio.copy_out.
  destruct (N.eqb k 0).
  - destruct (bufio.r_buf b) eqn:Hb; simpl; (split; [|exact Hm]);
      rewrite ?Hb; reflexivity.
  - destruct (bufio.r_buf b) as [|x buf] eqn:Hb.
    + destruct (negb (is_nil (bufio.r_err b))); simpl;
        [split; [rewrite ?Hb; reflexivity|exact Hm]|].
      destruct (N.leb (bufio.r_size b) k).
      * pose proof (mockReader_Read_bytes m k Hm) as [H1 H2].
        change (io.Read m k) with (mockReader_Read m k).
        destruct (mockReader_Read m k) as [[d0 e0] m']. simpl in *.
        split; assumption.
      * pose proof (mockReader_Read_bytes m (bufio.r_size b) Hm) as [H1 H2].
        change (io.Read m (bufio.r_size b))
          with (mockReader_Read m (bufio.r_size b)).
        destruct (mockReader_Read m (bufio.r_size b)) as [[d0 e0] m'].
        simpl in *. destruct d0 as [|z d0]; simpl.
        -- split; assumption.
        -- split; [|exact H2].
           rewrite app_assoc.
           change (firstn (N.to_nat k) (z :: d0)
                   ++ skipn (N.to_nat k) (z :: d0))
             with (firstn (N.to_nat k) (z :: d0)
                   ++ skipn (N.to_nat k) (z :: d0)).
           rewrite (firstn_skipn (N.to_nat k) (z :: d0)). exact H1.
    + simpl. split; [|exact Hm]. rewrite app_assoc.
      rewrite (firstn_skipn (N.to_nat k) (x :: buf)). reflexivity.
Qed.

Lemma run_reader_op_mockReader (br : BufferedReader mockReader)
    (b : bufio.Reader) (op : reader_op) :
  br_srcAt br = None -> mr_err (br_src br) = None ->
  br_buf br = bufio.Reader_around b ->
  let '((d, _), br1, _) := run_reader_op br op in
  exists b1 : bufio.Reader,
    br_buf br1 = bufio.Reader_around b1
    /\ d ++ bufio.r_buf b1 ++ mr_data (br_src br1)
       = bufio.r_buf b ++ mr_data (br_src br)
    /\ br_srcAt br1 = None /\ mr_err (br_src br1) = None.
Proof.
  intros Ha Hm Hbuf. destruct op as [k|k off]; simpl.
  - unfold BufferedReader_Read.
    destruct (br_err br); [exists b; repeat split; auto|].
    rewrite Hbuf. simpl.
    pose proof (bufio_Read_mockReader b (br_src br) k Hm) as HB.
    destruct (bufio.Read b (br_src br) k) as [[[[d e] b'] m'] tr].
    match goal with |- context [br_deliver ?x d e tr] =>
      destruct (br_deliver_data x d e tr) as [Hd [Hs [Hb Hsa]]];
      destruct (br_deliver x d e tr) as [[[d1 e1] br1] tr1]
    end.
    simpl in *. subst d1. rewrite Hs, Hb, Hsa. destruct HB as [HB1 HB2].
    exists b'. repeat split; assumption.
  - unfold BufferedReader_ReadAt. rewrite Ha. simpl.
    exists b. repeat split; auto.
Qed.

(** X8.  Reading through an engine neither loses, doubles nor reorders bytes.
    For the in-memory source of the tests holding [data], any observers and
    any sequence of Read and ReadAt calls (also after an observer failed or
    the end was reached): the engine has a Reader of its own, and the bytes
    returned by the calls, in order, followed by the bytes waiting in that
    Reader's buffer and the bytes still in the source, are [data]. *)
Theorem reads_deliver_the_source_in_order :
  forall (data : list byte) (cbs : list ReadCallback) (ops : list reader_op),
    let '(rs, br', _) :=
      run_reader_ops (NewReader (mkMockReader data None) cbs) ops in
    match br_buf br' with
    | bufio.Reader_around b =>
        concat (map fst rs) ++ bufio.r_buf b ++ mr_data (br_src br') = data
    | bufio.rd_itself => False
    end.
Proof.
  intros data cbs ops.
  assert (Hgen : forall (br : BufferedReader mockReader) (b : bufio.Reader),
    br_srcAt br = None -> mr_err (br_src br) = None ->
    br_buf br = bufio.Reader_around b ->
    let '(rs, br', _) := run_reader_ops br ops in
    match br_buf br' with
    | bufio.Reader_around b' =>
        concat (map fst rs) ++ bufio.r_buf b' ++ mr_data (br_src br')
        = bufio.r_buf b ++ mr_data (br_src br)
    | bufio.rd_itself => False
    end).
  { induction ops as [|op ops IH]; intros br b Ha Hm Hbuf; simpl;
      [rewrite Hbuf; reflexivity|].
    pose proof (run_reader_op_mockReader br b op Ha Hm Hbuf) as H1.
    destruct (run_reader_op br op) as [[[d e] br1] tr1].
    destruct H1 as [b1 [Hb1 [H1 [Ha1 Hm1]]]].
    specialize (IH br1 b1 Ha1 Hm1 Hb1).
    destruct (run_reader_ops br1 ops) as [[rs br2] tr2].
    simpl. destruct (br_buf br2) as [|b2]; [exact IH|].
    rewrite <- app_assoc, IH. exact H1. }
  exact (Hgen (NewReader (mkMockReader data None) cbs)
              (bufio.mkReader (32 * 1024) [] None) eq_refl eq_refl eq_refl).
Qed.

(** ** What the observers have seen *)

Lemma dispatch_loop_ok (cbs : list ReadCallback) (chunk : list byte) :
  forall i,
    fst (fst (dispatch_loop i cbs chunk)) = Returned None ->
    snd (fst (dispatch_loop i cbs chunk))
    = map (fun cb => snd (cb_OnData cb chunk)) cbs
    /\ first_failing cbs chunk = None.
Proof.
  induction cbs as [|cb rest IH]; intros i; simpl; [split; reflexivity|].
  unfold cb_accepts.
  destruct (cb_OnData cb chunk) as [o cb'] eqn:Hcb. simpl.
  destruct o as [[e|]|v]; simpl; try discriminate.
  specialize (IH (S i)).
  destruct (dispatch_loop (S i) rest chunk) as [[x rest'] tr]. simpl in *.
  intros Hx. destruct (IH Hx) as [IH1 IH2]. rewrite IH1, IH2.
  split; reflexivity.
Qed.

Lemma dispatch_ok (cbs : list ReadCallback) (chunk : list byte) :
  fst (fst (dispatch cbs chunk)) = None ->
  snd (fst (dispatch cbs chunk)) = map (fun cb => snd (cb_OnData cb chunk)) cbs
  /\ calls_made cbs chunk = length cbs.
Proof.
  unfold dispatch, calls_made.
  pose proof (dispatch_loop_ok cbs chunk 0) as HL.
  destruct (dispatch_loop 0 cbs chunk) as [[x cbs'] tr].
  destruct x as [e|v]; simpl in *; [|discriminate].
  intros ->. destruct (HL eq_refl) as [H1 H2]. rewrite H2.
  split; [exact H1|reflexivity].
Qed.

Lemma feed_nil_all (cbs : list ReadCallback) :
  map (fun cb => feed cb []) cbs = cbs.
Proof. induction cbs as [|cb rest IH]; simpl; [reflexivity|]. f_equal. exact IH. Qed.

Lemma feed_all_app (cbs : list ReadCallback) (c1 c2 : list (list byte)) :
  map (fun cb => feed cb c2) (map (fun cb => feed cb c1) cbs)
  = map (fun cb => feed cb (c1 ++ c2)) cbs.
Proof.
  rewrite map_map. apply map_ext. intros cb. unfold feed.
  rewrite fold_left_app. reflexivity.
Qed.

Lemma br_deliver_feeds {R : Type} (br : BufferedReader R)
    (d : list byte) (e : option error) (tr0 : trace) :
  br_err br = None ->
  br_err (snd (fst (br_deliver br d e tr0))) = None ->
  br_callbacks (snd (fst (br_deliver br d e tr0)))
  = map (fun cb => feed cb (nonempty_chunks [d])) (br_callbacks br)
  /\ observer_calls (snd (br_deliver br d e tr0))
     = observer_calls tr0
       ++ flat_map (calls_in_order (length (br_callbacks br)))
                   (nonempty_chunks [d]).
Proof.
  intros Hnil. unfold br_deliver, nonempty_chunks.
  destruct d as [|x d']; simpl.
  - intros _. rewrite feed_nil_all, app_nil_r. split; reflexivity.
  - destruct (br_callbacks br) as [|cb rest] eqn:Hcbs; simpl.
    + intros _. rewrite app_nil_r. split; [exact Hcbs|reflexivity].
    + pose proof (dispatch_ok (cb :: rest) (x :: d')) as HD.
      pose proof (dispatch_observer_calls (cb :: rest) (x :: d')) as HO.
      destruct (dispatch (cb :: rest) (x :: d')) as [[cbErr cbs'] tr'].
      simpl in HD, HO. destruct cbErr; simpl; [discriminate|].
      intros _. destruct (HD eq_refl) as [H1 H2].
      rewrite observer_calls_app, HO, H2, H1, app_nil_r. simpl.
      split; reflexivity.
Qed.

Lemma run_reader_op_feeds {R : Type} `{io.Reader R} (br : BufferedReader R)
    (op : reader_op) :
  let '((d, _), br1, tr) := run_reader_op br op in
  br_err br1 = None ->
  br_err br = None
  /\ br_callbacks br1
     = map (fun cb => feed cb (nonempty_chunks [d])) (br_callbacks br)
  /\ observer_calls tr
     = flat_map (calls_in_order (length (br_callbacks br)))
                (nonempty_chunks [d]).
Proof.
  destruct op as [k|k off]; simpl.
  - unfold BufferedReader_Read. destruct (br_err br) eqn:Hs;
      [simpl; rewrite Hs; discriminate|].
    pose proof (bufio_ReadPtr_observer_calls (br_buf br) (br_src br) k) as HB.
    destruct (bufio.ReadPtr (br_buf br) (br_src br) k) as [[[[d e] b'] src'] tr].
    simpl in HB.
    match goal with |- context [br_deliver ?x d e tr] =>
      pose proof (br_deliver_feeds x d e tr eq_refl) as HF;
      destruct (br_deliver_data x d e tr) as [Hd _];
      destruct (br_deliver x d e tr) as [[[d1 e1] br1] tr1]
    end.
    simpl in *. subst d1. intros H1. destruct (HF H1) as [HF1 HF2].
    rewrite HB in HF2. repeat split; assumption.
  - unfold BufferedReader_ReadAt. destruct (br_srcAt br) as [srcAt|].
    + destruct (br_err br) eqn:Hs;
      [simpl; rewrite Hs; discriminate|].
      destruct (io.ReadAt (br_src br) k off) as [[d e] src'].
      match goal with |- context [br_deliver ?x d e ?t] =>
        pose proof (br_deliver_feeds x d e t eq_refl) as HF;
        destruct (br_deliver_data x d e t) as [Hd _];
        destruct (br_deliver x d e t) as [[[d1 e1] br1] tr1]
      end.
      simpl in *. subst d1. intros H1. destruct (HF H1) as [HF1 HF2].
      repeat split; assumption.
    + simpl. intros H1. rewrite feed_nil_all. repeat split; assumption.
Qed.

Lemma nonempty_chunks_cons (d : list byte) (ds : list (list byte)) :
  nonempty_chunks (d :: ds) = nonempty_chunks [d] ++ nonempty_chunks ds.
Proof.
  unfold nonempty_chunks. simpl.
  destruct (negb (Nat.eqb (length d) 0)); reflexivity.
Qed.

Lemma concat_nonempty_chunks (ds : list (list byte)) :
  concat (nonempty_chunks ds) = concat ds.
Proof.
  induction ds as [|d ds IH]; [reflexivity|].
  rewrite nonempty_chunks_cons, concat_app, IH.
  unfold nonempty_chunks. destruct d; simpl; [reflexivity|].
  rewrite app_nil_r. reflexivity.
Qed.

Lemma run_reader_ops_stays_stuck {R : Type} `{io.Reader R}
    (br : BufferedReader R) (ops : list reader_op) :
  br_err (snd (fst (run_reader_ops br ops))) = None -> br_err br = None.
Proof.
  intros Hfin. destruct (br_err br) as [x|] eqn:Hs; [|reflexivity].
  rewrite (run_reader_ops_sticky x ops br Hs) in Hfin. simpl in Hfin.
  congruence.
Qed.

Lemma run_reader_ops_feeds {R : Type} `{io.Reader R} (ops : list reader_op) :
  forall br : BufferedReader R,
    let '(rs, br', tr) := run_reader_ops br ops in
    br_err br' = None ->
    br_callbacks br'
    = map (fun cb => feed cb (nonempty_chunks (map fst rs))) (br_callbacks br)
    /\ observer_calls tr
       = flat_map (calls_in_order (length (br_callbacks br)))
                  (nonempty_chunks (map fst rs)).
Proof.
  induction ops as [|op ops IH]; intros br; simpl.
  - intros _. rewrite feed_nil_all. split; reflexivity.
  - pose proof (run_reader_op_feeds br op) as H1.
    destruct (run_reader_op br op) as [[[d e] br1] tr1].
    specialize (IH br1).
    pose proof (run_reader_ops_stays_stuck br1 ops) as Hstuck.
    destruct (run_reader_ops br1 ops) as [[rs br2] tr2].
    simpl in Hstuck. intros Hfin.
    destruct (H1 (Hstuck Hfin)) as [_ [H1a H1b]].
    destruct (IH Hfin) as [IHa IHb].
    simpl map. rewrite nonempty_chunks_cons.
    rewrite IHa, H1a, feed_all_app.
    rewrite observer_calls_app, H1b, IHb, flat_map_app.
    rewrite H1a, length_map.
    split; rewrite <- ?nonempty_chunks_cons; reflexivity.
Qed.

(** X9.  Every observer of a read engine has been handed exactly the non-empty
    results of the calls, in the order of the calls.  For any source, any
    observers and any sequence of Read and ReadAt calls after which the
    sticky slot is empty: each observer is in the state it reaches when fed
    the non-empty returned chunks one after the other, and the observer calls
    made are, chunk by chunk, one call to each observer in registration
    order. *)
Theorem observers_see_every_delivered_chunk :
  forall (R : Type) (HR : io.Reader R) (br : BufferedReader R)
         (ops : list reader_op),
    let '(rs, br', tr) := run_reader_ops br ops in
    br_err br' = None ->
    br_callbacks br'
    = map (fun cb => feed cb (nonempty_chunks (map fst rs))) (br_callbacks br)
    /\ observer_calls tr
       = flat_map (calls_in_order (length (br_callbacks br)))
                  (nonempty_chunks (map fst rs)).
Proof. intros R HR br ops. exact (run_reader_ops_feeds ops br). Qed.

Lemma observers_see_every_delivered_chunk_witness :
  br_err (snd (fst (run_reader_ops hello_reader [op_Read 5; op_Read 0; op_Read 9])))
  = None
  /\ observer_calls (snd (run_reader_ops hello_reader
                            [op_Read 5; op_Read 0; op_Read 9]))
     = [(0, bytes_of "hello"); (0, bytes_of " world")].
Proof.
  assert (Hs : br_err (snd (fst (run_reader_ops hello_reader
                                   [op_Read 5; op_Read 0; op_Read 9]))) = None)
    by (vm_compute; reflexivity).
  split; [exact Hs|].
  pose proof (observers_see_every_delivered_chunk mockReader _ hello_reader
                [op_Read 5; op_Read 0; op_Read 9]) as H.
  destruct (run_reader_ops hello_reader [op_Read 5; op_Read 0; op_Read 9])
    as [[rs br'] tr] eqn:E.
  simpl in Hs. destruct (H Hs) as [_ H2].
  assert (Hrs : map fst rs = [bytes_of "hello"; []; bytes_of " world"]).
  { apply (f_equal (fun x => map fst (fst (fst x)))) in E.
    vm_compute in E. symmetry. exact E. }
  simpl. rewrite H2, Hrs. reflexivity.
Defined.

(** ** The stock observers *)

Lemma feed_as_callback {T : Type} `{Callback T} (chunks : list (list byte)) :
  forall t : T,
    feed (as_callback t) chunks = as_callback (snd (observe t chunks)).
Proof.
  induction chunks as [|c rest IH]; intros t; [reflexivity|].
  unfold feed in *. simpl. unfold cb_OnData at 2. simpl.
  destruct (OnData t c) as [o t']. simpl. rewrite IH.
  destruct (observe t' rest) as [os t'']. reflexivity.
Qed.

Lemma run_reader_ops_observer {R : Type} `{io.Reader R} {T : Type}
    `{Callback T} (br : BufferedReader R) (ops : list reader_op) (i : nat)
    (t : T) :
  br_callbacks br !! i = Some (as_callback t) ->
  let '(rs, br', _) := run_reader_ops br ops in
  br_err br' = None ->
  br_callbacks br' !! i
  = Some (as_callback (snd (observe t (nonempty_chunks (map fst rs))))).
Proof.
  intros Hi. pose proof (run_reader_ops_feeds ops br) as HF.
  destruct (run_reader_ops br ops) as [[rs br'] tr]. intros Hs.
  destruct (HF Hs) as [HF1 _]. rewrite HF1.
  change (map ?f ?l) with (f <$> l).
  rewrite list_lookup_fmap, Hi. simpl. rewrite feed_as_callback. reflexivity.
Qed.

Lemma NewHashCallback_fresh `{Crypto} (algorithm : string) :
  NewHashCallback algorithm
  = mkHashCallback (name_of algorithm) (hash.mkHash (digest_of algorithm) []).
Proof.
  unfold NewHashCallback, name_of, digest_of.
  destruct (String.eqb algorithm "md5"); [reflexivity|].
  destruct (String.eqb algorithm "sha1"); [reflexivity|].
  destruct (String.eqb algorithm "sha256") eqn:E.
  - apply String.eqb_eq in E. subst algorithm. reflexivity.
  - destruct (String.eqb algorithm "sha512"); reflexivity.
Qed.

(** X10.  What a hash observer reports does not depend on how the data was cut
    into chunks.  For every algorithm name, NewHashCallback gives an observer
    whose OnData never fails and whose Result, after any sequence of chunks,
    is the digest of their concatenation: MD5, SHA-1 or SHA-512 when the
    name says so and SHA-256 for every other name; the observer is named
    like the algorithm it computes, and HexSum is the hex encoding of the
    same digest.  So two ways of chunking the same bytes give the same
    Result and the same HexSum. *)
Theorem HashCallback_digest_ignores_chunking :
  forall (C : Crypto) (algorithm : string) (chunks : list (list byte)),
    let hc := snd (observe (NewHashCallback algorithm) chunks) in
    Forall (fun o => o = Return None)
           (fst (observe (NewHashCallback algorithm) chunks))
    /\ Name hc = name_of algorithm
    /\ Result hc = any_bytes (digest_of algorithm (concat chunks))
    /\ HashCallback_HexSum hc
       = hex.EncodeToString (digest_of algorithm (concat chunks))
    /\ (forall chunks' : list (list byte),
           concat chunks' = concat chunks ->
           Result (snd (observe (NewHashCallback algorithm) chunks'))
           = Result hc
           /\ HashCallback_HexSum
                (snd (observe (NewHashCallback algorithm) chunks'))
              = HashCallback_HexSum hc).
Proof.
  intros C algorithm chunks. rewrite NewHashCallback_fresh.
  set (hc0 := mkHashCallback (name_of algorithm)
                             (hash.mkHash (digest_of algorithm) [])).
  assert (Hsum : forall cs,
    hash.Sum (hc_h (snd (observe hc0 cs))) = digest_of algorithm (concat cs)).
  { intros cs. destruct (observe_HashCallback cs hc0) as [_ [_ [HD HW]]].
    unfold hash.Sum. rewrite HD, HW. reflexivity. }
  destruct (observe_HashCallback chunks hc0) as [HF [HN _]].
  cbv zeta. repeat split.
  - exact HF.
  - exact HN.
  - simpl. rewrite Hsum. reflexivity.
  - unfold HashCallback_HexSum. rewrite Hsum. reflexivity.
  - simpl. rewrite !Hsum. congruence.
  - unfold HashCallback_HexSum. rewrite !Hsum. congruence.
Qed.

Lemma HashCallback_digest_ignores_chunking_witness :
  concat [bytes_of "hello"; bytes_of " world"] = concat [bytes_of "hello world"]
  /\ Result (snd (observe (@NewHashCallback toy_crypto "sha1")
                          [bytes_of "hello"; bytes_of " world"]))
     = Result (snd (observe (@NewHashCallback toy_crypto "sha1")
                            [bytes_of "hello world"])).
Proof.
  split; [reflexivity|].
  destruct (HashCallback_digest_ignores_chunking toy_crypto "sha1"
              [bytes_of "hello world"]) as [_ [_ [_ [_ H]]]].
  exact (proj1 (H [bytes_of "hello"; bytes_of " world"] eq_refl)).
Defined.

Lemma wrap_int64_id (z : Z) : int64 z -> wrap_int64 z = z.
Proof.
  unfold int64, wrap_int64. intros Hz.
  rewrite Z.mod_small; lia.
Qed.

Lemma wrap_int64_range (z : Z) : int64 (wrap_int64 z).
Proof.
  unfold int64, wrap_int64.
  pose proof (Z.mod_pos_bound (z + 2 ^ 63) (2 ^ 64) ltac:(lia)). lia.
Qed.

Lemma wrap_int64_add (a b : Z) :
  wrap_int64 (wrap_int64 a + b) = wrap_int64 (a + b).
Proof.
  unfold wrap_int64. f_equal.
  replace ((a + 2 ^ 63) mod 2 ^ 64 - 2 ^ 63 + b + 2 ^ 63)%Z
    with ((a + 2 ^ 63) mod 2 ^ 64 + b)%Z by lia.
  rewrite Z.add_mod_idemp_l by lia. f_equal. lia.
Qed.

Lemma observe_SizeCallback (chunks : list (list byte)) :
  forall sc : SizeCallback,
    int64 (sc_size sc) ->
    Forall (fun o => o = Return None) (fst (observe sc chunks))
    /\ sc_size (snd (observe sc chunks))
       = wrap_int64 (sc_size sc + Z.of_nat (length (concat chunks))).
Proof.
  induction chunks as [|c rest IH]; intros sc Hr; simpl.
  - split; [constructor|]. rewrite Z.add_0_r. symmetry.
    apply wrap_int64_id. exact Hr.
  - specialize (IH (mkSizeCallback
                      (wrap_int64 (sc_size sc + Z.of_nat (length c))))
                   (wrap_int64_range _)).
    destruct (observe (mkSizeCallback
                         (wrap_int64 (sc_size sc + Z.of_nat (length c)))) rest)
      as [os sc'].
    simpl in *. destruct IH as [IH1 IH2].
    split; [constructor; [reflexivity|exact IH1]|].
    rewrite IH2, wrap_int64_add, length_app, Nat2Z.inj_add. f_equal. lia.
Qed.

(** X11.  The size observer counts bytes.  Its OnData never fails; after any
    sequence of chunks Result and Size both hold the count it started with
    plus the total length of the chunks, in int64 arithmetic: the exact sum
    as long as that stays below 2^63, and the sum wrapped around into the
    int64 range beyond. *)
Theorem SizeCallback_counts_bytes :
  forall (sc : SizeCallback) (chunks : list (list byte)),
    int64 (sc_size sc) ->
    let sc' := snd (observe sc chunks) in
    let total := Z.of_nat (length (concat chunks)) in
    Forall (fun o => o = Return None) (fst (observe sc chunks))
    /\ Name sc' = "size"
    /\ Result sc' = any_int (SizeCallback_Size sc')
    /\ SizeCallback_Size sc' = wrap_int64 (sc_size sc + total)
    /\ int64 (SizeCallback_Size sc')
    /\ ((sc_size sc + total < 2 ^ 63)%Z ->
        SizeCallback_Size sc' = (sc_size sc + total)%Z).
Proof.
  intros sc chunks Hr. cbv zeta.
  destruct (observe_SizeCallback chunks sc Hr) as [HF HS].
  unfold SizeCallback_Size. repeat split; try reflexivity; try exact HF.
  - exact HS.
  - rewrite HS. apply wrap_int64_range.
  - rewrite HS. apply wrap_int64_range.
  - intros Hlt. rewrite HS. apply wrap_int64_id. unfold int64 in *. lia.
Qed.

Lemma SizeCallback_counts_bytes_witness :
  int64 (sc_size NewSizeCallback)
  /\ (sc_size NewSizeCallback + Z.of_nat (length (concat [bytes_of "hello";
                                                          bytes_of " world"]))
      < 2 ^ 63)%Z
  /\ SizeCallback_Size (snd (observe NewSizeCallback
                               [bytes_of "hello"; bytes_of " world"]))
     = 11%Z.
Proof.
  assert (Hr : int64 (sc_size NewSizeCallback)) by (unfold int64; simpl; lia).
  assert (Hlt : (sc_size NewSizeCallback
                 + Z.of_nat (length (concat [bytes_of "hello";
                                             bytes_of " world"]))
                 < 2 ^ 63)%Z) by (simpl; lia).
  split; [exact Hr|]. split; [exact Hlt|].
  destruct (SizeCallback_counts_bytes NewSizeCallback
              [bytes_of "hello"; bytes_of " world"] Hr)
    as [_ [_ [_ [_ [_ H]]]]].
  rewrite (H Hlt). reflexivity.
Defined.

(** X12.  The stock observers of a read engine report on exactly the bytes the
    caller received.  For any source and any sequence of Read and ReadAt
    calls after which the sticky slot is empty: a hash observer registered
    at position [i] is still there under its name and its Result is the
    digest of what it had seen before followed by the returned bytes in
    order; a size observer registered at position [i] reports its earlier
    count plus the number of returned bytes (as long as that is below
    2^63). *)
Theorem stock_observers_report_on_the_delivered_bytes :
  forall (R : Type) (HR : io.Reader R) (br : BufferedReader R)
         (ops : list reader_op) (i : nat),
    let '(rs, br', _) := run_reader_ops br ops in
    br_err br' = None ->
    (forall hc : HashCallback,
        br_callbacks br !! i = Some (as_callback hc) ->
        cb_Name <$> br_callbacks br' !! i = Some (hc_name hc)
        /\ cb_Result <$> br_callbacks br' !! i
           = Some (any_bytes
                     (hash.digest (hc_h hc)
                        (hash.written (hc_h hc) ++ concat (map fst rs)))))
    /\ (forall sc : SizeCallback,
           br_callbacks br !! i = Some (as_callback sc) ->
           int64 (sc_size sc) ->
           (sc_size sc + Z.of_nat (length (concat (map fst rs))) < 2 ^ 63)%Z ->
           cb_Result <$> br_callbacks br' !! i
           = Some (any_int (sc_size sc
                            + Z.of_nat (length (concat (map fst rs)))))).
Proof.
  intros R HR br ops i.
  pose proof (fun (T : Type) (HT : Callback T) (t : T) =>
                run_reader_ops_observer br ops i t) as HO.
  destruct (run_reader_ops br ops) as [[rs br'] tr]. intros Hs. split.
  - intros hc Hi. rewrite (HO _ _ hc Hi Hs). simpl.
    destruct (observe_HashCallback (nonempty_chunks (map fst rs)) hc)
      as [_ [HN [HD HW]]].
    unfold cb_Name, cb_Result. simpl. unfold hash.Sum.
    rewrite HN, HD, HW, concat_nonempty_chunks. split; reflexivity.
  - intros sc Hi Hr Hlt. rewrite (HO _ _ sc Hi Hs). simpl.
    destruct (observe_SizeCallback (nonempty_chunks (map fst rs)) sc Hr)
      as [_ HS].
    unfold cb_Result. simpl. rewrite HS, concat_nonempty_chunks.
    rewrite wrap_int64_id; [reflexivity|]. unfold int64 in *. lia.
Qed.

Lemma stock_observers_report_on_the_delivered_bytes_witness :
  br_err (snd (fst (run_reader_ops stock_reader [op_Read 5; op_Read 9]))) = None
  /\ br_callbacks stock_reader !! 0
     = Some (as_callback (@NewHashCallback toy_crypto "sha512"))
  /\ br_callbacks stock_reader !! 1 = Some (as_callback NewSizeCallback)
  /\ int64 (sc_size NewSizeCallback)
  /\ map cb_Result
         (br_callbacks
            (snd (fst (run_reader_ops stock_reader [op_Read 5; op_Read 9]))))
     = [any_bytes (bytes_of "hello world"); any_int 11].
Proof.
  assert (Hs : br_err (snd (fst (run_reader_ops stock_reader
                                   [op_Read 5; op_Read 9]))) = None)
    by (vm_compute; reflexivity).
  assert (Hr : int64 (sc_size NewSizeCallback)) by (unfold int64; simpl; lia).
  split; [exact Hs|]. split; [reflexivity|]. split; [reflexivity|].
  split; [exact Hr|].
  pose proof (stock_observers_report_on_the_delivered_bytes mockReader _
                stock_reader [op_Read 5; op_Read 9] 0) as H0.
  pose proof (stock_observers_report_on_the_delivered_bytes mockReader _
                stock_reader [op_Read 5; op_Read 9] 1) as H1.
  assert (Hlen : length (br_callbacks
                   (snd (fst (run_reader_ops stock_reader
                                [op_Read 5; op_Read 9])))) = 2)
    by (vm_compute; reflexivity).
  destruct (run_reader_ops stock_reader [op_Read 5; op_Read 9])
    as [[rs br'] tr] eqn:E.
  assert (Hcat : concat (map fst rs) = bytes_of "hello world").
  { apply (f_equal (fun x => concat (map fst (fst (fst x))))) in E.
    vm_compute in E. symmetry. exact E. }
  simpl in Hs, Hlen |- *.
  destruct (H0 Hs) as [Hh _]. destruct (H1 Hs) as [_ Hz].
  destruct (Hh (@NewHashCallback toy_crypto "sha512") eq_refl) as [_ Hh2].
  assert (Hlt : (sc_size NewSizeCallback
                 + Z.of_nat (length (concat (map fst rs))) < 2 ^ 63)%Z)
    by (rewrite Hcat; simpl; lia).
  pose proof (Hz NewSizeCallback eq_refl Hr Hlt) as Hz2.
  rewrite Hcat in Hh2, Hz2.
  destruct (br_callbacks br') as [|c0 [|c1 [|c2 rest]]]; try discriminate.
  simpl in Hh2, Hz2 |- *.
  injection Hh2 as ->. injection Hz2 as ->. reflexivity.
Defined.

(** ** Results *)

Lemma last_named_name (k : string) (cbs : list ReadCallback) (cb : ReadCallback) :
  last_named k cbs = Some cb -> cb ∈ cbs /\ cb_Name cb = k.
Proof.
  induction cbs as [|c rest IH]; simpl; [discriminate|].
  destruct (last_named k rest) as [c'|].
  - intros [= ->]. destruct (IH eq_refl) as [Hin Hk].
    split; [right; exact Hin|exact Hk].
  - destruct (String.eqb (cb_Name c) k) eqn:Hk; [|discriminate].
    intros [= ->]. apply String.eqb_eq in Hk. split; [left|exact Hk].
Qed.

Lemma last_named_some (k : string) (cbs : list ReadCallback) :
  k ∈ map cb_Name cbs -> is_Some (last_named k cbs).
Proof.
  induction cbs as [|c rest IH]; simpl; [intros Hin; inversion Hin|].
  intros Hin. apply elem_of_cons in Hin.
  destruct (last_named k rest) as [c'|] eqn:Hl; [eexists; reflexivity|].
  destruct Hin as [-> | Hin].
  - rewrite String.eqb_refl. eexists; reflexivity.
  - destruct (IH Hin) as [x Hx]. discriminate.
Qed.

Lemma last_named_NoDup (cbs : list ReadCallback) :
  NoDup (map cb_Name cbs) ->
  forall (i : nat) (cb : ReadCallback),
    cbs !! i = Some cb -> last_named (cb_Name cb) cbs = Some cb.
Proof.
  induction cbs as [|c rest IH]; intros Hnd i cb Hi; [discriminate|].
  simpl in Hnd. apply NoDup_cons in Hnd. destruct Hnd as [Hnotin Hnd].
  destruct i as [|j]; simpl in Hi.
  - injection Hi as ->. simpl.
    destruct (last_named (cb_Name cb) rest) as [c'|] eqn:Hl.
    + exfalso. apply Hnotin. destruct (last_named_name _ _ _ Hl) as [Hin Hk].
      rewrite <- Hk. exact (list_elem_of_fmap_2 cb_Name _ _ Hin).
    + rewrite String.eqb_refl. reflexivity.
  - simpl. rewrite (IH Hnd j cb Hi). reflexivity.
Qed.

(** X13.  The Results snapshot of either engine has exactly the names of the
    registered observers as its keys, and maps each name to the Result of
    the last registered observer of that name.  When the names are pairwise
    different, every observer's Result is found under its own name. *)
Theorem Results_holds_the_last_observer_of_each_name :
  forall (cbs : list ReadCallback) (k : string),
    (forall (R : Type) (br : BufferedReader R),
        br_callbacks br = cbs -> BufferedReader_Results br = results_of cbs)
    /\ (forall (W : Type) (bw : BufferedWriter W),
           bw_callbacks bw = cbs -> BufferedWriter_Results bw = results_of cbs)
    /\ results_of cbs !! k = cb_Result <$> last_named k cbs
    /\ (is_Some (results_of cbs !! k) <-> k ∈ map cb_Name cbs)
    /\ (NoDup (map cb_Name cbs) ->
        forall (i : nat) (cb : ReadCallback),
          cbs !! i = Some cb ->
          results_of cbs !! cb_Name cb = Some (cb_Result cb)).
Proof.
  intros cbs k.
  assert (Hlook : forall k', results_of cbs !! k' = cb_Result <$> last_named k' cbs).
  { intros k'. unfold results_of. rewrite results_fold_lookup.
    destruct (last_named k' cbs); [reflexivity|]. apply lookup_empty. }
  split; [intros R br <-; reflexivity|].
  split; [intros W bw <-; reflexivity|].
  split; [apply Hlook|]. split.
  - rewrite Hlook. split.
    + intros [x Hx]. destruct (last_named k cbs) as [cb|] eqn:Hl;
        [|discriminate].
      destruct (last_named_name _ _ _ Hl) as [Hin Hk]. rewrite <- Hk.
      exact (list_elem_of_fmap_2 cb_Name _ _ Hin).
    + intros Hin. destruct (last_named_some k cbs Hin) as [cb Hcb].
      rewrite Hcb. eexists; reflexivity.
  - intros Hnd i cb Hi. rewrite Hlook, (last_named_NoDup cbs Hnd i cb Hi).
    reflexivity.
Qed.

Lemma Results_holds_the_last_observer_of_each_name_witness :
  NoDup (map cb_Name (br_callbacks stock_reader))
  /\ br_callbacks stock_reader !! 1 = Some (as_callback NewSizeCallback)
  /\ BufferedReader_Results stock_reader !! "size" = Some (any_int 0).
Proof.
  assert (Hnd : NoDup (map cb_Name (br_callbacks stock_reader))).
  { simpl. apply NoDup_cons. split.
    - intros Hin. apply list_elem_of_singleton in Hin. discriminate.
    - apply NoDup_singleton. }
  split; [exact Hnd|]. split; [reflexivity|].
  destruct (Results_holds_the_last_observer_of_each_name
              (br_callbacks stock_reader) "size") as [_ [_ [_ [_ H]]]].
  exact (H Hnd 1 (as_callback NewSizeCallback) eq_refl).
Defined.

(** ** What the observers of a write engine have seen *)

Lemma bw_deliver_feeds {W : Type} (bw : BufferedWriter W)
    (p : list byte) (n : nat) (e : option error) (tr0 : trace) :
  bw_err bw = None ->
  bw_err (snd (fst (bw_deliver bw p n e tr0))) = None ->
  bw_callbacks (snd (fst (bw_deliver bw p n e tr0)))
  = map (fun cb => feed cb (if Nat.ltb 0 n then [firstn n p] else []))
        (bw_callbacks bw)
  /\ observer_calls (snd (bw_deliver bw p n e tr0))
     = observer_calls tr0
       ++ flat_map (calls_in_order (length (bw_callbacks bw)))
                   (if Nat.ltb 0 n then [firstn n p] else []).
Proof.
  intros Hnil. unfold bw_deliver.
  destruct (Nat.ltb 0 n); simpl.
  - destruct (bw_callbacks bw) as [|cb rest] eqn:Hcbs; simpl.
    + intros _. rewrite app_nil_r. split; [exact Hcbs|reflexivity].
    + pose proof (dispatch_ok (cb :: rest) (firstn n p)) as HD.
      pose proof (dispatch_observer_calls (cb :: rest) (firstn n p)) as HO.
      destruct (dispatch (cb :: rest) (firstn n p)) as [[cbErr cbs'] tr'].
      simpl in HD, HO. destruct cbErr; simpl; [discriminate|].
      intros _. destruct (HD eq_refl) as [H1 H2].
      rewrite observer_calls_app, HO, H2, H1, app_nil_r. simpl.
      split; reflexivity.
  - intros _. rewrite feed_nil_all, app_nil_r. split; reflexivity.
Qed.

Lemma Flush_feeds {W : Type} `{io.Writer W} (bw : BufferedWriter W) :
  let '(_, bw1, tr) := BufferedWriter_Flush bw in
  bw_callbacks bw1 = bw_callbacks bw
  /\ observer_calls tr = []
  /\ (bw_err bw1 = None -> bw_err bw = None).
Proof.
  unfold BufferedWriter_Flush. destruct (bw_err bw) eqn:Hs.
  - repeat split. rewrite Hs. discriminate.
  - pose proof (bufio_FlushPtr_observer_calls (bw_buf bw) (bw_dst bw)) as HO.
    destruct (bufio.FlushPtr (bw_buf bw) (bw_dst bw)) as [[[e b'] dst'] tr].
    simpl in HO. repeat split. exact HO.
Qed.

Lemma run_writer_op_feeds {W : Type} `{WriterType W} (bw : BufferedWriter W)
    (op : writer_op) :
  let '(r, bw1, tr) := run_writer_op bw op in
  bw_err bw1 = None ->
  bw_err bw = None
  /\ bw_callbacks bw1
     = map (fun cb => feed cb (dispatched_chunks [op] [r])) (bw_callbacks bw)
  /\ observer_calls tr
     = flat_map (calls_in_order (length (bw_callbacks bw)))
                (dispatched_chunks [op] [r]).
Proof.
  destruct op as [p|p off| |]; simpl.
  - unfold BufferedWriter_Write. destruct (bw_err bw) eqn:Hs;
      [simpl; rewrite Hs; discriminate|].
    pose proof (bufio_WritePtr_observer_calls (bw_buf bw) (bw_dst bw) p) as HB.
    destruct (bufio.WritePtr (bw_buf bw) (bw_dst bw) p) as [[[[n e] b'] dst'] tr].
    simpl in HB.
    match goal with |- context [bw_deliver ?x p n e tr] =>
      pose proof (bw_deliver_feeds x p n e tr eq_refl) as HF;
      destruct (bw_deliver_observer_calls x p n e tr) as [Hn _];
      destruct (bw_deliver x p n e tr) as [[[n1 e1] bw1] tr1]
    end.
    simpl in *. subst n1. intros H1. destruct (HF H1) as [HF1 HF2].
    rewrite HB in HF2. rewrite app_nil_r. repeat split; assumption.
  - unfold BufferedWriter_WriteAt. destruct (bw_dstAt bw) as [dstAt|].
    + destruct (bw_err bw) eqn:Hs;
        [simpl; rewrite Hs; discriminate|].
      destruct (io.WriteAt (bw_dst bw) p off) as [[n e] dst'].
      match goal with |- context [bw_deliver ?x p n e ?t] =>
        pose proof (bw_deliver_feeds x p n e t eq_refl) as HF;
        destruct (bw_deliver_observer_calls x p n e t) as [Hn _];
        destruct (bw_deliver x p n e t) as [[[n1 e1] bw1] tr1]
      end.
      simpl in *. subst n1. intros H1. destruct (HF H1) as [HF1 HF2].
      rewrite app_nil_r. repeat split; assumption.
    + simpl. intros H1. rewrite feed_nil_all. repeat split; assumption.
  - pose proof (Flush_feeds bw) as HF.
    destruct (BufferedWriter_Flush bw) as [[e bw1] tr].
    destruct HF as [H1 [H2 H3]]. intros Hs.
    rewrite feed_nil_all. repeat split; auto.
  - unfold BufferedWriter_Close. destruct (bw_closed bw).
    + intros Hs. rewrite feed_nil_all. repeat split; auto.
    + match goal with |- context [BufferedWriter_Flush ?x] =>
        pose proof (Flush_feeds x) as HF;
        destruct (BufferedWriter_Flush x) as [[e bw1] tr]
      end.
      destruct HF as [H1 [H2 H3]]. simpl in H1, H3.
      destruct e as [x|].
      * intros Hs. rewrite feed_nil_all. repeat split; auto.
      * destruct wt_Closer as [closer|].
        -- destruct (io.Close (bw_dst bw1)) as [ce dst']. simpl. intros Hs.
           rewrite feed_nil_all, observer_calls_app, H2.
           repeat split; auto.
        -- intros Hs. rewrite feed_nil_all. repeat split; auto.
Qed.

Lemma dispatched_chunks_cons (op : writer_op) (ops : list writer_op)
    (r : nat * option error) (rs : list (nat * option error)) :
  dispatched_chunks (op :: ops) (r :: rs)
  = dispatched_chunks [op] [r] ++ dispatched_chunks ops rs.
Proof.
  destruct r as [n e]. destruct op; simpl; rewrite ?app_nil_r; reflexivity.
Qed.

Lemma run_writer_ops_stays_stuck {W : Type} `{WriterType W}
    (bw : BufferedWriter W) (ops : list writer_op) :
  bw_err (snd (fst (run_writer_ops bw ops))) = None -> bw_err bw = None.
Proof.
  intros Hfin. destruct (bw_err bw) as [x|] eqn:Hs; [|reflexivity].
  destruct (run_writer_ops_sticky x ops bw Hs) as [Hrun Hst].
  rewrite Hrun in Hfin. simpl in Hfin. congruence.
Qed.

Lemma run_writer_ops_feeds {W : Type} `{WriterType W} (ops : list writer_op) :
  forall bw : BufferedWriter W,
    let '(rs, bw', tr) := run_writer_ops bw ops in
    bw_err bw' = None ->
    bw_callbacks bw'
    = map (fun cb => feed cb (dispatched_chunks ops rs)) (bw_callbacks bw)
    /\ observer_calls tr
       = flat_map (calls_in_order (length (bw_callbacks bw)))
                  (dispatched_chunks ops rs).
Proof.
  induction ops as [|op ops IH]; intros bw.
  - simpl. intros _. rewrite feed_nil_all. split; reflexivity.
  - cbn [run_writer_ops].
    pose proof (run_writer_op_feeds bw op) as H1.
    destruct (run_writer_op bw op) as [[r bw1] tr1].
    specialize (IH bw1).
    pose proof (run_writer_ops_stays_stuck bw1 ops) as Hstuck.
    destruct (run_writer_ops bw1 ops) as [[rs bw2] tr2].
    simpl in Hstuck. cbv beta iota. intros Hfin.
    destruct (H1 (Hstuck Hfin)) as [_ [H1a H1b]].
    destruct (IH Hfin) as [IHa IHb].
    rewrite dispatched_chunks_cons.
    rewrite IHa, H1a, feed_all_app.
    rewrite observer_calls_app, H1b, IHb, flat_map_app.
    rewrite H1a, length_map. split; reflexivity.
Qed.

(** X14.  The observers of a write engine are handed exactly what the sink
    accepted.  For any sink, any observers and any sequence of Write,
    WriteAt, Flush and Close calls after which the sticky slot is empty:
    each observer is in the state it reaches when fed [p[:n]] for every
    Write and WriteAt that reported [n > 0] bytes, in the order of the
    calls; these are the only observer calls, one per observer and chunk in
    registration order.  Flush and Close call no observer. *)
Theorem write_observers_see_what_was_accepted :
  forall (W : Type) (HW : WriterType W) (bw : BufferedWriter W)
         (ops : list writer_op),
    let '(rs, bw', tr) := run_writer_ops bw ops in
    bw_err bw' = None ->
    bw_callbacks bw'
    = map (fun cb => feed cb (dispatched_chunks ops rs)) (bw_callbacks bw)
    /\ observer_calls tr
       = flat_map (calls_in_order (length (bw_callbacks bw)))
                  (dispatched_chunks ops rs).
Proof. intros W HW bw ops. exact (run_writer_ops_feeds ops bw). Qed.

Lemma write_observers_see_what_was_accepted_witness :
  bw_err (snd (fst (run_writer_ops recording_writer
                      [op_Write (bytes_of "hello"); op_Flush;
                       op_WriteAt (bytes_of "at") 7; op_Write []])))
  = None
  /\ observer_calls (snd (run_writer_ops recording_writer
                            [op_Write (bytes_of "hello"); op_Flush;
                             op_WriteAt (bytes_of "at") 7; op_Write []]))
     = [(0, bytes_of "hello"); (0, bytes_of "at")].
Proof.
  assert (Hs : bw_err (snd (fst (run_writer_ops recording_writer
                      [op_Write (bytes_of "hello"); op_Flush;
                       op_WriteAt (bytes_of "at") 7; op_Write []]))) = None)
    by (vm_compute; reflexivity).
  split; [exact Hs|].
  pose proof (write_observers_see_what_was_accepted mockWriter _
                recording_writer
                [op_Write (bytes_of "hello"); op_Flush;
                 op_WriteAt (bytes_of "at") 7; op_Write []]) as H.
  destruct (run_writer_ops recording_writer
              [op_Write (bytes_of "hello"); op_Flush;
               op_WriteAt (bytes_of "at") 7; op_Write []])
    as [[rs bw'] tr] eqn:E.
  simpl in Hs. destruct (H Hs) as [_ H2].
  assert (Hrs : map fst rs = [5; 0; 2; 0]).
  { apply (f_equal (fun x => map fst (fst (fst x)))) in E.
    vm_compute in E. symmetry. exact E. }
  simpl. rewrite H2.
  destruct rs as [|[n1 e1] [|[n2 e2] [|[n3 e3] [|[n4 e4] [|]]]]];
    try discriminate.
  injection Hrs as -> -> -> ->. reflexivity.
Defined.

(** ** The tee mirror *)

Lemma observe_tee_mockWriter (chunks : list (list byte)) :
  forall (buf : list byte) (atErr : option error) (data : gmap Z (list byte)),
    snd (observe (mkTee (mkMockWriter buf None atErr data) None) chunks)
    = mkTee (mkMockWriter (buf ++ concat chunks) None atErr data) None.
Proof.
  induction chunks as [|c rest IH]; intros buf atErr data; simpl.
  - rewrite app_nil_r. reflexivity.
  - unfold teeWriterCallback_OnData. simpl.
    specialize (IH (buf ++ c) atErr data).
    destruct (observe (mkTee (mkMockWriter (buf ++ c) None atErr data) None)
                      rest) as [os t'].
    simpl in *. rewrite IH, app_assoc. reflexivity.
Qed.

(** X15.  The mirror of a TeeReader receives a copy of exactly what the caller
    received.  For any source, a healthy in-memory sink as mirror, any
    further observers and any sequence of Read and ReadAt calls after which
    the sticky slot is empty: the mirror is still the first observer, it
    has stored no error, and its sink holds what it held before followed by
    the returned bytes, in order. *)
Theorem TeeReader_mirror_receives_the_delivered_bytes :
  forall (R : Type) (HR : ReaderType R) (r : R) (buf : list byte)
         (atErr : option error) (data : gmap Z (list byte))
         (cbs : list ReadCallback) (ops : list reader_op),
    match engine_of (TeeReader r (mkMockWriter buf None atErr data) cbs) with
    | None => False
    | Some br =>
        let '(rs, br', _) := run_reader_ops br ops in
        br_err br' = None ->
        br_callbacks br' !! 0
        = Some (as_callback
                  (mkTee (mkMockWriter (buf ++ concat (map fst rs)) None
                                       atErr data)
                         None))
    end.
Proof.
  intros R HR r buf atErr data cbs ops. simpl.
  match goal with |- context [run_reader_ops ?br ops] =>
    pose proof (run_reader_ops_observer br ops 0
                  (mkTee (mkMockWriter buf None atErr data) None) eq_refl) as HO;
    destruct (run_reader_ops br ops) as [[rs br'] tr]
  end.
  intros Hs. rewrite (HO Hs), observe_tee_mockWriter, concat_nonempty_chunks.
  reflexivity.
Qed.

Lemma TeeReader_mirror_receives_the_delivered_bytes_witness :
  match engine_of tee_name_clash with
  | None => False
  | Some br =>
      br_err (snd (fst (run_reader_ops br [op_Read 5; op_Read 9]))) = None
      /\ br_callbacks (snd (fst (run_reader_ops br [op_Read 5; op_Read 9])))
         !! 0
         = Some (as_callback
                   (mkTee (mkMockWriter (bytes_of "hello world") None None ∅)
                          None))
  end.
Proof.
  pose proof (TeeReader_mirror_receives_the_delivered_bytes mockReader _
                (mkMockReader (bytes_of "hello world") None) [] None ∅
                [as_callback (mkTestCallback "_tee_writer" [] None
                                             (any_int 42) "")]
                [op_Read 5; op_Read 9]) as H.
  cbv beta iota zeta delta [tee_name_clash engine_of TeeReader Reader length
                            Nat.eqb] in H |- *.
  match goal with |- context [run_reader_ops ?br ?ops] =>
    assert (Hs : br_err (snd (fst (run_reader_ops br ops))) = None)
      by (vm_compute; reflexivity);
    assert (Hcat : concat (map fst (fst (fst (run_reader_ops br ops))))
                   = bytes_of "hello world")
      by (vm_compute; reflexivity);
    destruct (run_reader_ops br ops) as [[rs br'] tr]
  end.
  simpl in Hs, Hcat |- *. split; [exact Hs|].
  rewrite (H Hs), Hcat. reflexivity.
Defined.

(** ** The read buffer *)

Lemma bufio_Read_capacity {R : Type} `{io.Reader R} (b : bufio.Reader)
    (rd : R) (k : N) :
  reader_obeys_len R ->
  bufio.r_size (snd (fst (fst (bufio.Read b rd k)))) = bufio.r_size b
  /\ ((N.of_nat (length (bufio.r_buf b)) <= bufio.r_size b)%N ->
      (N.of_nat (length (bufio.r_buf (snd (fst (fst (bufio.Read b rd k))))))
       <= bufio.r_size b)%N).
Proof.
  intros HC. unfold bufio.Read, bufio.readErr, bufio.copy_out.
  destruct (N.eqb k 0).
  - destruct (bufio.r_buf b) eqn:Hb; simpl; rewrite ?Hb; split; auto.
  - destruct (bufio.r_buf b) as [|x l] eqn:Hb.
    + destruct (negb (is_nil (bufio.r_err b))); simpl;
        [rewrite ?Hb; split; auto|].
      destruct (N.leb (bufio.r_size b) k).
      * destruct (io.Read rd k) as [[d e] rd']. simpl. split; auto.
      * pose proof (HC rd (bufio.r_size b)) as HL.
        destruct (io.Read rd (bufio.r_size b)) as [[d e] rd'].
        simpl in HL. destruct d as [|y d']; simpl; [split; auto|].
        split; [reflexivity|]. intros _.
        pose proof (length_skipn (N.to_nat k) (y :: d')) as HS.
        simpl in HS, HL. lia.
    + simpl. split; [reflexivity|]. intros Hcap.
      pose proof (length_skipn (N.to_nat k) (x :: l)) as HS.
      simpl in HS, Hcap. lia.
Qed.

Lemma Reader_kept_refl (b : bufio.ReaderPtr) : Reader_kept b b.
Proof. destruct b as [|b0]; simpl; [exact I|]. split; auto. Qed.

Lemma Reader_kept_trans (b1 b2 b3 : bufio.ReaderPtr) :
  Reader_kept b1 b2 -> Reader_kept b2 b3 -> Reader_kept b1 b3.
Proof.
  destruct b1 as [|x1], b2 as [|x2], b3 as [|x3]; simpl;
    try contradiction; auto.
  intros [H1 H2] [H3 H4]. split; [congruence|]. auto.
Qed.

Lemma run_reader_op_kept {R : Type} `{io.Reader R}
    (br : BufferedReader R) (op : reader_op) :
  reader_obeys_len R ->
  Reader_kept (br_buf br) (br_buf (snd (fst (run_reader_op br op)))).
Proof.
  intros HC. destruct op as [k|k off]; simpl.
  - unfold BufferedReader_Read.
    destruct (br_err br); [apply Reader_kept_refl|].
    assert (HB : Reader_kept (br_buf br)
                   (snd (fst (fst (bufio.ReadPtr (br_buf br) (br_src br) k))))).
    { destruct (br_buf br) as [|b0]; simpl.
      - destruct (io.Read (br_src br) k) as [r rd']. exact I.
      - pose proof (bufio_Read_capacity b0 (br_src br) k HC) as [Hsz Hcap].
        destruct (bufio.Read b0 (br_src br) k) as [[[r b'] rd'] tr].
        simpl in *. split; [exact Hsz|]. intros Hc. rewrite Hsz. auto. }
    destruct (bufio.ReadPtr (br_buf br) (br_src br) k)
      as [[[[d e] b'] src'] tr].
    simpl in HB.
    match goal with |- context [br_deliver ?x d e tr] =>
      destruct (br_deliver_fields x d e tr) as [_ [Hbuf _]]
    end.
    rewrite Hbuf. simpl. exact HB.
  - unfold BufferedReader_ReadAt.
    destruct (br_srcAt br) as [srcAt|]; [|apply Reader_kept_refl].
    destruct (br_err br); [apply Reader_kept_refl|].
    destruct (io.ReadAt (br_src br) k off) as [[d e] src'].
    match goal with |- context [br_deliver ?x d e ?t] =>
      destruct (br_deliver_fields x d e t) as [_ [Hbuf _]]
    end.
    rewrite Hbuf. simpl. apply Reader_kept_refl.
Qed.

Lemma run_reader_ops_kept {R : Type} `{io.Reader R} (ops : list reader_op) :
  reader_obeys_len R ->
  forall br : BufferedReader R,
    Reader_kept (br_buf br) (br_buf (snd (fst (run_reader_ops br ops)))).
Proof.
  intros HC. induction ops as [|op ops IH]; intros br; simpl;
    [apply Reader_kept_refl|].
  pose proof (run_reader_op_kept br op HC) as H1.
  destruct (run_reader_op br op) as [[r br1] tr1]. simpl in H1.
  specialize (IH br1).
  destruct (run_reader_ops br1 ops) as [[rs br2] tr2]. simpl in *.
  exact (Reader_kept_trans _ _ _ H1 IH).
Qed.

(** X16.  The buffer of a read engine never outgrows its 32 KiB.  Over a
    source that keeps the io.Reader contract on the count and is not itself
    a bufio.Reader with a buffer of at least 32 KiB, the engine NewReader
    makes has a Reader of its own, and after any sequence of Read and
    ReadAt calls that Reader still has capacity 32768 and holds at most that
    many bytes.  When the source is such a bufio.Reader, it is and stays
    what the engine uses as its buffer. *)
Theorem read_buffer_stays_within_capacity :
  forall (R : Type) (HR : ReaderType R) (r : R) (cbs : list ReadCallback)
         (ops : list reader_op),
    reader_obeys_len R ->
    let br' := snd (fst (run_reader_ops (NewReader r cbs) ops)) in
    (is_bufio_Reader_of r (32 * 1024) = false ->
     exists b : bufio.Reader,
       br_buf br' = bufio.Reader_around b
       /\ bufio.r_size b = (32 * 1024)%N
       /\ (N.of_nat (length (bufio.r_buf b)) <= 32 * 1024)%N)
    /\ (is_bufio_Reader_of r (32 * 1024) = true ->
        br_buf br' = bufio.rd_itself).
Proof.
  intros R HR r cbs ops HC. cbv zeta.
  pose proof (run_reader_ops_kept ops HC (NewReader r cbs)) as HK.
  revert HK. unfold is_bufio_Reader_of, NewReader, bufio.NewReaderSize.
  simpl.
  assert (Hfresh : forall p : bufio.ReaderPtr,
            Reader_kept
              (bufio.Reader_around (bufio.mkReader (32 * 1024) [] None)) p ->
            exists b : bufio.Reader,
              p = bufio.Reader_around b
              /\ bufio.r_size b = (32 * 1024)%N
              /\ (N.of_nat (length (bufio.r_buf b)) <= 32 * 1024)%N).
  { intros [|b'] Hk; simpl in Hk; [contradiction|].
    destruct Hk as [Hsz Hcap]. exists b'. split; [reflexivity|].
    split; [exact Hsz|]. rewrite <- Hsz. apply Hcap. simpl. lia. }
  assert (Hself : forall p : bufio.ReaderPtr,
            Reader_kept bufio.rd_itself p -> p = bufio.rd_itself).
  { intros [|b'] Hk; simpl in Hk; [reflexivity|contradiction]. }
  destruct rt_bufioReader as [m|].
  - destruct (N.leb (32 * 1024) (bufio.Reader_Size r)); simpl; intros HK.
    + split; [discriminate|]. intros _. exact (Hself _ HK).
    + split; [intros _; exact (Hfresh _ HK)|discriminate].
  - intros HK. split; [intros _; exact (Hfresh _ HK)|discriminate].
Qed.

Lemma read_buffer_stays_within_capacity_witness :
  (reader_obeys_len mockReader
   /\ is_bufio_Reader_of (mkMockReader (bytes_of "hello world") None)
                         (32 * 1024) = false
   /\ exists b : bufio.Reader,
        br_buf (snd (fst (run_reader_ops hello_reader [op_Read 5])))
        = bufio.Reader_around b
        /\ bufio.r_size b = (32 * 1024)%N
        /\ (N.of_nat (length (bufio.r_buf b)) <= 32 * 1024)%N)
  /\ (reader_obeys_len (bufioReader mockReader)
      /\ is_bufio_Reader_of (bufio_source (64 * 1024)) (32 * 1024) = true
      /\ br_buf (snd (fst (run_reader_ops
                             (NewReader (bufio_source (64 * 1024))
                                        [recorder "test"])
                             [op_Read 5])))
         = bufio.rd_itself).
Proof.
  split.
  - split; [exact mockReader_obeys_len|]. split; [reflexivity|].
    exact (proj1 (read_buffer_stays_within_capacity mockReader _
                    (mkMockReader (bytes_of "hello world") None)
                    [recorder "test"] [op_Read 5] mockReader_obeys_len)
                 eq_refl).
  - split; [exact bufioReader_obeys_len|]. split; [reflexivity|].
    exact (proj2 (read_buffer_stays_within_capacity (bufioReader mockReader) _
                    (bufio_source (64 * 1024)) [recorder "test"] [op_Read 5]
                    bufioReader_obeys_len)
                 eq_refl).
Defined.

(** ** The write-side statements at concrete engines *)

Lemma Write_keeps_the_Writer_contract_witness :
  snd (fst (fst (BufferedWriter_Write recording_writer (bytes_of "hello"))))
  = None
  /\ fst (fst (fst (BufferedWriter_Write recording_writer (bytes_of "hello"))))
     = 5.
Proof.
  assert (He : snd (fst (fst (BufferedWriter_Write recording_writer
                                (bytes_of "hello")))) = None)
    by (vm_compute; reflexivity).
  split; [exact He|].
  pose proof (Write_keeps_the_Writer_contract mockWriter _ recording_writer
                (bytes_of "hello")) as H.
  destruct (BufferedWriter_Write recording_writer (bytes_of "hello"))
    as [[[n e] bw1] tr].
  simpl in He |- *. destruct H as [_ [_ H]]. exact (H He).
Defined.

Lemma sequential_writes_reach_the_sink_in_order_witness :
  Forall (fun r => snd r = None)
         (fst (fst (run_writer_ops recording_writer
                      [op_Write (bytes_of "hello"); op_Flush;
                       op_Write (bytes_of " world")])))
  /\ sink_bytes (snd (run_writer_ops recording_writer
                        [op_Write (bytes_of "hello"); op_Flush;
                         op_Write (bytes_of " world")]))
     ++ w_held (bw_buf (snd (fst (run_writer_ops recording_writer
                        [op_Write (bytes_of "hello"); op_Flush;
                         op_Write (bytes_of " world")]))))
     = bytes_of "hello world".
Proof.
  assert (HF : Forall (fun r => snd r = None)
         (fst (fst (run_writer_ops recording_writer
                      [op_Write (bytes_of "hello"); op_Flush;
                       op_Write (bytes_of " world")]))))
    by (vm_compute; repeat constructor).
  split; [exact HF|].
  pose proof (sequential_writes_reach_the_sink_in_order mockWriter _
                [op_Write (bytes_of "hello"); op_Flush;
                 op_Write (bytes_of " world")] recording_writer) as H.
  destruct (run_writer_ops recording_writer
              [op_Write (bytes_of "hello"); op_Flush;
               op_Write (bytes_of " world")]) as [[rs bw'] tr].
  simpl in HF |- *. rewrite (H HF). reflexivity.
Defined.

Lemma Flush_empties_the_buffer_once_witness :
  bw_buf (snd (fst (BufferedWriter_Write recording_writer (bytes_of "hello"))))
  = bufio.Writer_around (bufio.mkWriter (32 * 1024) (bytes_of "hello") None)
  /\ fst (fst (BufferedWriter_Flush
                 (snd (fst (BufferedWriter_Write recording_writer
                              (bytes_of "hello"))))))
     = None
  /\ sink_bytes (snd (BufferedWriter_Flush
                        (snd (fst (BufferedWriter_Write recording_writer
                                     (bytes_of "hello"))))))
     = bytes_of "hello".
Proof.
  assert (Hb : bw_buf (snd (fst (BufferedWriter_Write recording_writer
                                   (bytes_of "hello"))))
               = bufio.Writer_around
                   (bufio.mkWriter (32 * 1024) (bytes_of "hello") None))
    by (vm_compute; reflexivity).
  assert (He : fst (fst (BufferedWriter_Flush
              (snd (fst (BufferedWriter_Write recording_writer
                           (bytes_of "hello")))))) = None)
    by (vm_compute; reflexivity).
  split; [exact Hb|]. split; [exact He|].
  pose proof (Flush_empties_the_buffer_once mockWriter _
                (snd (fst (BufferedWriter_Write recording_writer
                             (bytes_of "hello"))))
                (bufio.mkWriter (32 * 1024) (bytes_of "hello") None) Hb) as H.
  destruct (BufferedWriter_Flush
              (snd (fst (BufferedWriter_Write recording_writer
                           (bytes_of "hello"))))) as [[e bw1] tr].
  simpl in He |- *. destruct (H He) as [H1 _]. exact H1.
Defined.

(** ** HexSum and MultiHashCallback *)

Lemma hex_digits_of_byte (v : byte) :
  Byte.of_N (16 * hex_value (hex.digit (N.shiftr (Byte.to_N v) 4))
             + hex_value (hex.digit (N.land (Byte.to_N v) 15)))
  = Some v.
Proof. destruct v; vm_compute; reflexivity. Qed.

Lemma hex_EncodeToString_inj (d1 : list byte) :
  forall d2 : list byte,
    hex.EncodeToString d1 = hex.EncodeToString d2 -> d1 = d2.
Proof.
  induction d1 as [|v1 d1 IH]; intros [|v2 d2]; simpl; try discriminate;
    [reflexivity|].
  intros Heq. injection Heq as H1 H2 H3.
  pose proof (hex_digits_of_byte v1) as E1.
  pose proof (hex_digits_of_byte v2) as E2.
  rewrite H1, H2 in E1. rewrite E1 in E2. injection E2 as ->.
  f_equal. apply IH. exact H3.
Qed.

(** X17.  HexSum is a faithful rendering of the digest: two characters per digest
    byte, and different digests never give the same string. *)
Theorem HexSum_is_a_faithful_encoding :
  forall hc1 hc2 : HashCallback,
    String.length (HashCallback_HexSum hc1) = 2 * length (hash.Sum (hc_h hc1))
    /\ (HashCallback_HexSum hc1 = HashCallback_HexSum hc2 ->
        Result hc1 = Result hc2).
Proof.
  intros hc1 hc2. unfold HashCallback_HexSum. split.
  - induction (hash.Sum (hc_h hc1)) as [|v d IH]; simpl; [reflexivity|].
    rewrite IH. lia.
  - intros Heq. simpl. f_equal. apply hex_EncodeToString_inj. exact Heq.
Qed.

Lemma HexSum_is_a_faithful_encoding_witness :
  HashCallback_HexSum
    (snd (observe (@NewHashCallback toy_crypto "md5") [bytes_of "hi"]))
  = HashCallback_HexSum
      (snd (observe (@NewHashCallback toy_crypto "sha512") [bytes_of "h"]))
  /\ HashCallback_HexSum
       (snd (observe (@NewHashCallback toy_crypto "md5") [bytes_of "hi"]))
     = "68"
  /\ Result (snd (observe (@NewHashCallback toy_crypto "md5") [bytes_of "hi"]))
     = Result (snd (observe (@NewHashCallback toy_crypto "sha512")
                            [bytes_of "h"])).
Proof.
  split; [reflexivity|]. split; [reflexivity|].
  exact (proj2 (HexSum_is_a_faithful_encoding
                  (snd (observe (@NewHashCallback toy_crypto "md5")
                                [bytes_of "hi"]))
                  (snd (observe (@NewHashCallback toy_crypto "sha512")
                                [bytes_of "h"]))) eq_refl).
Defined.

Lemma OnData_range_spec (chunk : list byte) (order : list string) :
  forall hashes : gmap string HashCallback,
    NoDup order ->
    fst (MultiHashCallback_OnData_range order hashes chunk) = Return None
    /\ forall k : string,
         snd (MultiHashCallback_OnData_range order hashes chunk) !! k
         = if decide (k ∈ order)
           then (fun h => snd (OnData h chunk)) <$> hashes !! k
           else hashes !! k.
Proof.
  induction order as [|a rest IH]; intros hashes Hnd; simpl.
  - split; [reflexivity|]. intros k.
    destruct (decide (k ∈ [])) as [Hin|_]; [inversion Hin|reflexivity].
  - apply NoDup_cons in Hnd. destruct Hnd as [Hnotin Hnd].
    destruct (hashes !! a) as [h|] eqn:Ha.
    + destruct (IH (<[a := mkHashCallback (hc_name h)
                                          (hash.Write (hc_h h) chunk)]> hashes)
                   Hnd) as [IH1 IH2].
      split; [exact IH1|]. intros k. rewrite IH2.
      destruct (decide (k = a)) as [->|Hne].
      * destruct (decide (a ∈ rest)) as [Hin|_]; [contradiction|].
        destruct (decide (a ∈ a :: rest)) as [_|Hno];
          [|exfalso; apply Hno; left].
        rewrite lookup_insert_eq, Ha. reflexivity.
      * rewrite lookup_insert_ne by congruence.
        destruct (decide (k ∈ rest)) as [Hin|Hno];
          destruct (decide (k ∈ a :: rest)) as [Hin'|Hno']; try reflexivity.
        -- exfalso. apply Hno'. right. exact Hin.
        -- exfalso. apply elem_of_cons in Hin'. destruct Hin'; contradiction.
    + destruct (IH hashes Hnd) as [IH1 IH2].
      split; [exact IH1|]. intros k. rewrite IH2.
      destruct (decide (k = a)) as [->|Hne].
      * destruct (decide (a ∈ rest)) as [Hin|_]; [contradiction|].
        destruct (decide (a ∈ a :: rest)) as [_|Hno];
          [|exfalso; apply Hno; left].
        rewrite Ha. reflexivity.
      * destruct (decide (k ∈ rest)) as [Hin|Hno];
          destruct (decide (k ∈ a :: rest)) as [Hin'|Hno']; try reflexivity.
        -- exfalso. apply Hno'. right. exact Hin.
        -- exfalso. apply elem_of_cons in Hin'. destruct Hin'; contradiction.
Qed.

Lemma OnData_range_all (chunk : list byte) (order : list string)
    (hashes : gmap string HashCallback) :
  range_order hashes order ->
  MultiHashCallback_OnData_range order hashes chunk
  = (Return None, (fun h => snd (OnData h chunk)) <$> hashes).
Proof.
  intros [Hnd Hkeys].
  destruct (OnData_range_spec chunk order hashes Hnd) as [H1 H2].
  destruct (MultiHashCallback_OnData_range order hashes chunk) as [o hs].
  simpl in H1, H2. subst o. f_equal. apply map_eq. intros k.
  rewrite H2, lookup_fmap.
  destruct (decide (k ∈ order)) as [_|Hno]; [reflexivity|].
  destruct (hashes !! k) as [h|] eqn:Hk; [|reflexivity].
  exfalso. apply Hno, Hkeys. exists h. exact Hk.
Qed.

Lemma GetAll_fold_lookup (hashes : gmap string HashCallback)
    (order : list string) (k : string) :
  forall acc : gmap string string,
    foldl (fun results algo =>
             match hashes !! algo with
             | Some h => <[algo := HashCallback_HexSum h]> results
             | None => results
             end) acc order !! k
    = if decide (k ∈ order)
      then match hashes !! k with
           | Some h => Some (HashCallback_HexSum h)
           | None => acc !! k
           end
      else acc !! k.
Proof.
  induction order as [|a rest IH]; intros acc; simpl.
  - destruct (decide (k ∈ [])) as [Hin|_]; [inversion Hin|reflexivity].
  - rewrite IH. destruct (decide (k = a)) as [->|Hne].
    + destruct (decide (a ∈ a :: rest)) as [_|Hno];
        [|exfalso; apply Hno; left].
      destruct (hashes !! a) as [h|] eqn:Ha.
      * rewrite lookup_insert_eq. destruct (decide (a ∈ rest)); reflexivity.
      * destruct (decide (a ∈ rest)); reflexivity.
    + assert (Hacc : match hashes !! a with
                     | Some h => <[a := HashCallback_HexSum h]> acc
                     | None => acc
                     end !! k = acc !! k).
      { destruct (hashes !! a); [apply lookup_insert_ne; congruence|reflexivity]. }
      rewrite Hacc.
      destruct (decide (k ∈ rest)) as [Hin|Hno];
        destruct (decide (k ∈ a :: rest)) as [Hin'|Hno']; try reflexivity.
      * exfalso. apply Hno'. right. exact Hin.
      * exfalso. apply elem_of_cons in Hin'. destruct Hin'; contradiction.
Qed.

Lemma GetAll_all (order : list string) (mh : MultiHashCallback) :
  range_order (mh_hashes mh) order ->
  MultiHashCallback_GetAll order mh = HashCallback_HexSum <$> mh_hashes mh.
Proof.
  intros [Hnd Hkeys]. apply map_eq. intros k.
  unfold MultiHashCallback_GetAll. rewrite GetAll_fold_lookup, lookup_fmap.
  destruct (decide (k ∈ order)) as [_|Hno].
  - destruct (mh_hashes mh !! k); [reflexivity|apply lookup_empty].
  - rewrite lookup_empty. destruct (mh_hashes mh !! k) as [h|] eqn:Hk;
      [|reflexivity].
    exfalso. apply Hno, Hkeys. exists h. exact Hk.
Qed.

(** X18.  The loops of MultiHashCallback do not depend on the order in which Go
    walks the map.  Whatever order visits every key once: OnData returns
    nil and has handed the chunk to every hash, each exactly once; GetAll
    has one entry per hash, its HexSum under its key; and Get returns the
    entry GetAll has for the name, or the empty string when there is
    none. *)
Theorem MultiHashCallback_loops_ignore_the_map_order :
  forall (mh : MultiHashCallback) (order : list string),
    range_order (mh_hashes mh) order ->
    (forall chunk : list byte,
        MultiHashCallback_OnData order mh chunk
        = (Return None,
           mkMultiHashCallback
             ((fun h => snd (OnData h chunk)) <$> mh_hashes mh)))
    /\ MultiHashCallback_GetAll order mh
       = HashCallback_HexSum <$> mh_hashes mh
    /\ (forall algorithm : string,
           MultiHashCallback_Get mh algorithm
           = default "" (MultiHashCallback_GetAll order mh !! algorithm)).
Proof.
  intros mh order Hro. split; [|split].
  - intros chunk. unfold MultiHashCallback_OnData.
    rewrite (OnData_range_all chunk order (mh_hashes mh) Hro). reflexivity.
  - apply GetAll_all. exact Hro.
  - intros a. rewrite (GetAll_all order mh Hro), lookup_fmap.
    unfold MultiHashCallback_Get. destruct (mh_hashes mh !! a); reflexivity.
Qed.

Lemma NewMultiHashCallback_fold_lookup `{Crypto} (algorithms : list string)
    (k : string) :
  forall acc : gmap string HashCallback,
    foldl (fun hashes algo => <[algo := NewHashCallback algo]> hashes)
          acc algorithms !! k
    = if decide (k ∈ algorithms) then Some (NewHashCallback k) else acc !! k.
Proof.
  induction algorithms as [|a rest IH]; intros acc; simpl.
  - destruct (decide (k ∈ [])) as [Hin|_]; [inversion Hin|reflexivity].
  - rewrite IH. destruct (decide (k = a)) as [->|Hne].
    + destruct (decide (a ∈ a :: rest)) as [_|Hno];
        [|exfalso; apply Hno; left].
      rewrite lookup_insert_eq. destruct (decide (a ∈ rest)); reflexivity.
    + rewrite lookup_insert_ne by congruence.
      destruct (decide (k ∈ rest)) as [Hin|Hno];
        destruct (decide (k ∈ a :: rest)) as [Hin'|Hno']; try reflexivity.
      * exfalso. apply Hno'. right. exact Hin.
      * exfalso. apply elem_of_cons in Hin'. destruct Hin'; contradiction.
Qed.

Lemma NewMultiHashCallback_lookup `{Crypto} (algorithms : list string)
    (k : string) :
  mh_hashes (NewMultiHashCallback algorithms) !! k
  = if decide (k ∈ requested algorithms) then Some (NewHashCallback k)
    else None.
Proof.
  unfold NewMultiHashCallback, requested. simpl.
  rewrite NewMultiHashCallback_fold_lookup.
  destruct algorithms; destruct (decide _); try reflexivity; apply lookup_empty.
Qed.

Lemma NewMultiHashCallback_keys `{Crypto} (algorithms : list string)
    (k : string) :
  is_Some (mh_hashes (NewMultiHashCallback algorithms) !! k)
  <-> k ∈ requested algorithms.
Proof.
  rewrite NewMultiHashCallback_lookup.
  destruct (decide (k ∈ requested algorithms)) as [Hin|Hno]; split;
    try (intros; assumption); try (intros; eexists; reflexivity).
  - intros [x Hx]. discriminate.
  - intros Hin. contradiction.
Qed.

Lemma range_order_fmap {A B : Type} (f : A -> B) (m : gmap string A)
    (order : list string) :
  range_order m order -> range_order (f <$> m) order.
Proof.
  intros [Hnd Hkeys]. split; [exact Hnd|]. intros k.
  rewrite Hkeys, lookup_fmap. destruct (m !! k); split; intros [x Hx];
    try discriminate; eexists; reflexivity.
Qed.

Lemma observe_multi_spec (steps : list (list string * list byte)) :
  forall mh : MultiHashCallback,
    Forall (fun s => range_order (mh_hashes mh) (fst s)) steps ->
    Forall (fun o => o = Return None) (fst (observe_multi mh steps))
    /\ mh_hashes (snd (observe_multi mh steps))
       = (fun h => snd (observe h (map snd steps))) <$> mh_hashes mh.
Proof.
  induction steps as [|[order c] rest IH]; intros mh HF; simpl.
  - split; [constructor|]. rewrite map_fmap_id. reflexivity.
  - inversion HF as [|s ss Hro Hrest]; subst. simpl in Hro.
    unfold MultiHashCallback_OnData.
    rewrite (OnData_range_all c order (mh_hashes mh) Hro).
    match goal with |- context [observe_multi ?m rest] =>
      specialize (IH m); destruct (observe_multi m rest) as [os mh'']
    end.
    simpl in IH |- *.
    destruct IH as [IH1 IH2].
    { eapply Forall_impl; [exact Hrest|]. intros s Hs.
      apply range_order_fmap. exact Hs. }
    split; [constructor; [reflexivity|exact IH1]|].
    rewrite IH2, <- map_fmap_compose. apply map_fmap_ext.
    intros k h _. simpl.
    destruct (observe (mkHashCallback (hc_name h) (hash.Write (hc_h h) c))
                      (map snd rest)) as [os' h'].
    reflexivity.
Qed.

(** X19.  A MultiHashCallback keeps one running digest per requested name.  After
    NewMultiHashCallback and any sequence of OnData calls (whatever order
    each call walks the map in), every OnData returned nil, and Get gives,
    for a requested name, the hex digest of all the bytes seen under the
    algorithm of that name, and the empty string for any other name.
    Without names, "sha256" is the one requested; a name that is none of
    "md5", "sha1", "sha512" is kept as the key and computes SHA-256. *)
Theorem MultiHashCallback_digests_under_every_requested_name :
  forall (C : Crypto) (algorithms : list string)
         (steps : list (list string * list byte)) (algorithm : string),
    Forall (fun s => range_order (mh_hashes (NewMultiHashCallback algorithms))
                                 (fst s)) steps ->
    let mh := snd (observe_multi (NewMultiHashCallback algorithms) steps) in
    Forall (fun o => o = Return None)
           (fst (observe_multi (NewMultiHashCallback algorithms) steps))
    /\ MultiHashCallback_Name mh = "multi_hash"
    /\ MultiHashCallback_Get mh algorithm
       = if decide (algorithm ∈ requested algorithms)
         then hex.EncodeToString
                (digest_of algorithm (concat (map snd steps)))
         else "".
Proof.
  intros C algorithms steps a HF. cbv zeta.
  destruct (observe_multi_spec steps (NewMultiHashCallback algorithms) HF)
    as [H1 H2].
  split; [exact H1|]. split; [reflexivity|].
  unfold MultiHashCallback_Get. rewrite H2, lookup_fmap.
  rewrite NewMultiHashCallback_lookup.
  destruct (decide (a ∈ requested algorithms)) as [_|_]; [|reflexivity].
  simpl. rewrite NewHashCallback_fresh.
  destruct (observe_HashCallback (map snd steps)
              (mkHashCallback (name_of a) (hash.mkHash (digest_of a) [])))
    as [_ [_ [HD HW]]].
  unfold HashCallback_HexSum, hash.Sum. rewrite HD, HW. reflexivity.
Qed.

Lemma two_hashes_range_order (order : list string) :
  NoDup order ->
  (forall k : string, k ∈ order <-> k ∈ ["md5"; "whirlpool"]) ->
  range_order (mh_hashes two_hashes) order.
Proof.
  intros Hnd Hk. split; [exact Hnd|]. intros k. unfold two_hashes.
  rewrite NewMultiHashCallback_keys. exact (Hk k).
Qed.

Lemma two_hashes_forwards : range_order (mh_hashes two_hashes) ["md5"; "whirlpool"].
Proof.
  apply two_hashes_range_order; [|intros k; reflexivity].
  apply NoDup_cons. split; [|apply NoDup_singleton].
  intros Hin. apply list_elem_of_singleton in Hin. discriminate.
Qed.

Lemma two_hashes_backwards : range_order (mh_hashes two_hashes) ["whirlpool"; "md5"].
Proof.
  apply two_hashes_range_order.
  - apply NoDup_cons. split; [|apply NoDup_singleton].
    intros Hin. apply list_elem_of_singleton in Hin. discriminate.
  - intros k. rewrite !elem_of_cons. tauto.
Qed.

Lemma MultiHashCallback_loops_ignore_the_map_order_witness :
  range_order (mh_hashes two_hashes) ["whirlpool"; "md5"]
  /\ fst (MultiHashCallback_OnData ["whirlpool"; "md5"] two_hashes
            (bytes_of "hello"))
     = Return None.
Proof.
  split; [exact two_hashes_backwards|].
  destruct (MultiHashCallback_loops_ignore_the_map_order two_hashes
              ["whirlpool"; "md5"] two_hashes_backwards) as [H _].
  rewrite (H (bytes_of "hello")). reflexivity.
Defined.

Lemma MultiHashCallback_digests_under_every_requested_name_witness :
  Forall (fun s => range_order (mh_hashes two_hashes) (fst s))
         [(["md5"; "whirlpool"], bytes_of "hello");
          (["whirlpool"; "md5"], bytes_of " world")]
  /\ MultiHashCallback_Get
       (snd (observe_multi two_hashes
               [(["md5"; "whirlpool"], bytes_of "hello");
                (["whirlpool"; "md5"], bytes_of " world")]))
       "whirlpool"
     = hex.EncodeToString (rev (bytes_of "hello world")).
Proof.
  assert (HF : Forall (fun s => range_order (mh_hashes two_hashes) (fst s))
                 [(["md5"; "whirlpool"], bytes_of "hello");
                  (["whirlpool"; "md5"], bytes_of " world")]).
  { constructor; [exact two_hashes_forwards|].
    constructor; [exact two_hashes_backwards|constructor]. }
  split; [exact HF|].
  destruct (MultiHashCallback_digests_under_every_requested_name toy_crypto
              ["md5"; "whirlpool"]
              [(["md5"; "whirlpool"], bytes_of "hello");
               (["whirlpool"; "md5"], bytes_of " world")]
              "whirlpool" HF) as [_ [_ H]].
  unfold two_hashes. rewrite H.
  destruct (decide ("whirlpool" ∈ requested ["md5"; "whirlpool"]))
    as [_|Hno]; [reflexivity|].
  exfalso. apply Hno. simpl. rewrite !elem_of_cons. tauto.
Defined.

(** ** Buffered bytes and the closed flag *)

(** X20.  A Read is served from the buffer as long as the buffer holds
    bytes.  A Read reads the source at most once; on an engine with a Reader
    of its own, an empty sticky slot and bytes in the buffer it does not
    touch the source at all: it returns the first [len(p)] buffered bytes
    and keeps the rest buffered. *)
Theorem Read_serves_buffered_bytes_first :
  forall (R : Type) (HR : io.Reader R) (br : BufferedReader R) (len_p : N),
    let '((d, _), br1, tr) := BufferedReader_Read br len_p in
    length (stream_calls tr) <= 1
    /\ (forall b : bufio.Reader,
           br_err br = None -> br_buf br = bufio.Reader_around b ->
           bufio.r_buf b <> [] ->
           d = firstn (N.to_nat len_p) (bufio.r_buf b)
           /\ br_buf br1
              = bufio.Reader_around
                  (bufio.mkReader (bufio.r_size b)
                     (skipn (N.to_nat len_p) (bufio.r_buf b)) (bufio.r_err b))
           /\ stream_calls tr = []
           /\ br_src br1 = br_src br).
Proof.
  intros R HR br k. unfold BufferedReader_Read.
  destruct (br_err br) as [x|] eqn:Hs.
  { simpl. split; [lia|]. intros b Hc. discriminate. }
  assert (HB :
    let '((d, _), b', src', tr) :=
      bufio.ReadPtr (br_buf br) (br_src br) k in
    length (stream_calls tr) <= 1
    /\ (forall b : bufio.Reader,
           br_buf br = bufio.Reader_around b -> bufio.r_buf b <> [] ->
           d = firstn (N.to_nat k) (bufio.r_buf b)
           /\ b' = bufio.Reader_around
                     (bufio.mkReader (bufio.r_size b)
                        (skipn (N.to_nat k) (bufio.r_buf b)) (bufio.r_err b))
           /\ stream_calls tr = [] /\ src' = br_src br)).
  { destruct (br_buf br) as [|b0]; simpl.
    - destruct (io.Read (br_src br) k) as [[d e] rd']. simpl.
      split; [lia|]. intros b Hc. discriminate.
    - destruct (bufio.r_buf b0) as [|y l] eqn:Hb0.
      + assert (HL : length (stream_calls
                               (snd (bufio.Read b0 (br_src br) k))) <= 1).
        { unfold bufio.Read, bufio.readErr, bufio.copy_out. rewrite Hb0.
          destruct (N.eqb k 0); simpl; [lia|].
          destruct (negb (is_nil (bufio.r_err b0))); simpl; [lia|].
          destruct (N.leb (bufio.r_size b0) k).
          - destruct (io.Read (br_src br) k) as [[d e] rd']. simpl. lia.
          - destruct (io.Read (br_src br) (bufio.r_size b0))
              as [[d e] rd'].
            destruct d; simpl; lia. }
        destruct (bufio.Read b0 (br_src br) k) as [[[[d e] b'] rd'] tr].
        simpl in HL |- *. split; [exact HL|].
        intros b [= <-] Hne. rewrite Hb0 in Hne. contradiction.
      + rewrite (bufio_Read_buffered b0 (br_src br) k)
          by (rewrite Hb0; discriminate).
        simpl. split; [lia|]. intros b [= <-] _. repeat split. }
  destruct (bufio.ReadPtr (br_buf br) (br_src br) k)
    as [[[[d e] b'] src'] tr].
  match goal with |- context [br_deliver ?x d e tr] =>
    destruct (br_deliver_fields x d e tr) as [Hsrc [Hbuf Hst]];
    destruct (br_deliver_data x d e tr) as [Hd _];
    destruct (br_deliver x d e tr) as [[[d1 e1] br1] tr1]
  end.
  simpl in *. subst d1. rewrite Hst, Hbuf, Hsrc.
  destruct HB as [HB1 HB2]. split; [exact HB1|]. intros b _ Hb Hne.
  exact (HB2 b Hb Hne).
Qed.

Lemma Read_serves_buffered_bytes_first_witness :
  br_err (snd (fst (BufferedReader_Read hello_reader 5))) = None
  /\ br_buf (snd (fst (BufferedReader_Read hello_reader 5)))
     = bufio.Reader_around (bufio.mkReader (32 * 1024) (bytes_of " world") None)
  /\ bufio.r_buf (bufio.mkReader (32 * 1024) (bytes_of " world") None) <> []
  /\ snd (BufferedReader_Read (snd (fst (BufferedReader_Read hello_reader 5)))
                              3)
     = [ev_OnData 0 (bytes_of " wo")].
Proof.
  assert (Hs : br_err (snd (fst (BufferedReader_Read hello_reader 5))) = None)
    by (vm_compute; reflexivity).
  assert (Hb : br_buf (snd (fst (BufferedReader_Read hello_reader 5)))
               = bufio.Reader_around
                   (bufio.mkReader (32 * 1024) (bytes_of " world") None))
    by (vm_compute; reflexivity).
  assert (Hne : bufio.r_buf (bufio.mkReader (32 * 1024) (bytes_of " world")
                                            None) <> [])
    by discriminate.
  split; [exact Hs|]. split; [exact Hb|]. split; [exact Hne|].
  pose proof (Read_serves_buffered_bytes_first mockReader _
                (snd (fst (BufferedReader_Read hello_reader 5))) 3) as H.
  assert (Ht : length (snd (BufferedReader_Read
                              (snd (fst (BufferedReader_Read hello_reader 5)))
                              3)) = 1)
    by (vm_compute; reflexivity).
  assert (Ho : observer_calls (snd (BufferedReader_Read
                              (snd (fst (BufferedReader_Read hello_reader 5)))
                              3)) = [(0, bytes_of " wo")])
    by (vm_compute; reflexivity).
  destruct (BufferedReader_Read
              (snd (fst (BufferedReader_Read hello_reader 5))) 3)
    as [[[d e] br1] tr].
  simpl in Ht, Ho |- *. destruct H as [_ H].
  destruct (H _ Hs Hb Hne) as [_ [_ [Hst _]]].
  destruct tr as [|ev [|ev' tr']]; try discriminate.
  destruct ev; simpl in Hst, Ho; try discriminate.
  injection Ho as -> ->. reflexivity.
Defined.

Lemma bw_deliver_mark_closed {W : Type} (bw : BufferedWriter W)
    (p : list byte) (n : nat) (e : option error) (tr0 : trace) :
  bw_deliver (mark_closed bw) p n e tr0
  = let '(r, bw1, tr) := bw_deliver bw p n e tr0 in (r, mark_closed bw1, tr).
Proof.
  unfold bw_deliver, mark_closed. simpl.
  destruct (Nat.ltb 0 n && Nat.ltb 0 (length (bw_callbacks bw)));
    [|reflexivity].
  destruct (dispatch (bw_callbacks bw) (firstn n p)) as [[cbErr cbs'] tr'].
  destruct cbErr; reflexivity.
Qed.

(** X21.  Only Close looks at the closed flag.  Write, WriteAt and Flush on an
    engine that has been closed do exactly what they do on the same engine
    when it is open: same result, same calls on the sink and the observers,
    same engine afterwards but for the flag.  The engine itself refuses
    nothing after Close. *)
Theorem closed_flag_only_matters_to_Close :
  forall (W : Type) (HW : io.Writer W) (bw : BufferedWriter W)
         (p : list byte) (off : Z),
    BufferedWriter_Write (mark_closed bw) p
    = (let '(r, bw1, tr) := BufferedWriter_Write bw p in
       (r, mark_closed bw1, tr))
    /\ BufferedWriter_WriteAt (mark_closed bw) p off
       = (let '(r, bw1, tr) := BufferedWriter_WriteAt bw p off in
          (r, mark_closed bw1, tr))
    /\ BufferedWriter_Flush (mark_closed bw)
       = (let '(e, bw1, tr) := BufferedWriter_Flush bw in
          (e, mark_closed bw1, tr)).
Proof.
  intros W HW bw p off. split; [|split].
  - unfold BufferedWriter_Write. simpl.
    destruct (bw_err bw); [reflexivity|].
    destruct (bufio.WritePtr (bw_buf bw) (bw_dst bw) p) as [[[[n e] b'] dst'] tr].
    match goal with |- context [bw_deliver ?x p n e tr] =>
      rewrite <- (bw_deliver_mark_closed x p n e tr); reflexivity
    end.
  - unfold BufferedWriter_WriteAt. simpl.
    destruct (bw_dstAt bw) as [dstAt|]; [|reflexivity].
    destruct (bw_err bw); [reflexivity|].
    destruct (io.WriteAt (bw_dst bw) p off) as [[n e] dst'].
    match goal with |- context [bw_deliver ?x p n e ?t] =>
      rewrite <- (bw_deliver_mark_closed x p n e t); reflexivity
    end.
  - unfold BufferedWriter_Flush. simpl.
    destruct (bw_err bw); [reflexivity|].
    destruct (bufio.FlushPtr (bw_buf bw) (bw_dst bw)) as [[[e b'] dst'] tr].
    reflexivity.
Qed.
